(** * GHOST-PROTOCOL: the vault, the monitors and the panic coordinator

    A shallow embedding of [main.py] and [security_threads.py], and of the
    constructor of the status panel in [gui.py].

    - Python objects are records; a field holding [None] or an object is an
      [option].
    - [bytes] values are lists of integers in [0, 256); [str] values are
      lists of Unicode code points.
    - Code that can raise is written in a state-and-exception monad whose
      state survives a raise, as a Python object's fields do.
    - Everything the program reads from outside (the entropy source, the
      file system, the camera, the moment another thread calls [stop]) is an
      explicit input. *)

From Stdlib Require Import ZArith List Bool Ascii String Lia.
Import ListNotations.
Local Open Scope Z_scope.

Set Implicit Arguments.

(** ** Python values *)

Definition bytes := list Z.
Definition pystr := list Z.

(** The exceptions the modelled code can meet. [KeyboardInterrupt] is the
    only one that is not a subclass of [Exception]. *)
Inductive exn : Type :=
| OSError
| RuntimeError
| ValueError
| UnicodeEncodeError
| UnicodeDecodeError
| CvError
| AttributeError
| KeyboardInterrupt.

Definition is_Exception (e : exn) : bool :=
  match e with
  | KeyboardInterrupt => false
  | _ => true
  end.

(** ** State and exceptions

    [Ok a s]: the call returned [a]; [Exc e s]: it raised [e]; [Halt c s]:
    it ended the process with exit status [c] ([os._exit]).  The state
    reached so far is kept in the three cases. *)

Inductive Res (St A : Type) : Type :=
| Ok (a : A) (s : St)
| Exc (e : exn) (s : St)
| Halt (code : Z) (s : St).

Arguments Ok {St A} a s.
Arguments Exc {St A} e s.
Arguments Halt {St A} code s.

Definition M (St A : Type) : Type := St -> Res St A.

Definition ret {St A} (a : A) : M St A := fun s => Ok a s.

Definition bind {St A B} (m : M St A) (k : A -> M St B) : M St B :=
  fun s =>
    match m s with
    | Ok a s' => k a s'
    | Exc e s' => Exc e s'
    | Halt c s' => Halt c s'
    end.

Definition raise {St A} (e : exn) : M St A := fun s => Exc e s.

Definition gets {St A} (f : St -> A) : M St A := fun s => Ok (f s) s.

Definition modify {St} (f : St -> St) : M St unit := fun s => Ok tt (f s).

(** [try: body  except Exception: handler] *)
Definition try_except {St A} (body : M St A) (handler : exn -> M St A)
  : M St A :=
  fun s =>
    match body s with
    | Exc e s' => if is_Exception e then handler e s' else Exc e s'
    | r => r
    end.

(** The state a computation ends in, whatever its outcome. *)
Definition final {St A} (r : Res St A) : St :=
  match r with
  | Ok _ s | Exc _ s | Halt _ s => s
  end.

Declare Scope py_scope.
Delimit Scope py_scope with py.
Notation "x <- m ;; k" := (bind m (fun x => k))
  (at level 61, m at next level, right associativity) : py_scope.
Notation "m ;; k" := (bind m (fun _ => k))
  (at level 61, right associativity) : py_scope.
Local Open Scope py_scope.

(** [for _ in range(n): body] *)
Fixpoint repeat_m {St} (n : nat) (body : M St unit) : M St unit :=
  match n with
  | O => ret tt
  | S n' => body ;; repeat_m n' body
  end.

(** ** The entropy source

    [os.urandom] and [Crypto.Random.get_random_bytes] read the operating
    system's generator.  Each call is one draw; a draw either yields bytes or
    fails with [OSError].  The source is an infinite sequence of draws and a
    counter of the draws made. *)

Inductive draw : Type :=
| DrawBytes (gen : nat -> Z)
| DrawFails.

Record Rng : Type := mkRng {
  entropy : nat -> draw;
  drawn : nat
}.

Definition draw_bytes (gen : nat -> Z) (n : nat) : bytes :=
  map (fun i => gen i mod 256) (seq 0 n).

Definition urandom (n : nat) (r : Rng) : Rng * option bytes :=
  let r' := mkRng (entropy r) (S (drawn r)) in
  match entropy r (drawn r) with
  | DrawBytes gen => (r', Some (draw_bytes gen n))
  | DrawFails => (r', None)
  end.

(** ** UTF-8

    [str.encode('utf-8')] and [bytes.decode('utf-8')], strict error
    handling: a lone surrogate cannot be encoded; overlong forms, surrogates,
    values past U+10FFFF and truncated sequences cannot be decoded. *)

Definition is_surrogate (c : Z) : bool := (0xD800 <=? c) && (c <=? 0xDFFF).

Definition encode_cp (c : Z) : option bytes :=
  if c <? 0 then None
  else if c <? 0x80 then Some [c]
  else if c <? 0x800 then Some [0xC0 + c / 64; 0x80 + c mod 64]
  else if c <? 0x10000 then
    if is_surrogate c then None
    else Some [0xE0 + c / 4096; 0x80 + (c / 64) mod 64; 0x80 + c mod 64]
  else if c <? 0x110000 then
    Some [0xF0 + c / 262144; 0x80 + (c / 4096) mod 64;
          0x80 + (c / 64) mod 64; 0x80 + c mod 64]
  else None.

Fixpoint utf8_encode (p : pystr) : option bytes :=
  match p with
  | [] => Some []
  | c :: p' =>
      match encode_cp c, utf8_encode p' with
      | Some b, Some bs => Some (b ++ bs)
      | _, _ => None
      end
  end.

Definition is_cont (b : Z) : bool := (0x80 <=? b) && (b <? 0xC0).

Fixpoint utf8_decode (bs : bytes) : option pystr :=
  match bs with
  | [] => Some []
  | b0 :: r0 =>
      if (0 <=? b0) && (b0 <? 0x80) then
        option_map (cons b0) (utf8_decode r0)
      else if (0xC2 <=? b0) && (b0 <? 0xE0) then
        match r0 with
        | b1 :: r1 =>
            if is_cont b1 then
              option_map (cons ((b0 - 0xC0) * 64 + (b1 - 0x80)))
                         (utf8_decode r1)
            else None
        | _ => None
        end
      else if (0xE0 <=? b0) && (b0 <? 0xF0) then
        match r0 with
        | b1 :: b2 :: r2 =>
            let c := (b0 - 0xE0) * 4096 + (b1 - 0x80) * 64 + (b2 - 0x80) in
            if is_cont b1 && is_cont b2
               && (0x800 <=? c) && negb (is_surrogate c) then
              option_map (cons c) (utf8_decode r2)
            else None
        | _ => None
        end
      else if (0xF0 <=? b0) && (b0 <? 0xF5) then
        match r0 with
        | b1 :: b2 :: b3 :: r3 =>
            let c := (b0 - 0xF0) * 262144 + (b1 - 0x80) * 4096
                     + (b2 - 0x80) * 64 + (b3 - 0x80) in
            if is_cont b1 && is_cont b2 && is_cont b3
               && (0x10000 <=? c) && (c <? 0x110000) then
              option_map (cons c) (utf8_decode r3)
            else None
        | _ => None
        end
      else None
  end.

(** ** GhostProtocolVault *)

Module GhostProtocolVault.

Record t : Type := mk {
  _key : bytes;
  _encrypted_data : bytes;
  _iv : bytes;
  _nuked : bool
}.

(** The state the vault's methods run in: the object and the entropy
    source. *)
Record world : Type := mkWorld {
  self : t;
  rng : Rng
}.

Definition set_key (k : bytes) : M world unit :=
  modify (fun w =>
    mkWorld (mk k (_encrypted_data (self w)) (_iv (self w)) (_nuked (self w)))
            (rng w)).

Definition set_encrypted_data (d : bytes) : M world unit :=
  modify (fun w =>
    mkWorld (mk (_key (self w)) d (_iv (self w)) (_nuked (self w))) (rng w)).

Definition set_iv (iv : bytes) : M world unit :=
  modify (fun w =>
    mkWorld (mk (_key (self w)) (_encrypted_data (self w)) iv
                (_nuked (self w)))
            (rng w)).

Definition set_nuked (b : bool) : M world unit :=
  modify (fun w =>
    mkWorld (mk (_key (self w)) (_encrypted_data (self w)) (_iv (self w)) b)
            (rng w)).

(** [os.urandom(n)] / [get_random_bytes(n)] *)
Definition os_urandom (n : nat) : M world bytes :=
  fun w =>
    match urandom n (rng w) with
    | (r', Some b) => Ok b (mkWorld (self w) r')
    | (r', None) => Exc OSError (mkWorld (self w) r')
    end.

(** [__init__]: the key is 32 fresh bytes. *)
Definition init (r : Rng) : Res world unit :=
  (k <- os_urandom 32 ;;
   modify (fun w => mkWorld (mk k [] [] false) (rng w)))
    (mkWorld (mk [] [] [] false) r).

(** [len(x) if x else d] *)
Definition len_or (x : bytes) (d : nat) : nat :=
  match x with
  | [] => d
  | _ => List.length x
  end.

Definition zeros (n : nat) : bytes := repeat 0 n.

(** [for _ in range(3): self.<field> = os.urandom(n)] *)
Definition overwrite (set_field : bytes -> M world unit) (n : nat)
  : M world unit :=
  repeat_m 3 (b <- os_urandom n ;; set_field b).

(** The [try] block of [nuke_memory]. *)
Definition nuke_body : M world unit :=
  key <- gets (fun w => _key (self w)) ;;
  let key_len := len_or key 32 in
  overwrite set_key key_len ;;
  set_key (zeros key_len) ;;
  data <- gets (fun w => _encrypted_data (self w)) ;;
  let data_len := len_or data 0 in
  (if (0 <? data_len)%nat
   then overwrite set_encrypted_data data_len
   else ret tt) ;;
  set_encrypted_data [] ;;
  iv <- gets (fun w => _iv (self w)) ;;
  let iv_len := len_or iv 16 in
  overwrite set_iv iv_len ;;
  set_iv [] ;;
  set_nuked true.

Definition nuke_memory : M world unit :=
  nuked <- gets (fun w => _nuked (self w)) ;;
  if nuked then ret tt
  else
    try_except nuke_body
      (fun _ =>
         set_key [] ;;
         set_encrypted_data [] ;;
         set_iv [] ;;
         set_nuked true).

(** The cipher is PyCryptodome's AES in GCM mode, which is not part of
    the program: it is a parameter.  [AES.new] checks the key and nonce
    sizes; [encrypt_and_digest] and [decrypt] map bytes to bytes. *)
Section WithCipher.

Variable gcm_encrypt : bytes -> bytes -> bytes -> bytes.
Variable gcm_decrypt : bytes -> bytes -> bytes -> bytes.

Definition valid_key_len (k : bytes) : bool :=
  let n := List.length k in
  ((n =? 16) || (n =? 24) || (n =? 32))%nat.

Definition AES_new (key nonce : bytes) : M world unit :=
  if valid_key_len key && negb (List.length nonce =? 0)%nat
  then ret tt
  else raise ValueError.

Definition str_encode (p : pystr) : M world bytes :=
  match utf8_encode p with
  | Some b => ret b
  | None => raise UnicodeEncodeError
  end.

Definition bytes_decode (b : bytes) : M world pystr :=
  match utf8_decode b with
  | Some p => ret p
  | None => raise UnicodeDecodeError
  end.

Definition encrypt (plaintext : pystr) : M world unit :=
  nuked <- gets (fun w => _nuked (self w)) ;;
  if nuked then ret tt
  else
    try_except
      (iv <- os_urandom 16 ;;
       set_iv iv ;;
       key <- gets (fun w => _key (self w)) ;;
       AES_new key iv ;;
       plaintext_bytes <- str_encode plaintext ;;
       set_encrypted_data (gcm_encrypt key iv plaintext_bytes))
      (fun _ => ret tt).

Definition decrypt : M world pystr :=
  nuked <- gets (fun w => _nuked (self w)) ;;
  data <- gets (fun w => _encrypted_data (self w)) ;;
  match nuked, data with
  | true, _ | _, [] => ret []
  | false, _ =>
      try_except
        (key <- gets (fun w => _key (self w)) ;;
         iv <- gets (fun w => _iv (self w)) ;;
         AES_new key iv ;;
         bytes_decode (gcm_decrypt key iv data))
        (fun _ => ret [])
  end.

End WithCipher.

End GhostProtocolVault.

(** ** Threads, events and the objects of a run *)

Inductive monitor_id : Type := Camera | Usb.

(** The main thread, and the worker thread that [start] creates for a
    monitor. *)
Inductive tid : Type :=
| MainThread
| Worker (m : monitor_id).

Definition monitor_id_eqb (a b : monitor_id) : bool :=
  match a, b with
  | Camera, Camera | Usb, Usb => true
  | _, _ => false
  end.

Definition tid_eqb (a b : tid) : bool :=
  match a, b with
  | MainThread, MainThread => true
  | Worker m, Worker n => monitor_id_eqb m n
  | _, _ => false
  end.

Inductive gui_call : Type :=
| GuiUpdateStatus (key value : string)
| GuiSetBlur (blur : bool)
| GuiShowWipeAnimation
| GuiClearSecrets.

(** What a run does, in order.  The trace is not a Python object: it
    records the calls the claims speak of. *)
Inductive event : Type :=
| EvStatus (key value : string)   (* a monitor called status_callback *)
| EvBlur (blur : bool)            (* a monitor called blur_callback *)
| EvPanicCall (caller : tid)      (* a call of the panic trigger *)
| EvStop (m : monitor_id)         (* stop() entered on a monitor *)
| EvJoin (m : monitor_id)         (* the join of its worker returned *)
| EvWipe                          (* vault.nuke_memory() called *)
| EvGui (c : gui_call)            (* a call accepted by the GUI *)
| EvExit (code : Z).              (* os._exit(code) *)

Record SecurityMonitor : Type := mkMonitor {
  _running : bool;
  _thread : option tid
}.

Record CameraSentinelObj : Type := mkCamera {
  cam_base : SecurityMonitor;
  cap : option bool;              (* None, or a capture: true while open *)
  _camera_available : bool
}.

Record USBGuardObj : Type := mkUsb {
  usb_base : SecurityMonitor;
  _usb_present : bool;
  _bypass_mode : bool
}.

(** The GUI collaborator: its methods schedule work with [after], which
    raises once the window is gone. *)
Record GuiObj : Type := mkGui {
  torn_down : bool
}.

(** The [GhostProtocol] object with the objects it owns, the entropy
    source and the trace. *)
Record Sys : Type := mkSys {
  bypass_usb : bool;
  enable_camera : bool;
  vault : option GhostProtocolVault.t;
  gui : option GuiObj;
  camera_sentinel : option CameraSentinelObj;
  usb_guard : option USBGuardObj;
  _panic_triggered : bool;
  sys_rng : Rng;
  trace : list event
}.

Definition set_vault (v : option GhostProtocolVault.t) (s : Sys) : Sys :=
  mkSys (bypass_usb s) (enable_camera s) v (gui s) (camera_sentinel s)
        (usb_guard s) (_panic_triggered s) (sys_rng s) (trace s).

Definition set_gui (g : option GuiObj) (s : Sys) : Sys :=
  mkSys (bypass_usb s) (enable_camera s) (vault s) g (camera_sentinel s)
        (usb_guard s) (_panic_triggered s) (sys_rng s) (trace s).

Definition set_camera_sentinel (c : option CameraSentinelObj) (s : Sys)
  : Sys :=
  mkSys (bypass_usb s) (enable_camera s) (vault s) (gui s) c
        (usb_guard s) (_panic_triggered s) (sys_rng s) (trace s).

Definition set_usb_guard (u : option USBGuardObj) (s : Sys) : Sys :=
  mkSys (bypass_usb s) (enable_camera s) (vault s) (gui s)
        (camera_sentinel s) u (_panic_triggered s) (sys_rng s) (trace s).

Definition set_panic_triggered (b : bool) (s : Sys) : Sys :=
  mkSys (bypass_usb s) (enable_camera s) (vault s) (gui s)
        (camera_sentinel s) (usb_guard s) b (sys_rng s) (trace s).

Definition set_sys_rng (r : Rng) (s : Sys) : Sys :=
  mkSys (bypass_usb s) (enable_camera s) (vault s) (gui s)
        (camera_sentinel s) (usb_guard s) (_panic_triggered s) r (trace s).

Definition set_trace (t : list event) (s : Sys) : Sys :=
  mkSys (bypass_usb s) (enable_camera s) (vault s) (gui s)
        (camera_sentinel s) (usb_guard s) (_panic_triggered s) (sys_rng s) t.

Definition log (e : event) : M Sys unit :=
  modify (fun s => set_trace (trace s ++ [e]) s).

(** The base-class part of a monitor object, wherever it lives. *)
Definition get_base (m : monitor_id) (s : Sys) : option SecurityMonitor :=
  match m with
  | Camera => option_map cam_base (camera_sentinel s)
  | Usb => option_map usb_base (usb_guard s)
  end.

Definition map_base (m : monitor_id) (f : SecurityMonitor -> SecurityMonitor)
                    (s : Sys) : Sys :=
  match m with
  | Camera =>
      set_camera_sentinel
        (option_map (fun c => mkCamera (f (cam_base c)) (cap c)
                                       (_camera_available c))
                    (camera_sentinel s)) s
  | Usb =>
      set_usb_guard
        (option_map (fun u => mkUsb (f (usb_base u)) (_usb_present u)
                                    (_bypass_mode u))
                    (usb_guard s)) s
  end.

Definition map_camera (f : CameraSentinelObj -> CameraSentinelObj)
  : M Sys unit :=
  modify (fun s => set_camera_sentinel (option_map f (camera_sentinel s)) s).

Definition map_usb (f : USBGuardObj -> USBGuardObj) : M Sys unit :=
  modify (fun s => set_usb_guard (option_map f (usb_guard s)) s).

(** Reading [self._running]: a worker whose object is gone has nothing to
    run. *)
Definition is_running (m : monitor_id) : M Sys bool :=
  gets (fun s =>
    match get_base m s with
    | Some b => _running b
    | None => false
    end).

(** ** What other threads do while a worker runs

    A worker loop is run on a list of ticks, one per iteration.  A tick
    carries the calls other threads made on the shared objects since the
    previous iteration, and what the classifier returns in this one. *)

Inductive ext_action : Type :=
| ExtStop (m : monitor_id)           (* another thread set _running = False *)
| ExtSetBypass (bypass : bool).      (* another thread's set_bypass_mode *)

Record tick (X : Type) : Type := mkTick {
  before : list ext_action;
  sample : X
}.

(** How a worker's run over its ticks ends: [Exited] when the loop was
    left, [Pending] when the ticks ran out with the loop still going. *)
Inductive loop_end : Type := Exited | Pending.

(** ** SecurityMonitor *)

Module SecurityMonitorM.

(** [start]: the flag is set and a thread object is stored; the thread's
    body runs elsewhere. *)
Definition start (m : monitor_id) : M Sys unit :=
  modify (map_base m (fun b => mkMonitor true (_thread b))) ;;
  modify (map_base m (fun b => mkMonitor (_running b) (Some (Worker m)))).

(** [Thread.join(timeout=2.0)]: joining the calling thread raises
    [RuntimeError]; joining another one returns within the timeout. *)
Definition join (me : tid) (m : monitor_id) (t : tid) : M Sys unit :=
  if tid_eqb t me then raise RuntimeError else log (EvJoin m).

Definition stop (me : tid) (m : monitor_id) : M Sys unit :=
  log (EvStop m) ;;
  modify (map_base m (fun b => mkMonitor false (_thread b))) ;;
  th <- gets (fun s => match get_base m s with
                       | Some b => _thread b
                       | None => None
                       end) ;;
  match th with
  | Some t => join me m t
  | None => ret tt
  end.

End SecurityMonitorM.

(** What another thread did to the shared objects.  [ExtSetBypass b] is a
    call of [USBGuard.set_bypass_mode b]. *)
Definition interfere_one (a : ext_action) : M Sys unit :=
  match a with
  | ExtStop m => modify (map_base m (fun b => mkMonitor false (_thread b)))
  | ExtSetBypass bypass =>
      map_usb (fun u => mkUsb (usb_base u) (_usb_present u) bypass)
  end.

Fixpoint interfere (acts : list ext_action) : M Sys unit :=
  match acts with
  | [] => ret tt
  | a :: rest => interfere_one a ;; interfere rest
  end.

(** ** CameraSentinel *)

(** What opening the camera meets. *)
Inductive camera_probe : Type :=
| CascadeEmpty                 (* the classifier file did not load *)
| CameraUnavailable            (* VideoCapture(0) is not opened *)
| ProbeRaises (e : exn)
| CameraOpened.

(** What one iteration gets from the camera and the classifier. *)
Inductive frame : Type :=
| ReadFails                    (* cap.read() returned ret = False *)
| ProcessingRaises (e : exn)   (* cvtColor or detectMultiScale raised *)
| Faces (face_count : nat).    (* len(faces) *)

Module CameraSentinel.

Definition set_cap (c : option bool) : M Sys unit :=
  map_camera (fun o => mkCamera (cam_base o) c (_camera_available o)).

Definition set_camera_available (b : bool) : M Sys unit :=
  map_camera (fun o => mkCamera (cam_base o) (cap o) b).

(** [if self.cap is not None: self.cap.release()] *)
Definition release_cap : M Sys unit :=
  map_camera (fun o => mkCamera (cam_base o)
                                (option_map (fun _ => false) (cap o))
                                (_camera_available o)).

(** How one pass through the loop body ends. *)
Inductive body_end : Type :=
| Continue (last_face_count : nat)
| Break.

Section WithCallbacks.

Variable panic_callback : tid -> M Sys unit.
Variable status_callback : string -> string -> M Sys unit.
Variable blur_callback : bool -> M Sys unit.

Definition call_status (key value : string) : M Sys unit :=
  log (EvStatus key value) ;; status_callback key value.

Definition call_blur (blur : bool) : M Sys unit :=
  log (EvBlur blur) ;; blur_callback blur.

Definition _initialize_camera (probe : camera_probe) : M Sys bool :=
  try_except
    (match probe with
     | ProbeRaises e => raise e
     | CascadeEmpty => ret false
     | CameraUnavailable =>
         set_cap (Some false) ;;
         call_status "camera" "NO CAMERA" ;;
         ret false
     | CameraOpened =>
         set_cap (Some true) ;;
         set_camera_available true ;;
         call_status "camera" "ARMED" ;;
         ret true
     end)
    (fun _ => call_status "camera" "ERROR" ;; ret false).

(** The [try] statement inside the loop. *)
Definition loop_body (me : tid) (last_face_count : nat) (f : frame)
  : M Sys body_end :=
  try_except
    (match f with
     | ReadFails => ret (Continue last_face_count)
     | ProcessingRaises e => raise e
     | Faces face_count =>
         match face_count with
         | O =>
             (if negb (last_face_count =? 0)%nat then
                call_status "camera" "LOCKED" ;;
                call_blur true
              else ret tt) ;;
             ret (Continue face_count)
         | S O =>
             (if negb (last_face_count =? 1)%nat then
                call_status "camera" "ARMED" ;;
                call_blur false
              else ret tt) ;;
             ret (Continue face_count)
         | _ =>
             call_status "camera" "BREACH" ;;
             call_status "threat" "CRITICAL" ;;
             panic_callback me ;;
             ret Break
         end
     end)
    (fun _ => ret (Continue last_face_count)).

(** [while self._running: time.sleep(1.0)], the degraded mode. *)
Fixpoint standby (ticks : list (tick frame)) : M Sys loop_end :=
  match ticks with
  | [] => ret Pending
  | tk :: rest =>
      interfere (before tk) ;;
      running <- is_running Camera ;;
      if running then standby rest else ret Exited
  end.

(** The [while self._running] loop over the frames. *)
Fixpoint watch (me : tid) (last_face_count : nat)
               (ticks : list (tick frame)) : M Sys loop_end :=
  match ticks with
  | [] => ret Pending
  | tk :: rest =>
      interfere (before tk) ;;
      running <- is_running Camera ;;
      if negb running then ret Exited
      else
        r <- loop_body me last_face_count (sample tk) ;;
        match r with
        | Continue last' => watch me last' rest
        | Break => ret Exited
        end
  end.

Definition _monitor_loop (me : tid) (probe : camera_probe)
                         (ticks : list (tick frame)) : M Sys loop_end :=
  ok <- _initialize_camera probe ;;
  if negb ok then standby ticks
  else
    e <- watch me 1%nat ticks ;;
    match e with
    | Exited => release_cap ;; ret Exited
    | Pending => ret Pending
    end.

End WithCallbacks.

(** [stop]: the base class's [stop], then the capture is released. *)
Definition stop (me : tid) : M Sys unit :=
  SecurityMonitorM.stop me Camera ;;
  release_cap.

End CameraSentinel.

(** ** The file system as the token check sees it *)

(** The errors of the operating-system calls the check makes.  In Python
    they are [PermissionError], [FileNotFoundError], [NotADirectoryError]
    and the other [OSError]s (or [psutil.Error]): all of them subclasses of
    [Exception]. *)
Inductive os_error : Type :=
| PermissionDenied
| FileNotFound
| NotADirectory
| OtherError.

Inductive io (A : Type) : Type :=
| IoOk (a : A)
| IoRaises (e : os_error).

Arguments IoOk {A} a.
Arguments IoRaises {A} e.

Record partition : Type := mkPartition {
  mountpoint : string;
  device : string
}.

(** One reading of the machine: what each call of the check would get. *)
Record Host : Type := mkHost {
  platform_system : string;
  disk_partitions : io (list partition);     (* psutil.disk_partitions *)
  volume_label : string -> io string;        (* GetVolumeInformationW *)
  path_exists : string -> bool;              (* os.path.exists *)
  path_isdir : string -> bool;               (* os.path.isdir *)
  listdir : string -> io (list string)       (* os.listdir *)
}.

(** [needle in hay] on strings. *)
Fixpoint contains (needle hay : string) : bool :=
  if String.prefix needle hay then true
  else match hay with
       | EmptyString => false
       | String _ hay' => contains needle hay'
       end.

(** [os.path.join] of relative components on a POSIX system. *)
Definition path_join3 (a b c : string) : string :=
  (a ++ "/" ++ b ++ "/" ++ c)%string.

(** ** USBGuard *)

Module USBGuard.

Definition REQUIRED_USB_NAME : string := "GHOST_KEY".

(** The body of a loop that may [return True], fall through to the next
    iteration, or raise. *)
Inductive scan : Type :=
| Found
| Next
| Raised (e : os_error).

Fixpoint scan_user_dirs (h : Host) (base_dir : string)
                        (user_dirs : list string) : scan :=
  match user_dirs with
  | [] => Next
  | user_dir :: rest =>
      let key_path := path_join3 base_dir user_dir REQUIRED_USB_NAME in
      if path_exists h key_path && path_isdir h key_path then Found
      else if String.eqb user_dir REQUIRED_USB_NAME then Found
      else scan_user_dirs h base_dir rest
  end.

Fixpoint scan_base_dirs (h : Host) (base_dirs : list string) : scan :=
  match base_dirs with
  | [] => Next
  | base_dir :: rest =>
      if path_exists h base_dir then
        match listdir h base_dir with
        | IoOk user_dirs =>
            match scan_user_dirs h base_dir user_dirs with
            | Next => scan_base_dirs h rest
            | r => r
            end
        | IoRaises PermissionDenied => scan_base_dirs h rest
        | IoRaises e => Raised e
        end
      else scan_base_dirs h rest
  end.

Definition scan_partition (h : Host) (p : partition) : scan :=
  let mount_point := mountpoint p in
  if String.eqb (platform_system h) "Windows" then
    match volume_label h (mount_point ++ "\")%string with
    | IoOk name => if String.eqb name REQUIRED_USB_NAME then Found else Next
    | IoRaises _ => Next
    end
  else
    if contains REQUIRED_USB_NAME mount_point then Found
    else if path_exists h ("/dev/disk/by-label/" ++ REQUIRED_USB_NAME)%string
    then Found
    else scan_base_dirs h ["/media"; "/mnt"; "/run/media"]%string.

Fixpoint scan_partitions (h : Host) (ps : list partition) : scan :=
  match ps with
  | [] => Next
  | p :: rest =>
      match scan_partition h p with
      | Next => scan_partitions h rest
      | r => r
      end
  end.

(** The [try] block of [check_ghost_key_present]: a value, or the
    exception that leaves it. *)
Definition enumerate (h : Host) : io bool :=
  match disk_partitions h with
  | IoRaises e => IoRaises e
  | IoOk partitions =>
      match scan_partitions h partitions with
      | Found => IoOk true
      | Next => IoOk false
      | Raised e => IoRaises e
      end
  end.

(** [check_ghost_key_present]: [except Exception] turns an error into
    [False]. *)
Definition check_ghost_key_present (h : Host) : bool :=
  match enumerate h with
  | IoOk b => b
  | IoRaises _ => false
  end.

Definition set_bypass_mode (bypass : bool) : M Sys unit :=
  map_usb (fun u => mkUsb (usb_base u) (_usb_present u) bypass).

Definition set_usb_present (b : bool) : M Sys unit :=
  map_usb (fun u => mkUsb (usb_base u) b (_bypass_mode u)).

Definition get_bypass_mode : M Sys bool :=
  gets (fun s => match usb_guard s with
                 | Some u => _bypass_mode u
                 | None => false
                 end).

Definition get_usb_present : M Sys bool :=
  gets (fun s => match usb_guard s with
                 | Some u => _usb_present u
                 | None => false
                 end).

Section WithCallbacks.

(** The callbacks given to the constructor.  [me] is the thread the
    call is made in. *)
Variable panic_callback : tid -> M Sys unit.
Variable status_callback : string -> string -> M Sys unit.

Definition call_status (key value : string) : M Sys unit :=
  log (EvStatus key value) ;; status_callback key value.

Definition call_panic (me : tid) : M Sys unit :=
  panic_callback me.

(** [while self._running: time.sleep(CHECK_INTERVAL)] *)
Fixpoint bypass_idle (ticks : list (tick Host)) : M Sys loop_end :=
  match ticks with
  | [] => ret Pending
  | tk :: rest =>
      interfere (before tk) ;;
      running <- is_running Usb ;;
      if running then bypass_idle rest else ret Exited
  end.

(** The [while self._running] loop after the initial check. *)
Fixpoint poll (me : tid) (initial_state : bool) (ticks : list (tick Host))
  : M Sys loop_end :=
  match ticks with
  | [] => ret Pending
  | tk :: rest =>
      interfere (before tk) ;;
      running <- is_running Usb ;;
      if negb running then ret Exited
      else
        let current_state := check_ghost_key_present (sample tk) in
        if initial_state && negb current_state then
          call_status "usb" "REMOVED" ;;
          call_status "threat" "CRITICAL" ;;
          call_panic me ;;
          ret Exited
        else
          usb_present <- get_usb_present ;;
          (if current_state && negb usb_present then
             call_status "usb" "SECURE"
           else if negb current_state && usb_present then
             call_status "usb" "NO KEY"
           else ret tt) ;;
          set_usb_present current_state ;;
          poll me initial_state rest
  end.

(** [_monitor_loop].  The first tick is the initial check. *)
Definition _monitor_loop (me : tid) (ticks : list (tick Host))
  : M Sys loop_end :=
  bypass_mode <- get_bypass_mode ;;
  if bypass_mode then
    call_status "usb" "BYPASSED" ;;
    bypass_idle ticks
  else
    match ticks with
    | [] => ret Pending
    | tk :: rest =>
        interfere (before tk) ;;
        let present := check_ghost_key_present (sample tk) in
        set_usb_present present ;;
        (if present then call_status "usb" "SECURE"
         else call_status "usb" "NO KEY") ;;
        initial_state <- get_usb_present ;;
        poll me initial_state rest
    end.

End WithCallbacks.

End USBGuard.

(** ** The GUI collaborator *)

Module Gui.

(** A call of one of the GUI's methods: accepted, or raising once the
    window is gone. *)
Definition call (c : gui_call) : M Sys unit :=
  g <- gets gui ;;
  match g with
  | Some o => if torn_down o then raise RuntimeError else log (EvGui c)
  | None => raise RuntimeError
  end.

End Gui.

(** ** The status panel of the window

    [gui.py], [StatusPanel]: of a panel object, the attribute
    [_status_labels], unset until [__init__] assigns it.  The widgets are
    the toolkit's; building them is taken to succeed. *)

Module StatusPanel.

Record t : Type := mk {
  _status_labels : option (list (string * string))
}.

(** Reading [self._status_labels]: an attribute that was never assigned
    raises [AttributeError]. *)
Definition get_status_labels : M t (list (string * string)) :=
  fun o =>
    match _status_labels o with
    | Some d => Ok d o
    | None => Exc AttributeError o
    end.

Definition lower (c : Ascii.ascii) : Ascii.ascii :=
  let n := Ascii.nat_of_ascii c in
  if ((65 <=? n) && (n <=? 90))%nat then Ascii.ascii_of_nat (n + 32) else c.

(** [label_text.replace(":", "").lower().replace(" ", "_")] *)
Fixpoint label_key (label_text : string) : string :=
  match label_text with
  | EmptyString => EmptyString
  | String c rest =>
      if Ascii.eqb c ":"%char then label_key rest
      else String (if Ascii.eqb c " "%char then "_"%char else lower c)
                  (label_key rest)
  end.

(** [d[key] = value] *)
Fixpoint dict_set (key value : string) (d : list (string * string))
  : list (string * string) :=
  match d with
  | [] => [(key, value)]
  | (k, v) :: rest =>
      if String.eqb k key then (key, value) :: rest
      else (k, v) :: dict_set key value rest
  end.

(** [_create_status_row]: the row's widgets are built, then the value
    label is stored under the row's key. *)
Definition _create_status_row (label_text value_text : string) : M t unit :=
  let value := ("[" ++ value_text ++ "]")%string in
  let key := label_key label_text in
  d <- get_status_labels ;;
  modify (fun _ => mk (Some (dict_set key value d))).

(** [__init__]: the three rows, then the dictionary. *)
Definition init : M t unit :=
  _create_status_row "CAMERA:" "INITIALIZING" ;;
  _create_status_row "USB KEY:" "SCANNING" ;;
  _create_status_row "THREAT:" "LOW" ;;
  modify (fun _ => mk (Some [])).

(** [StatusPanel(master, width=220)]: a new object, then [__init__]. *)
Definition new : Res t unit := init (mk None).

End StatusPanel.

(** ** GhostProtocol *)

(** What can happen while the GUI main loop runs. *)
Inductive happening : Type :=
| PanicButton                                    (* the button, or Escape *)
| Signal                                         (* SIGINT or SIGTERM *)
| CameraRuns (probe : camera_probe) (ticks : list (tick frame))
| UsbRuns (ticks : list (tick Host)).

(** How the GUI main loop ends, when it does. *)
Inductive mainloop_end : Type :=
| WindowClosed
| MainloopRaises (e : exn).

Module GhostProtocol.

(** [__init__] *)
Definition init (bypass enable_cam : bool) (r : Rng) : Sys :=
  mkSys bypass enable_cam None None None None false r [].

(** A vault method, run on the application's vault. *)
Definition on_vault {A} (m : M GhostProtocolVault.world A) (v : GhostProtocolVault.t)
  : M Sys A :=
  fun s =>
    let put w :=
      set_sys_rng (GhostProtocolVault.rng w)
                  (set_vault (Some (GhostProtocolVault.self w)) s) in
    match m (GhostProtocolVault.mkWorld v (sys_rng s)) with
    | Ok a w => Ok a (put w)
    | Exc e w => Exc e (put w)
    | Halt c w => Halt c (put w)
    end.

(** [os._exit(code)]: the process ends there; no [finally] clause and
    no [atexit] handler runs after it. *)
Definition os_exit {A} (code : Z) : M Sys A :=
  fun s => Halt code (set_trace (trace s ++ [EvExit code]) s).

(** [_stop_monitors], called in thread [me]. *)
Definition _stop_monitors (me : tid) : M Sys unit :=
  c <- gets camera_sentinel ;;
  (match c with
   | Some _ => CameraSentinel.stop me
   | None => ret tt
   end) ;;
  u <- gets usb_guard ;;
  match u with
  | Some _ => SecurityMonitorM.stop me Usb
  | None => ret tt
  end.

(** [_trigger_panic], called in thread [me].  The check and the set of
    the flag are one step: they are made under [_panic_lock]. *)
Definition _trigger_panic (me : tid) : M Sys unit :=
  log (EvPanicCall me) ;;
  (* with self._panic_lock: *)
  fired <- gets _panic_triggered ;;
  if fired then ret tt
  else
    modify (set_panic_triggered true) ;;
    _stop_monitors me ;;
    v <- gets vault ;;
    (match v with
     | Some o => log EvWipe ;; on_vault GhostProtocolVault.nuke_memory o
     | None => ret tt
     end) ;;
    g <- gets gui ;;
    (match g with
     | Some _ =>
         try_except
           (Gui.call GuiShowWipeAnimation ;; Gui.call GuiClearSecrets)
           (fun _ => ret tt)
     | None => ret tt
     end) ;;
    os_exit 0.

(** Signal handlers run in the main thread. *)
Definition _signal_handler : M Sys unit := _trigger_panic MainThread.

Definition _update_status (key value : string) : M Sys unit :=
  g <- gets gui ;;
  match g with
  | Some _ =>
      try_except (Gui.call (GuiUpdateStatus key value)) (fun _ => ret tt)
  | None => ret tt
  end.

Definition _set_blur (blur : bool) : M Sys unit :=
  g <- gets gui ;;
  match g with
  | Some _ => try_except (Gui.call (GuiSetBlur blur)) (fun _ => ret tt)
  | None => ret tt
  end.

Definition _check_usb_key (h : Host) : M Sys bool :=
  bypass <- gets bypass_usb ;;
  if bypass then ret true
  else ret (USBGuard.check_ghost_key_present h).

Definition _start_monitors : M Sys unit :=
  cam <- gets enable_camera ;;
  (if cam then
     modify (set_camera_sentinel
               (Some (mkCamera (mkMonitor false None) None false))) ;;
     SecurityMonitorM.start Camera
   else _update_status "camera" "DISABLED") ;;
  modify (set_usb_guard (Some (mkUsb (mkMonitor false None) false false))) ;;
  bypass <- gets bypass_usb ;;
  (if bypass then USBGuard.set_bypass_mode true else ret tt) ;;
  SecurityMonitorM.start Usb ;;
  _update_status "threat" "LOW".

(** [_cleanup], the handler registered with [atexit]. *)
Definition _cleanup : M Sys unit :=
  fired <- gets _panic_triggered ;;
  if negb fired then _trigger_panic MainThread else ret tt.

(** The bodies of the two worker threads, with the callbacks
    [_start_monitors] gives them. *)
Definition camera_worker (probe : camera_probe) (ticks : list (tick frame))
  : M Sys loop_end :=
  CameraSentinel._monitor_loop _trigger_panic _update_status _set_blur
                               (Worker Camera) probe ticks.

Definition usb_worker (ticks : list (tick Host)) : M Sys loop_end :=
  USBGuard._monitor_loop _trigger_panic _update_status (Worker Usb) ticks.

(** A worker runs in its own thread: an exception that leaves its body
    ends that thread and no other. *)
Definition in_thread {A} (body : M Sys A) : M Sys unit :=
  fun s =>
    match body s with
    | Ok _ s' => Ok tt s'
    | Exc _ s' => Ok tt s'
    | Halt c s' => Halt c s'
    end.

(** [GhostProtocolGUI._on_panic_button] *)
Definition _on_panic_button : M Sys unit := _trigger_panic MainThread.

Definition happen (h : happening) : M Sys unit :=
  match h with
  | PanicButton => _on_panic_button
  | Signal => _signal_handler
  | CameraRuns probe ticks => in_thread (camera_worker probe ticks)
  | UsbRuns ticks => in_thread (usb_worker ticks)
  end.

(** [self.gui.mainloop()]: what happens while it runs, then its end. *)
Fixpoint mainloop (script : list happening) (ending : mainloop_end)
  : M Sys unit :=
  match script with
  | [] =>
      match ending with
      | WindowClosed => ret tt
      | MainloopRaises e => raise e
      end
  | h :: rest => happen h ;; mainloop rest ending
  end.

(** [self.vault = GhostProtocolVault()] *)
Definition create_vault : M Sys unit :=
  fun s =>
    match GhostProtocolVault.init (sys_rng s) with
    | Ok _ w =>
        Ok tt (set_sys_rng (GhostProtocolVault.rng w)
                           (set_vault (Some (GhostProtocolVault.self w)) s))
    | Exc e w => Exc e (set_sys_rng (GhostProtocolVault.rng w) s)
    | Halt c w => Halt c (set_sys_rng (GhostProtocolVault.rng w) s)
    end.

(** [self.gui = GhostProtocolGUI(...)]: the constructor builds the
    header, then the main content with its status panel, then the rest;
    [self.gui] is assigned when it returns. *)
Definition create_gui : M Sys unit :=
  fun s =>
    match StatusPanel.new with
    | Ok _ _ => Ok tt (set_gui (Some (mkGui false)) s)
    | Exc e _ => Exc e s
    | Halt c _ => Halt c s
    end.

(** The [try] statement around the main loop: [KeyboardInterrupt] is
    passed over; the [finally] clause fires the panic if nothing has. *)
Definition guarded_mainloop (script : list happening)
                            (ending : mainloop_end) : M Sys unit :=
  fun s =>
    let finally : M Sys unit :=
      fired <- gets _panic_triggered ;;
      if negb fired then _trigger_panic MainThread else ret tt in
    match mainloop script ending s with
    | Ok _ s' => finally s'
    | Exc KeyboardInterrupt s' => finally s'
    | Exc e s' => (finally ;; raise e) s'
    | Halt c s' => Halt c s'
    end.

(** [run]: [h] is the machine as the startup check finds it. *)
Definition run (h : Host) (script : list happening) (ending : mainloop_end)
  : M Sys Z :=
  present <- _check_usb_key h ;;
  if negb present then ret 1
  else
    create_vault ;;
    create_gui ;;
    _start_monitors ;;
    guarded_mainloop script ending ;;
    ret 0.

(** [sys.exit(code)]: the interpreter runs the [atexit] handlers, then
    ends the process with [code] unless a handler ended it first. *)
Definition sys_exit (code : Z) : M Sys Z :=
  fun s =>
    match _cleanup s with
    | Ok _ s' => Ok code s'
    | Exc _ s' => Ok code s'
    | Halt c s' => Halt c s'
    end.

(** The status of a process that dies of an uncaught exception. *)
Definition uncaught_status (e : exn) : Z :=
  match e with
  | KeyboardInterrupt => 130
  | _ => 1
  end.

(** [sys.exit(main())] *)
Definition main (bypass no_camera : bool) (r : Rng) (h : Host)
                (script : list happening) (ending : mainloop_end)
  : Res Sys Z :=
  match run h script ending (init bypass (negb no_camera) r) with
  | Ok code s => sys_exit code s
  | Exc e s => sys_exit (uncaught_status e) s
  | Halt c s => Halt c s
  end.

(** The exit status of the process, when it has ended. *)
Definition exit_status (r : Res Sys Z) : option Z :=
  match r with
  | Ok code _ => Some code
  | Halt code _ => Some code
  | Exc _ _ => None
  end.

End GhostProtocol.

(** ** Sample inputs *)

Module Samples.

(** An entropy source whose draws all succeed, and one whose sixth draw
    fails: the fifth of a wipe that follows [__init__]. *)
Definition steady : Rng :=
  mkRng (fun _ => DrawBytes (fun i => Z.of_nat i + 7)) 0.

Definition failing_late : Rng :=
  mkRng (fun n => if (n =? 5)%nat then DrawFails
                  else DrawBytes (fun i => Z.of_nat i + 7)) 0.

(** A vault as [__init__] leaves it. *)
Definition fresh_vault (r : Rng) : GhostProtocolVault.world :=
  final (GhostProtocolVault.init r).

(** A stand-in for the cipher: XOR with a fixed pad byte. *)
Definition xor_cipher (key nonce data : bytes) : bytes :=
  map (fun b => Z.lxor b 90) data.

(** U+D800, a lone surrogate. *)
Definition lone_surrogate : pystr := [0xD800].

(** "hé€" and an emoji: one code point of each encoded length. *)
Definition mixed_text : pystr := [0x68; 0xE9; 0x20AC; 0x1F600].

Definition no_fs_call : string -> bool := fun _ => false.

(** A Linux host with the token mounted, one without it, and one whose
    partition listing fails. *)
Definition host_with_token : Host :=
  mkHost "Linux"
         (IoOk [mkPartition "/" "/dev/sda1";
                mkPartition "/media/user/GHOST_KEY" "/dev/sdb1"])
         (fun _ => IoOk ""%string) no_fs_call no_fs_call (fun _ => IoOk []).

Definition host_without_token : Host :=
  mkHost "Linux" (IoOk [mkPartition "/" "/dev/sda1"])
         (fun _ => IoOk ""%string) no_fs_call no_fs_call (fun _ => IoOk []).

Definition host_failing : Host :=
  mkHost "Linux" (IoRaises OtherError)
         (fun _ => IoOk ""%string) no_fs_call no_fs_call (fun _ => IoOk []).

(** A Windows host whose drive E: carries the label. *)
Definition host_windows : Host :=
  mkHost "Windows" (IoOk [mkPartition "C:" "C:"; mkPartition "E:" "E:"])
         (fun root => if String.eqb root "E:\" then IoOk "GHOST_KEY"%string
                      else IoRaises OtherError)
         no_fs_call no_fs_call (fun _ => IoOk []).

(** A Linux host where [/media] cannot be read and the token is mounted
    under [/mnt]. *)
Definition host_unreadable_media : Host :=
  mkHost "Linux" (IoOk [mkPartition "/" "/dev/sda1"])
         (fun _ => IoOk ""%string)
         (fun p => String.eqb p "/media" || String.eqb p "/mnt")
         no_fs_call
         (fun p => if String.eqb p "/media" then IoRaises PermissionDenied
                   else IoOk ["GHOST_KEY"%string]).

(** A Linux host where [/media] is not a directory. *)
Definition host_broken_media : Host :=
  mkHost "Linux" (IoOk [mkPartition "/" "/dev/sda1"])
         (fun _ => IoOk ""%string)
         (fun p => String.eqb p "/media" || String.eqb p "/mnt")
         no_fs_call
         (fun p => if String.eqb p "/media" then IoRaises NotADirectory
                   else IoOk ["GHOST_KEY"%string]).

(** A tick with nothing done by other threads before it. *)
Definition quiet {X} (x : X) : tick X := mkTick [] x.

(** A window in place: the GUI object the callbacks talk to. *)
Definition with_window : M Sys unit :=
  modify (set_gui (Some (mkGui false))).

(** The application with a vault, a window and the monitors started,
    token present, camera enabled. *)
Definition booted : Sys :=
  final ((GhostProtocol.create_vault ;;
          with_window ;;
          GhostProtocol._start_monitors)
           (GhostProtocol.init false true steady)).

(** The same, started with [--bypass-usb]. *)
Definition booted_bypassed : Sys :=
  final ((GhostProtocol.create_vault ;;
          with_window ;;
          GhostProtocol._start_monitors)
           (GhostProtocol.init true true steady)).

(** A tick before which another thread called [set_bypass_mode]. *)
Definition after_bypass_call {X} (bypass : bool) (x : X) : tick X :=
  mkTick [ExtSetBypass bypass] x.

End Samples.

(** ** Vocabulary of the properties *)

(** The events a monitor produces itself: its callbacks' calls. *)
Definition is_monitor_event (e : event) : bool :=
  match e with
  | EvStatus _ _ | EvBlur _ | EvPanicCall _ => true
  | _ => false
  end.

Definition monitor_events (l : list event) : list event :=
  filter is_monitor_event l.

(** [s'] is [s] after more events, none of them a monitor's. *)
Definition quietly (s s' : Sys) : Prop :=
  exists l, trace s' = trace s ++ l /\ monitor_events l = [].

(** Every call of [m] takes a state to one related to it by [R], whatever
    the outcome. *)
Definition steps {St A : Type} (R : St -> St -> Prop) (m : M St A) : Prop :=
  forall s, R s (final (m s)).

(** The GUI exists and has not been torn down. *)
Definition gui_accepts (s : Sys) : bool :=
  match gui s with
  | Some o => negb (torn_down o)
  | None => false
  end.

(** ** What the workers read of the shared objects *)

Definition running_of (m : monitor_id) (s : Sys) : bool :=
  match get_base m s with
  | Some b => _running b
  | None => false
  end.

Definition usb_present_of (s : Sys) : bool :=
  match usb_guard s with
  | Some u => _usb_present u
  | None => false
  end.

Definition bypass_of (s : Sys) : bool :=
  match usb_guard s with
  | Some u => _bypass_mode u
  | None => false
  end.

(** A worker loop has been left: its run did not end for want of ticks. *)
Definition stopped (r : Res Sys loop_end) : Prop :=
  match r with
  | Ok Pending _ => False
  | _ => True
  end.

(** No other thread asks monitor [m] to stop before this tick. *)
Definition calm {X} (m : monitor_id) (tk : tick X) : Prop :=
  ~ In (ExtStop m) (before tk).

(** Other threads' calls leave the trace and the last seen token state
    alone, and never set a [_running] flag back to true. *)
Record meddled (s s' : Sys) : Prop := {
  meddled_trace : trace s' = trace s;
  meddled_gui : gui s' = gui s;
  meddled_present : usb_present_of s' = usb_present_of s;
  meddled_down : forall m, running_of m s = false -> running_of m s' = false
}.

(** A setter of the vault that leaves a property of the object, and the
    entropy source, alone. *)
Definition keeps (I : GhostProtocolVault.t -> Prop)
  (set_field : bytes -> M GhostProtocolVault.world unit) : Prop :=
  forall b w, I (GhostProtocolVault.self w) ->
    exists w', set_field b w = Ok tt w'
               /\ I (GhostProtocolVault.self w')
               /\ GhostProtocolVault.rng w' = GhostProtocolVault.rng w.

(** The next [n] draws of the entropy source all succeed. *)
Definition draws_succeed (r : Rng) (n : nat) : Prop :=
  forall i, (i < n)%nat -> entropy r (drawn r + i) <> DrawFails.

(** The entropy source after [n] more draws. *)
Definition advance (n : nat) (r : Rng) : Rng := mkRng (entropy r) (drawn r + n).

(** The number of draws a wipe makes when none fails: three for the key,
    three for the ciphertext if there is one, three for the IV. *)
Definition wipe_draws (v : GhostProtocolVault.t) : nat :=
  match GhostProtocolVault._encrypted_data v with
  | [] => 6
  | _ => 9
  end.

(** The guard's status events flip: the first reports the opposite of
    [present], and each next one the opposite of the one before. *)
Fixpoint alternates (present : bool) (l : list event) : Prop :=
  match l with
  | [] => True
  | e :: l' =>
      e = EvStatus "usb" (if present then "NO KEY" else "SECURE")
      /\ alternates (negb present) l'
  end.

(** The first sample of a run of the guard: its baseline. *)
Definition baseline (ticks : list (tick Host)) : option bool :=
  match ticks with
  | [] => None
  | tk :: _ => Some (USBGuard.check_ghost_key_present (sample tk))
  end.

(** Once the camera worker's [_running] flag is down, it stays down. *)
Definition stays_down (s s' : Sys) : Prop :=
  running_of Camera s = false -> running_of Camera s' = false.

(** [m] ends with the camera worker's [_running] flag down. *)
Definition ends_down {A} (m : M Sys A) : Prop :=
  forall s, running_of Camera (final (m s)) = false.

(** [m] always returns a value. *)
Definition returns {St A} (m : M St A) : Prop :=
  forall s, exists a s', m s = Ok a s'.

(** The only exception [m] lets out is [RuntimeError]. *)
Definition raises_only_runtime {St A} (m : M St A) : Prop :=
  forall s e s', m s = Exc e s' -> e = RuntimeError.

(** What follows the stopping of the camera in the panic sequence. *)
Definition after_camera_stop (me : tid) : M Sys unit :=
  u <- gets usb_guard ;;
  (match u with
   | Some _ => SecurityMonitorM.stop me Usb
   | None => ret tt
   end) ;;
  v <- gets vault ;;
  (match v with
   | Some o => log EvWipe ;; GhostProtocol.on_vault GhostProtocolVault.nuke_memory o
   | None => ret tt
   end) ;;
  g <- gets gui ;;
  (match g with
   | Some _ =>
       try_except
         (Gui.call GuiShowWipeAnimation ;; Gui.call GuiClearSecrets)
         (fun _ => ret tt)
   | None => ret tt
   end) ;;
  GhostProtocol.os_exit 0.


(** ** The presence classification *)

Inductive presence : Type := Absent | Present | Intrusion.

Definition classify (face_count : nat) : presence :=
  match face_count with
  | O => Absent
  | S O => Present
  | _ => Intrusion
  end.

(** The face count of the last classified sample, [last] when there is
    none: a failed read or a processing error classifies nothing. *)
Fixpoint previous (last : nat) (samples : list frame) : nat :=
  match samples with
  | [] => last
  | Faces n :: rest => previous n rest
  | _ :: rest => previous last rest
  end.

(** How the loop body ends on an intrusion: the loop is left, the
    process is ended, or the panic call raised and the worker's flag is
    down. *)
Definition intrusion_end (last : nat) (r : Res Sys CameraSentinel.body_end)
  : Prop :=
  match r with
  | Ok CameraSentinel.Break _ => True
  | Ok (CameraSentinel.Continue last') s' =>
      last' = last /\ running_of Camera s' = false
  | Halt _ _ => True
  | Exc _ _ => False
  end.


(** ** States that differ in the bypass flag only *)

(** The state with the guard's [_bypass_mode] forgotten. *)
Definition erase (s : Sys) : Sys :=
  set_usb_guard
    (option_map (fun u => mkUsb (usb_base u) (_usb_present u) false)
                (usb_guard s)) s.

(** Two outcomes of the same kind, with the same value, in states that
    differ in the bypass flag at most. *)
Definition res_equiv {A} (r1 r2 : Res Sys A) : Prop :=
  match r1, r2 with
  | Ok a s1, Ok b s2 => a = b /\ erase s1 = erase s2
  | Exc e s1, Exc e' s2 => e = e' /\ erase s1 = erase s2
  | Halt c s1, Halt c' s2 => c = c' /\ erase s1 = erase s2
  | _, _ => False
  end.

(** [m] does not read the bypass flag. *)
Definition blind {A} (m : M Sys A) : Prop :=
  forall s1 s2, erase s1 = erase s2 -> res_equiv (m s1) (m s2).

Definition is_set_bypass (a : ext_action) : bool :=
  match a with
  | ExtSetBypass _ => true
  | ExtStop _ => false
  end.

(** A tick without the [set_bypass_mode] calls that came before it. *)
Definition without_bypass_calls {X} (tk : tick X) : tick X :=
  mkTick (filter (fun a => negb (is_set_bypass a)) (before tk)) (sample tk).


(** ** Calls of the panic trigger *)

(** Who calls the panic trigger: a monitor's worker, the signal handler,
    the manual button, or the [atexit] handler. *)
Inductive panic_source : Type :=
| FromMonitor (m : monitor_id)
| FromSignal
| FromButton
| FromAtexit.

Definition trigger_from (src : panic_source) : M Sys unit :=
  match src with
  | FromMonitor m =>
      GhostProtocol.in_thread (GhostProtocol._trigger_panic (Worker m))
  | FromSignal => GhostProtocol._signal_handler
  | FromButton => GhostProtocol._on_panic_button
  | FromAtexit => GhostProtocol._cleanup
  end.

(** The calls of a list of sources, one after the other, for as long as
    the process lives. *)
Fixpoint fire (srcs : list panic_source) : M Sys unit :=
  match srcs with
  | [] => ret tt
  | src :: rest => trigger_from src ;; fire rest
  end.

(** Once the panic flag is set, it is set. *)
Definition flag_kept (s s' : Sys) : Prop :=
  _panic_triggered s = true -> _panic_triggered s' = true.

(** Monitor [m] has been started: its object holds its worker thread. *)
Definition started (m : monitor_id) (s : Sys) : Prop :=
  match get_base m s with
  | Some b => _thread b = Some (Worker m)
  | None => False
  end.

(** The thread a monitor object holds, if any, is that monitor's worker. *)
Definition threads_own (s : Sys) : Prop :=
  forall m b, get_base m s = Some b ->
              _thread b = None \/ _thread b = Some (Worker m).


(** ** Reading the token check *)

Definition is_windows (h : Host) : bool :=
  String.eqb (platform_system h) "Windows".

(** The volume mounted at [p] carries the label; a failed lookup counts
    as a different label. *)
Definition label_matches (h : Host) (p : partition) : bool :=
  match volume_label h (mountpoint p ++ "\")%string with
  | IoOk name => String.eqb name USBGuard.REQUIRED_USB_NAME
  | IoRaises _ => false
  end.

(** The mount path of [p] holds the name. *)
Definition mount_names_token (p : partition) : bool :=
  contains USBGuard.REQUIRED_USB_NAME (mountpoint p).

(** [/dev/disk/by-label/GHOST_KEY] exists. *)
Definition label_path_exists (h : Host) : bool :=
  path_exists h ("/dev/disk/by-label/" ++ USBGuard.REQUIRED_USB_NAME)%string.

Definition base_dirs : list string := ["/media"; "/mnt"; "/run/media"]%string.

(** An entry of a base directory that counts as the token: it is named
    GHOST_KEY, or holds a directory of that name. *)
Definition entry_is_token (h : Host) (base_dir user_dir : string) : bool :=
  (path_exists h (path_join3 base_dir user_dir USBGuard.REQUIRED_USB_NAME)
   && path_isdir h (path_join3 base_dir user_dir USBGuard.REQUIRED_USB_NAME))
  || String.eqb user_dir USBGuard.REQUIRED_USB_NAME.


(** ** Vocabulary of the further properties *)

Definition is_panic_call (e : event) : bool :=
  match e with
  | EvPanicCall _ => true
  | _ => false
  end.

(** The calls of the panic trigger among some events. *)
Definition panic_calls (l : list event) : list event :=
  filter is_panic_call l.

(** [stop] on monitor [m], called in thread [me], joins the calling
    thread: the monitor's object holds [me] as its thread. *)
Definition joins_self (m : monitor_id) (s : Sys) (me : tid) : bool :=
  match get_base m s with
  | Some b =>
      match _thread b with
      | Some t => tid_eqb t me
      | None => false
      end
  | None => false
  end.

(** A sample the camera loop skips: a failed read, or a processing error
    that its [except Exception] catches. *)
Definition transient (f : frame) : bool :=
  match f with
  | ReadFails => true
  | ProcessingRaises e => is_Exception e
  | Faces _ => false
  end.

(** What the camera worker reports when it cannot use the camera. *)
Definition degraded_report (probe : camera_probe) : list event :=
  match probe with
  | CascadeEmpty => []
  | CameraUnavailable => [EvStatus "camera" "NO CAMERA"]
  | ProbeRaises _ => [EvStatus "camera" "ERROR"]
  | CameraOpened => [EvStatus "camera" "ARMED"]
  end.

(** The camera cannot be used, in a way the worker survives. *)
Definition degraded (probe : camera_probe) : bool :=
  match probe with
  | CascadeEmpty | CameraUnavailable => true
  | ProbeRaises e => is_Exception e
  | CameraOpened => false
  end.

(** Among the events [l] of a worker's run the panic trigger is called at
    most once, and then as the last thing the monitor does. *)
Definition panics_last (me : tid) (l : list event) : Prop :=
  panic_calls l = []
  \/ exists l0, monitor_events l = l0 ++ [EvPanicCall me] /\ panic_calls l0 = [].

(** The token is seen at this tick. *)
Definition token_seen (tk : tick Host) : Prop :=
  USBGuard.check_ghost_key_present (sample tk) = true.

(** The vault, if there is one, has been wiped. *)
Definition vault_wiped (s : Sys) : Prop :=
  match vault s with
  | Some v => GhostProtocolVault._nuked v = true
  | None => True
  end.

(** What a source leaves in the log once the panic flag is set: its
    call of the trigger, and for the exit handler, which checks the flag
    itself, nothing. *)
Definition ignored_call (src : panic_source) : list event :=
  match src with
  | FromMonitor m => [EvPanicCall (Worker m)]
  | FromSignal | FromButton => [EvPanicCall MainThread]
  | FromAtexit => []
  end.

(** The thread objects the two monitors hold. *)
Definition threads_of (s : Sys) : option (option tid) * option (option tid) :=
  (option_map _thread (get_base Camera s), option_map _thread (get_base Usb s)).

(** [m] leaves the monitors' thread objects alone, and ends the process,
    if it does, with status 0. *)
Definition orderly {A} (m : M Sys A) : Prop :=
  forall s,
    threads_of (final (m s)) = threads_of s
    /\ forall c s', m s = Halt c s' -> c = 0.

(** Neither monitor holds the main thread as its worker. *)
Definition main_free (s : Sys) : Prop :=
  joins_self Camera s MainThread = false /\ joins_self Usb s MainThread = false.

(** The capture device, if the sentinel has one, is not held open. *)
Definition cap_released (s : Sys) : bool :=
  match camera_sentinel s with
  | Some o =>
      match cap o with
      | Some opened => negb opened
      | None => true
      end
  | None => true
  end.

(** With the panic flag set, [m] keeps the flag and the vault, and does
    not end the process. *)
Definition spent {A} (m : M Sys A) : Prop :=
  forall s, _panic_triggered s = true ->
    _panic_triggered (final (m s)) = true
    /\ vault (final (m s)) = vault s
    /\ forall c s', m s <> Halt c s'.


(** ** The end of a run *)

(** What [run] does once the monitors are started: the guarded main loop,
    then [return 0]. *)
Definition after_startup (script : list happening) (ending : mainloop_end)
  : M Sys Z :=
  GhostProtocol.guarded_mainloop script ending ;; ret 0.

(** [sys.exit(...)] on what [run] came to: its return value, or the
    exception it let out. *)
Definition process_end (r : Res Sys Z) : Res Sys Z :=
  match r with
  | Ok code s => GhostProtocol.sys_exit code s
  | Exc e s => GhostProtocol.sys_exit (GhostProtocol.uncaught_status e) s
  | Halt c s => Halt c s
  end.

Definition is_worker_panic (e : event) : bool :=
  match e with
  | EvPanicCall (Worker _) => true
  | _ => false
  end.

(** Between [s] and [s'] a monitor's worker has called the panic
    trigger. *)
Definition worker_fired (s s' : Sys) : Prop :=
  exists l, trace s' = trace s ++ l /\ existsb is_worker_panic l = true.

(** [s'] is [s] with more events. *)
Definition grows (s s' : Sys) : Prop :=
  exists l, trace s' = trace s ++ l.

(** In every call of [m], a worker calls the panic trigger, or the panic
    flag is left as it was and the process goes on. *)
Definition tame {A} (m : M Sys A) : Prop :=
  forall s,
    grows s (final (m s))
    /\ (worker_fired s (final (m s))
        \/ (_panic_triggered (final (m s)) = _panic_triggered s
            /\ forall c s', m s <> Halt c s')).


(** ** What an unarmed guard reports *)

(** What the checks of some ticks find. *)
Definition readings (ticks : list (tick Host)) : list bool :=
  map (fun tk => USBGuard.check_ghost_key_present (sample tk)) ticks.

(** The status updates a sequence of readings calls for, [seen] being the
    reading before them: one for each reading that differs from the one
    before it, "SECURE" for a token found, "NO KEY" for a token missed. *)
Fixpoint toggles (seen : bool) (found : list bool) : list event :=
  match found with
  | [] => []
  | current :: rest =>
      (if Bool.eqb current seen then []
       else [EvStatus "usb" (if current then "SECURE" else "NO KEY")])
        ++ toggles current rest
  end.


(** ** Stand-ins for a cipher that depends on its nonce *)

(** An entropy source whose draws all differ. *)
Definition varying : Rng :=
  mkRng (fun n => DrawBytes (fun i => Z.of_nat (i + n) + 7)) 0.

(** XOR with the first byte of the nonce. *)
Definition nonce_xor (key nonce data : bytes) : bytes :=
  map (fun b => Z.lxor b (hd 0 nonce)) data.


(** * Properties *)

Unset Implicit Arguments.

(** ** UTF-8 round trip *)

Ltac zbool :=
  repeat match goal with
         | |- context [Z.leb ?a ?b] =>
             first [ rewrite (proj2 (Z.leb_le a b)) by lia
                   | rewrite (proj2 (Z.leb_gt a b)) by lia ]
         | |- context [Z.ltb ?a ?b] =>
             first [ rewrite (proj2 (Z.ltb_lt a b)) by lia
                   | rewrite (proj2 (Z.ltb_ge a b)) by lia ]
         end.

(** A code point as base-64 digits. *)
Lemma digits64 (c : Z) :
  0 <= c ->
  exists q r, c / 64 = q /\ c mod 64 = r /\ c = 64 * q + r /\
              0 <= r < 64 /\ 0 <= q.
Proof.
  intros Hc. exists (c / 64), (c mod 64).
  pose proof (Z.div_mod c 64 ltac:(lia)).
  pose proof (Z.mod_pos_bound c 64 ltac:(lia)).
  pose proof (Z.div_pos c 64 Hc ltac:(lia)).
  repeat split; try lia.
Qed.

Lemma decode_1 (b0 : Z) (rest : bytes) :
  0 <= b0 < 0x80 ->
  utf8_decode (b0 :: rest) = option_map (cons b0) (utf8_decode rest).
Proof. intros H. cbn [utf8_decode]. zbool. reflexivity. Qed.

Lemma decode_2 (q r : Z) (rest : bytes) :
  2 <= q < 32 -> 0 <= r < 64 ->
  utf8_decode (0xC0 + q :: 0x80 + r :: rest)
  = option_map (cons (64 * q + r)) (utf8_decode rest).
Proof.
  intros Hq Hr. cbn [utf8_decode]. unfold is_cont. zbool. cbn [andb].
  replace ((0xC0 + q - 0xC0) * 64 + (0x80 + r - 0x80)) with (64 * q + r) by lia.
  reflexivity.
Qed.

Lemma decode_3 (q2 q1 r : Z) (rest : bytes) :
  0 <= q2 < 16 -> 0 <= q1 < 64 -> 0 <= r < 64 ->
  0x800 <= 4096 * q2 + 64 * q1 + r ->
  is_surrogate (4096 * q2 + 64 * q1 + r) = false ->
  utf8_decode (0xE0 + q2 :: 0x80 + q1 :: 0x80 + r :: rest)
  = option_map (cons (4096 * q2 + 64 * q1 + r)) (utf8_decode rest).
Proof.
  intros H2 H1 Hr Hlo Hs. cbn [utf8_decode]. cbv zeta.
  replace ((0xE0 + q2 - 0xE0) * 4096 + (0x80 + q1 - 0x80) * 64 + (0x80 + r - 0x80))
    with (4096 * q2 + 64 * q1 + r) by lia.
  rewrite Hs. unfold is_cont. zbool. reflexivity.
Qed.

Lemma decode_4 (q3 q2 q1 r : Z) (rest : bytes) :
  0 <= q3 < 5 -> 0 <= q2 < 64 -> 0 <= q1 < 64 -> 0 <= r < 64 ->
  0x10000 <= 262144 * q3 + 4096 * q2 + 64 * q1 + r < 0x110000 ->
  utf8_decode (0xF0 + q3 :: 0x80 + q2 :: 0x80 + q1 :: 0x80 + r :: rest)
  = option_map (cons (262144 * q3 + 4096 * q2 + 64 * q1 + r)) (utf8_decode rest).
Proof.
  intros H3 H2 H1 Hr Hc. cbn [utf8_decode]. cbv zeta.
  replace ((0xF0 + q3 - 0xF0) * 262144 + (0x80 + q2 - 0x80) * 4096
           + (0x80 + q1 - 0x80) * 64 + (0x80 + r - 0x80))
    with (262144 * q3 + 4096 * q2 + 64 * q1 + r) by lia.
  unfold is_cont. zbool. reflexivity.
Qed.

Lemma encode_cp_decode (c : Z) (b rest : bytes) :
  encode_cp c = Some b ->
  utf8_decode (b ++ rest) = option_map (cons c) (utf8_decode rest).
Proof.
  unfold encode_cp.
  destruct (Z.ltb_spec c 0); [discriminate|].
  destruct (digits64 c H) as (q & r & Eq & Er & Ec & Hr & Hq).
  destruct (digits64 q Hq) as (q2 & r1 & Eq2 & Er1 & Ec1 & Hr1 & Hq2).
  destruct (digits64 q2 Hq2) as (q3 & r2 & Eq3 & Er2 & Ec2 & Hr2 & Hq3).
  assert (E4096 : c / 4096 = q2).
  { change 4096 with (64 * 64). rewrite <- Z.div_div by lia. congruence. }
  assert (E262144 : c / 262144 = q3).
  { change 262144 with (64 * 64 * 64). rewrite <- !Z.div_div by lia. congruence. }
  rewrite E4096, E262144, Eq, Er, Er1.
  destruct (Z.ltb_spec c 0x80).
  { intros [= <-]. apply decode_1. lia. }
  destruct (Z.ltb_spec c 0x800).
  { intros [= <-]. cbn [app]. rewrite Ec. apply decode_2; lia. }
  destruct (Z.ltb_spec c 0x10000).
  { destruct (is_surrogate c) eqn:Hs; [discriminate|].
    intros [= <-]. cbn [app].
    assert (Ec' : c = 4096 * q2 + 64 * r1 + r) by lia.
    rewrite Ec' in Hs |- *. apply decode_3; try assumption; lia. }
  destruct (Z.ltb_spec c 0x110000); [|discriminate].
  intros [= <-]. cbn [app]. rewrite Er2.
  assert (Ec' : c = 262144 * q3 + 4096 * r2 + 64 * r1 + r) by lia.
  rewrite Ec'. apply decode_4; lia.
Qed.

Lemma utf8_roundtrip (p : pystr) (b : bytes) :
  utf8_encode p = Some b -> utf8_decode b = Some p.
Proof.
  revert b. induction p as [|c p IH]; intros b; cbn [utf8_encode].
  - intros [= <-]. reflexivity.
  - destruct (encode_cp c) as [bc|] eqn:Hc; [|discriminate].
    destruct (utf8_encode p) as [bs|]; [|discriminate].
    intros [= <-]. rewrite (encode_cp_decode c bc bs Hc), (IH _ eq_refl). reflexivity.
Qed.

(** ** The monad's equations *)

Section MonadFacts.
Context {St A B : Type}.

Lemma bind_ret (a : A) (k : A -> M St B) (s : St) :
  bind (ret a) k s = k a s.
Proof. reflexivity. Qed.

Lemma bind_gets (f : St -> A) (k : A -> M St B) (s : St) :
  bind (gets f) k s = k (f s) s.
Proof. reflexivity. Qed.

Lemma bind_modify (f : St -> St) (k : unit -> M St B) (s : St) :
  bind (modify f) k s = k tt (f s).
Proof. reflexivity. Qed.

Lemma bind_ok (m : M St A) (k : A -> M St B) (s s' : St) (a : A) :
  m s = Ok a s' -> bind m k s = k a s'.
Proof. unfold bind. intros ->. reflexivity. Qed.

Lemma bind_exc (m : M St A) (k : A -> M St B) (s s' : St) (e : exn) :
  m s = Exc e s' -> bind m k s = Exc e s'.
Proof. unfold bind. intros ->. reflexivity. Qed.

Lemma bind_halt (m : M St A) (k : A -> M St B) (s s' : St) (c : Z) :
  m s = Halt c s' -> bind m k s = Halt c s'.
Proof. unfold bind. intros ->. reflexivity. Qed.

Lemma bind_raise (e : exn) (k : A -> M St B) (s : St) :
  bind (raise e) k s = Exc e s.
Proof. reflexivity. Qed.
End MonadFacts.

Lemma bind_assoc {St A B C} (m : M St A) (k : A -> M St B) (h : B -> M St C)
  (s : St) :
  bind (bind m k) h s = bind m (fun a => bind (k a) h) s.
Proof. unfold bind. destruct (m s); reflexivity. Qed.

(** ** The vault *)

Module VaultFacts.
Import GhostProtocolVault.

Lemma draws_succeed_app (r : Rng) (n m : nat) :
  draws_succeed r n -> draws_succeed (advance n r) m ->
  draws_succeed r (n + m).
Proof.
  intros H1 H2 i Hi. destruct (Nat.lt_ge_cases i n) as [Hlt|Hge].
  - apply H1, Hlt.
  - specialize (H2 (i - n)%nat ltac:(lia)). cbn in H2.
    replace (drawn r + n + (i - n))%nat with (drawn r + i)%nat in H2 by lia.
    exact H2.
Qed.

(** The overwrite passes end well, having made their draws, or the
    first failing draw raises [OSError]. *)
Lemma overwrite_passes (I : t -> Prop) (set_field : bytes -> M world unit)
  (n passes : nat) (w : world) :
  keeps I set_field -> I (self w) ->
  (exists w', repeat_m passes (b <- os_urandom n ;; set_field b) w = Ok tt w'
              /\ I (self w') /\ rng w' = advance passes (rng w)
              /\ draws_succeed (rng w) passes)
  \/ (exists w', repeat_m passes (b <- os_urandom n ;; set_field b) w
                 = Exc OSError w'
                 /\ ~ draws_succeed (rng w) passes).
Proof.
  intros Hk. revert w.
  induction passes as [|passes IH]; intros w HI; cbn [repeat_m].
  - left. exists w. split; [reflexivity|]. split; [assumption|]. split.
    + destruct w as [o [ent d]]. unfold advance. cbn. rewrite Nat.add_0_r.
      reflexivity.
    + intros i Hi. lia.
  - destruct (entropy (rng w) (drawn (rng w))) as [gen|] eqn:Hd.
    + assert (Hu : os_urandom n w
                   = Ok (draw_bytes gen n)
                        (mkWorld (self w)
                                 (mkRng (entropy (rng w)) (S (drawn (rng w))))))
        by (unfold os_urandom, urandom; rewrite Hd; reflexivity).
      destruct (Hk (draw_bytes gen n)
                  (mkWorld (self w)
                           (mkRng (entropy (rng w)) (S (drawn (rng w)))))
                  HI) as (w1 & E1 & I1 & R1).
      rewrite (bind_ok _ _ _ _ _ (eq_trans (bind_ok _ _ _ _ _ Hu) E1)).
      destruct (IH w1 I1) as [(w' & E & HI' & HR & HD) | (w' & E & HD)].
      * left. exists w'. split; [exact E|]. split; [exact HI'|].
        rewrite R1 in HR, HD. cbn [rng] in HR, HD. split.
        -- rewrite HR. unfold advance. cbn. f_equal. lia.
        -- intros i Hi. destruct i as [|i].
           ++ rewrite Nat.add_0_r, Hd. discriminate.
           ++ specialize (HD i ltac:(lia)). cbn in HD.
              replace (drawn (rng w) + S i)%nat with (S (drawn (rng w) + i))
                by lia.
              exact HD.
      * right. exists w'. split; [exact E|]. intros Hall. apply HD.
        rewrite R1. cbn [rng]. intros i Hi. cbn.
        specialize (Hall (S i) ltac:(lia)).
        replace (drawn (rng w) + S i)%nat with (S (drawn (rng w) + i))
          in Hall by lia.
        exact Hall.
    + assert (Hu : os_urandom n w
                   = Exc OSError
                         (mkWorld (self w)
                                  (mkRng (entropy (rng w)) (S (drawn (rng w))))))
        by (unfold os_urandom, urandom; rewrite Hd; reflexivity).
      right. eexists. split; [apply bind_exc, bind_exc, Hu|].
      intros Hall. apply (Hall 0%nat ltac:(lia)).
      rewrite Nat.add_0_r. exact Hd.
Qed.

Lemma overwrite_cases (I : t -> Prop) (set_field : bytes -> M world unit)
  (n : nat) (w : world) :
  keeps I set_field -> I (self w) ->
  (exists w', overwrite set_field n w = Ok tt w'
              /\ I (self w') /\ rng w' = advance 3 (rng w)
              /\ draws_succeed (rng w) 3)
  \/ (exists w', overwrite set_field n w = Exc OSError w'
                 /\ ~ draws_succeed (rng w) 3).
Proof. apply overwrite_passes. Qed.

Lemma draws_succeed_le (r : Rng) (n m : nat) :
  (n <= m)%nat -> draws_succeed r m -> draws_succeed r n.
Proof. intros Hle H i Hi. apply H. lia. Qed.

Lemma draws_succeed_advance (r : Rng) (n m : nat) :
  draws_succeed r (n + m) -> draws_succeed (advance n r) m.
Proof.
  intros H i Hi. cbn. rewrite <- Nat.add_assoc. apply H. lia.
Qed.

(** The [try] block ends with the zeroed key and the two empty fields,
    every draw of the wipe having succeeded, or raises [OSError]. *)
Lemma nuke_body_cases (w : world) :
  _nuked (self w) = false ->
  match nuke_body w with
  | Ok _ w' => self w' = mk (zeros (len_or (_key (self w)) 32)) [] [] true
               /\ draws_succeed (rng w) (wipe_draws (self w))
  | Exc e _ => e = OSError
               /\ ~ draws_succeed (rng w) (wipe_draws (self w))
  | Halt _ _ => False
  end.
Proof.
  assert (Hge : (3 <= wipe_draws (self w))%nat)
    by (unfold wipe_draws; destruct (_encrypted_data (self w)); lia).
  assert (Hsplit : wipe_draws (self w)
                   = (3 + ((wipe_draws (self w) - 6) + 3))%nat)
    by (unfold wipe_draws; destruct (_encrypted_data (self w)); reflexivity).
  intros Hn. unfold nuke_body. rewrite bind_gets.
  set (key_len := len_or (_key (self w)) 32).
  destruct (overwrite_cases
              (fun o => _encrypted_data o = _encrypted_data (self w)
                        /\ _iv o = _iv (self w) /\ _nuked o = false)
              set_key key_len w)
    as [(w1 & E1 & (Hd1 & Hi1 & Hn1) & R1 & D1) | (w1 & E1 & D1)].
  { intros b w0 H. eexists. split; [reflexivity|]. split; [exact H | reflexivity]. }
  { auto. }
  2: { rewrite (bind_exc _ _ _ _ _ E1). split; [reflexivity|].
       intros Hall. apply D1. eapply draws_succeed_le; [exact Hge | exact Hall]. }
  rewrite (bind_ok _ _ _ _ _ E1). unfold set_key at 1. rewrite bind_modify, bind_gets.
  cbn [self _encrypted_data _iv _nuked _key rng].
  set (w2 := mkWorld _ (rng w1)).
  set (data_pass := if (0 <? _)%nat then _ else _).
  assert (Hpass : (exists w3, data_pass w2 = Ok tt w3
                     /\ _key (self w3) = zeros key_len /\ _iv (self w3) = _iv (self w)
                     /\ _nuked (self w3) = false
                     /\ rng w3 = advance (wipe_draws (self w) - 6) (rng w2)
                     /\ draws_succeed (rng w2) (wipe_draws (self w) - 6))
                  \/ (exists w3, data_pass w2 = Exc OSError w3
                                 /\ ~ draws_succeed (rng w2)
                                                    (wipe_draws (self w) - 6))).
  { subst data_pass. unfold wipe_draws. rewrite Hd1.
    destruct (_encrypted_data (self w)) as [|d0 data] eqn:Hdata;
      cbn [len_or Nat.ltb Nat.leb List.length Nat.sub].
    - left. exists w2. subst w2. cbn. repeat split; auto.
      + unfold advance. destruct (rng w1). cbn. rewrite Nat.add_0_r. reflexivity.
      + intros i Hi. lia.
    - destruct (overwrite_cases
                  (fun o => _key o = zeros key_len /\ _iv o = _iv (self w)
                            /\ _nuked o = false)
                  set_encrypted_data (S (List.length data)) w2)
        as [(w3 & E3 & H3 & R3 & D3) | (w3 & E3 & D3)].
      + intros b w0 H. eexists. split; [reflexivity|].
        split; [exact H | reflexivity].
      + subst w2. cbn. auto.
      + left. exists w3. intuition.
      + right. exists w3. auto. }
  assert (Rw2 : rng w2 = advance 3 (rng w)) by (subst w2; exact R1).
  rewrite Rw2 in Hpass.
  destruct Hpass as [(w3 & E3 & Hk3 & Hi3 & Hn3 & R3 & D3) | (w3 & E3 & D3)].
  2: { rewrite (bind_exc _ _ _ _ _ E3). split; [reflexivity|].
       intros Hall. apply D3. rewrite Hsplit in Hall.
       apply draws_succeed_advance in Hall.
       eapply draws_succeed_le; [|exact Hall]. lia. }
  rewrite (bind_ok _ _ _ _ _ E3). unfold set_encrypted_data at 1.
  rewrite bind_modify, bind_gets. cbn [self _encrypted_data _iv _nuked _key rng].
  set (w4 := mkWorld _ (rng w3)).
  destruct (overwrite_cases
              (fun o => _key o = zeros key_len /\ _encrypted_data o = []
                        /\ _nuked o = false)
              set_iv (len_or (_iv (self w3)) 16) w4)
    as [(w5 & E5 & (Hk5 & Hd5 & Hn5) & R5 & D5) | (w5 & E5 & D5)].
  { intros b w0 H. eexists. split; [reflexivity|].
    split; [exact H | reflexivity]. }
  { subst w4. cbn. auto. }
  all: assert (Rw4 : rng w4 = advance (wipe_draws (self w) - 6)
                                      (advance 3 (rng w)))
         by (subst w4; exact R3);
       rewrite Rw4 in D5.
  2: { rewrite (bind_exc _ _ _ _ _ E5). split; [reflexivity|].
       intros Hall. apply D5. rewrite Hsplit in Hall.
       apply draws_succeed_advance, draws_succeed_advance in Hall.
       exact Hall. }
  rewrite (bind_ok _ _ _ _ _ E5).
  unfold set_iv, set_nuked. rewrite bind_modify. unfold modify.
  cbn [self _encrypted_data _iv _nuked _key rng]. rewrite Hk5, Hd5.
  split; [reflexivity|].
  rewrite Hsplit. apply draws_succeed_app; [exact D1|].
  apply draws_succeed_app; [exact D3 | exact D5].
Qed.

(** [nuke_memory] always returns, with the vault marked nuked and the
    ciphertext and the IV empty; the key is empty when a pass failed and
    zero-filled at its old length otherwise. *)
Lemma nuke_memory_cases (w : world) :
  _nuked (self w) = false ->
  exists w', nuke_memory w = Ok tt w' /\
    match nuke_body w with
    | Ok _ _ => self w' = mk (zeros (len_or (_key (self w)) 32)) [] [] true
    | _ => self w' = mk [] [] [] true
    end.
Proof.
  intros Hn. pose proof (nuke_body_cases w Hn) as Hb.
  unfold nuke_memory. rewrite bind_gets, Hn. unfold try_except.
  destruct (nuke_body w) as [[] w1 | e w1 | c w1].
  - exists w1. destruct Hb as [Hb _]. auto.
  - destruct Hb as [-> _]. cbn. eexists. split; reflexivity.
  - contradiction.
Qed.

(** A wipe whose draws all succeed leaves the key zero-filled at its
    old length (32 when it was empty): never empty. *)
Lemma clean_wipe_keeps_key_length (w : world) :
  _nuked (self w) = false ->
  draws_succeed (rng w) (wipe_draws (self w)) ->
  exists w', nuke_memory w = Ok tt w'
             /\ self w' = mk (zeros (len_or (_key (self w)) 32)) [] [] true
             /\ _key (self w') <> [].
Proof.
  intros Hn Hd. pose proof (nuke_body_cases w Hn) as Hb.
  destruct (nuke_memory_cases w Hn) as (w' & E & Hs).
  exists w'. split; [exact E|].
  destruct (nuke_body w) as [[] w1 | e w1 | c w1].
  - split; [exact Hs|]. rewrite Hs. cbn [_key].
    destruct (_key (self w)); cbn; discriminate.
  - destruct Hb as [_ Hb]. contradiction.
  - contradiction.
Qed.

(** A failing draw among those the wipe makes sends it to its
    [except] branch. *)
Lemma failed_draw_raises (w : world) (i : nat) :
  _nuked (self w) = false ->
  (i < wipe_draws (self w))%nat ->
  entropy (rng w) (drawn (rng w) + i) = DrawFails ->
  exists w1, nuke_body w = Exc OSError w1.
Proof.
  intros Hn Hi Hf. pose proof (nuke_body_cases w Hn) as Hb.
  destruct (nuke_body w) as [[] w1 | e w1 | c w1].
  - destruct Hb as [_ Hd]. exfalso. exact (Hd i Hi Hf).
  - destruct Hb as [-> _]. eauto.
  - contradiction.
Qed.

Lemma nuke_memory_nuked (w : world) :
  _nuked (self w) = true -> nuke_memory w = Ok tt w.
Proof. intros Hn. unfold nuke_memory. rewrite bind_gets, Hn. reflexivity. Qed.

End VaultFacts.

Module VaultClaims.
Import GhostProtocolVault VaultFacts.

(** C6. If an overwrite pass inside the wipe raises, [nuke_memory] still
    returns normally, with the key, the ciphertext and the IV empty and
    the vault marked nuked. *)
Theorem wipe_survives_failed_pass (w : world) (i : nat) :
  _nuked (self w) = false ->
  (i < wipe_draws (self w))%nat ->
  entropy (rng w) (drawn (rng w) + i) = DrawFails ->
  exists w', nuke_memory w = Ok tt w' /\ self w' = mk [] [] [] true.
Proof.
  intros Hn Hi Hf. destruct (failed_draw_raises w i Hn Hi Hf) as (w1 & Hb).
  destruct (nuke_memory_cases w Hn) as (w' & E & Hs).
  rewrite Hb in Hs. exists w'. auto.
Qed.

Lemma wipe_survives_failed_pass_witness :
  exists w', nuke_memory (Samples.fresh_vault Samples.failing_late) = Ok tt w'
             /\ self w' = mk [] [] [] true.
Proof.
  apply (wipe_survives_failed_pass
           (Samples.fresh_vault Samples.failing_late) 4).
  - reflexivity.
  - vm_compute. lia.
  - reflexivity.
Defined.

(** C2. On a fresh vault whose wipe meets no error, [nuke_memory] leaves
    the key as 32 zero bytes: zeroed, but not collapsed to empty. *)
Theorem nuke_leaves_zero_filled_key :
  exists w',
    nuke_memory (Samples.fresh_vault Samples.steady) = Ok tt w'
    /\ self w' = mk (zeros 32) [] [] true
    /\ _key (self w') <> [].
Proof.
  eexists. split; [vm_compute; reflexivity|]. split; [reflexivity|].
  discriminate.
Qed.
End VaultClaims.

Module VaultRoundTrip.
Import GhostProtocolVault VaultFacts.

(** The supporting halves of the wipe contract: a second wipe changes
    nothing, and nothing is decrypted after a wipe. *)
Lemma nuke_memory_twice (w : world) :
  exists w', nuke_memory w = Ok tt w' /\ nuke_memory w' = Ok tt w'.
Proof.
  destruct (_nuked (self w)) eqn:Hn.
  - exists w. rewrite (nuke_memory_nuked w Hn). auto.
  - destruct (nuke_memory_cases w Hn) as (w' & E & Hs).
    exists w'. split; [exact E|]. apply nuke_memory_nuked.
    destruct (nuke_body w); rewrite Hs; reflexivity.
Qed.

Lemma decrypt_after_nuke (dec : bytes -> bytes -> bytes -> bytes) (w : world) :
  exists w', nuke_memory w = Ok tt w' /\ decrypt dec w' = Ok [] w'.
Proof.
  assert (Hd : forall w0, _nuked (self w0) = true -> decrypt dec w0 = Ok [] w0).
  { intros w0 H. unfold decrypt. rewrite !bind_gets, H. reflexivity. }
  destruct (_nuked (self w)) eqn:Hn.
  - exists w. rewrite (nuke_memory_nuked w Hn). auto.
  - destruct (nuke_memory_cases w Hn) as (w' & E & Hs).
    exists w'. split; [exact E|]. apply Hd.
    destruct (nuke_body w); rewrite Hs; reflexivity.
Qed.

Lemma utf8_encode_nil (p : pystr) : utf8_encode p = Some [] -> p = [].
Proof.
  destruct p as [|c p]; [reflexivity|]. cbn [utf8_encode].
  destruct (encode_cp c) as [b|] eqn:Hc; [|discriminate].
  destruct (utf8_encode p) as [bs|]; [|discriminate].
  intros [= H]. apply app_eq_nil in H. destruct H as [-> _].
  unfold encode_cp in Hc.
  repeat match type of Hc with
         | (if ?t then _ else _) = _ => destruct t
         end; discriminate.
Qed.

Lemma draw_bytes_length (gen : nat -> Z) (n : nat) :
  List.length (draw_bytes gen n) = n.
Proof. unfold draw_bytes. rewrite length_map, length_seq. reflexivity. Qed.

Section WithCipher.
Variable gcm_encrypt gcm_decrypt : bytes -> bytes -> bytes -> bytes.
Hypothesis gcm_inverse :
  forall key nonce m, gcm_decrypt key nonce (gcm_encrypt key nonce m) = m.
Hypothesis gcm_length :
  forall key nonce m,
    List.length (gcm_encrypt key nonce m) = List.length m.

(** What [encrypt] leaves when nothing fails inside it. *)
Lemma encrypt_stores (p : pystr) (b : bytes) (w : world) (gen : nat -> Z) :
  _nuked (self w) = false ->
  valid_key_len (_key (self w)) = true ->
  utf8_encode p = Some b ->
  entropy (rng w) (drawn (rng w)) = DrawBytes gen ->
  encrypt gcm_encrypt p w
  = Ok tt (mkWorld
             (mk (_key (self w))
                 (gcm_encrypt (_key (self w)) (draw_bytes gen 16) b)
                 (draw_bytes gen 16) false)
             (mkRng (entropy (rng w)) (S (drawn (rng w))))).
Proof.
  intros Hn Hk Hp Hd. unfold encrypt. rewrite bind_gets, Hn.
  unfold try_except, os_urandom, urandom, bind at 1. rewrite Hd.
  unfold set_iv at 1. rewrite bind_modify, bind_gets.
  cbn [self _key _iv _encrypted_data _nuked rng].
  unfold AES_new. rewrite Hk, draw_bytes_length. cbn [Nat.eqb negb andb].
  rewrite bind_ret. unfold str_encode. rewrite Hp, bind_ret.
  unfold set_encrypted_data, modify.
  cbn [self _key _iv _encrypted_data _nuked rng]. rewrite Hn. reflexivity.
Qed.

Lemma roundtrip_when_stored (p : pystr) (b : bytes) (w : world)
  (gen : nat -> Z) :
  _nuked (self w) = false ->
  valid_key_len (_key (self w)) = true ->
  utf8_encode p = Some b ->
  entropy (rng w) (drawn (rng w)) = DrawBytes gen ->
  exists w', (encrypt gcm_encrypt p ;; decrypt gcm_decrypt) w = Ok p w'.
Proof.
  intros Hn Hk Hp Hd.
  rewrite (bind_ok _ _ _ _ _ (encrypt_stores p b w gen Hn Hk Hp Hd)).
  unfold decrypt. rewrite !bind_gets.
  cbn [self _key _iv _encrypted_data _nuked rng].
  destruct (gcm_encrypt _ _ b) as [|c0 ct] eqn:Hct.
  - pose proof (gcm_length (_key (self w)) (draw_bytes gen 16) b) as Hl.
    rewrite Hct in Hl. destruct b; [|discriminate].
    rewrite (utf8_encode_nil p Hp). eexists. reflexivity.
  - unfold try_except. rewrite !bind_gets.
    cbn [self _key _iv _encrypted_data _nuked rng].
    unfold AES_new. rewrite Hk, draw_bytes_length. cbn [Nat.eqb negb andb].
    rewrite bind_ret, <- Hct, gcm_inverse. unfold bytes_decode.
    rewrite (utf8_roundtrip p b Hp). eexists. reflexivity.
Qed.

(** Every error [encrypt] can meet (a key of no valid size, a
    plaintext that does not encode, a failed nonce draw) is swallowed,
    and the stored ciphertext is left as it was. *)
Lemma encrypt_error_stores_nothing (p : pystr) (w : world) :
  _nuked (self w) = false ->
  valid_key_len (_key (self w)) = false
  \/ utf8_encode p = None
  \/ entropy (rng w) (drawn (rng w)) = DrawFails ->
  exists w',
    encrypt gcm_encrypt p w = Ok tt w'
    /\ _encrypted_data (self w') = _encrypted_data (self w).
Proof.
  intros Hn H. unfold encrypt. rewrite bind_gets, Hn.
  unfold try_except, os_urandom, urandom, bind at 1.
  destruct (entropy (rng w) (drawn (rng w))) as [gen|] eqn:Hd.
  - unfold set_iv at 1. rewrite bind_modify, bind_gets.
    cbn [self _key _iv _encrypted_data _nuked rng].
    unfold AES_new.
    destruct (valid_key_len (_key (self w))) eqn:Hk.
    + rewrite draw_bytes_length. cbn [Nat.eqb negb andb].
      rewrite bind_ret. unfold str_encode.
      destruct (utf8_encode p) as [b|] eqn:Hp.
      * exfalso. destruct H as [H | [H | H]]; discriminate.
      * rewrite bind_raise. cbn. eexists. split; reflexivity.
    + cbn [andb]. rewrite bind_raise. cbn. eexists. split; reflexivity.
  - cbn. eexists. split; reflexivity.
Qed.

(** C9, amended. On a vault that is not nuked: when the key has a
    valid size, the plaintext UTF-8 encodes and the nonce draw succeeds,
    [encrypt(p)] followed by [decrypt()] returns [p]; in every other
    case [encrypt] meets an error, swallows it, and leaves the stored
    ciphertext as it was: nothing is stored for [p]. *)
Theorem encrypt_decrypt_roundtrip (p : pystr) (w : world) :
  _nuked (self w) = false ->
  (forall (b : bytes) (gen : nat -> Z),
      valid_key_len (_key (self w)) = true ->
      utf8_encode p = Some b ->
      entropy (rng w) (drawn (rng w)) = DrawBytes gen ->
      exists w', (encrypt gcm_encrypt p ;; decrypt gcm_decrypt) w = Ok p w')
  /\ (valid_key_len (_key (self w)) = false
      \/ utf8_encode p = None
      \/ entropy (rng w) (drawn (rng w)) = DrawFails ->
      exists w',
        encrypt gcm_encrypt p w = Ok tt w'
        /\ _encrypted_data (self w') = _encrypted_data (self w)).
Proof.
  intros Hn. split.
  - intros b gen Hk Hp Hd. exact (roundtrip_when_stored p b w gen Hn Hk Hp Hd).
  - apply encrypt_error_stores_nothing, Hn.
Qed.
End WithCipher.

Lemma xor_cipher_inverse (key nonce m : bytes) :
  Samples.xor_cipher key nonce (Samples.xor_cipher key nonce m) = m.
Proof.
  unfold Samples.xor_cipher. rewrite map_map. rewrite <- (map_id m) at 2.
  apply map_ext. intros a. rewrite Z.lxor_assoc, Z.lxor_nilpotent.
  apply Z.lxor_0_r.
Qed.

Lemma xor_cipher_length (key nonce m : bytes) :
  List.length (Samples.xor_cipher key nonce m) = List.length m.
Proof. apply length_map. Qed.

Lemma encrypt_decrypt_roundtrip_witness :
  let w := Samples.fresh_vault Samples.steady in
  let w1 := final (encrypt Samples.xor_cipher Samples.mixed_text w) in
  (exists w',
      (encrypt Samples.xor_cipher Samples.mixed_text ;;
       decrypt Samples.xor_cipher) w = Ok Samples.mixed_text w')
  /\ _encrypted_data (self w1) <> []
  /\ (exists w',
         encrypt Samples.xor_cipher Samples.lone_surrogate w1 = Ok tt w'
         /\ _encrypted_data (self w') = _encrypted_data (self w1)).
Proof.
  cbv zeta. split; [|split].
  - eapply (proj1 (encrypt_decrypt_roundtrip
                     Samples.xor_cipher Samples.xor_cipher
                     xor_cipher_inverse xor_cipher_length Samples.mixed_text
                     (Samples.fresh_vault Samples.steady) eq_refl)).
    + reflexivity.
    + vm_compute. reflexivity.
    + reflexivity.
  - vm_compute. discriminate.
  - apply (proj2 (encrypt_decrypt_roundtrip
                    Samples.xor_cipher Samples.xor_cipher
                    xor_cipher_inverse xor_cipher_length Samples.lone_surrogate
                    (final (encrypt Samples.xor_cipher Samples.mixed_text
                                    (Samples.fresh_vault Samples.steady)))
                    eq_refl)).
    right. left. reflexivity.
Defined.

(** C9 as stated fails: a string holding a lone surrogate does not
    encode, [encrypt] swallows the error, and [decrypt] returns the empty
    string, not the string. *)
Lemma lone_surrogate_is_lost :
  utf8_encode Samples.lone_surrogate = None
  /\ (exists w',
         (encrypt Samples.xor_cipher Samples.lone_surrogate ;;
          decrypt Samples.xor_cipher) (Samples.fresh_vault Samples.steady)
         = Ok [] w')
  /\ ~ (exists w',
           (encrypt Samples.xor_cipher Samples.lone_surrogate ;;
            decrypt Samples.xor_cipher) (Samples.fresh_vault Samples.steady)
           = Ok Samples.lone_surrogate w').
Proof.
  split; [reflexivity|]. split.
  - eexists. vm_compute. reflexivity.
  - intros (w' & H). vm_compute in H. discriminate.
Qed.
End VaultRoundTrip.

(** ** Traces *)

Lemma monitor_events_app (l1 l2 : list event) :
  monitor_events (l1 ++ l2) = monitor_events l1 ++ monitor_events l2.
Proof. apply filter_app. Qed.

Lemma monitor_events_cons (e : event) (l : list event) :
  monitor_events (e :: l)
  = (if is_monitor_event e then [e] else []) ++ monitor_events l.
Proof. cbn. destruct (is_monitor_event e); reflexivity. Qed.

(** Normalises the monitor events of a trace built from known pieces. *)
Ltac mev :=
  repeat first [ rewrite monitor_events_app | rewrite monitor_events_cons ];
  cbn [is_monitor_event app].

Lemma quietly_refl (s : Sys) : quietly s s.
Proof. exists []. rewrite app_nil_r. auto. Qed.

Lemma quietly_trans (s1 s2 s3 : Sys) :
  quietly s1 s2 -> quietly s2 s3 -> quietly s1 s3.
Proof.
  intros (l1 & E1 & M1) (l2 & E2 & M2). exists (l1 ++ l2).
  rewrite E2, E1, app_assoc, monitor_events_app, M1, M2. auto.
Qed.

(** ** Relating the state before a call to the state after it *)

Section Steps.
Context {St : Type}.
Variable R : St -> St -> Prop.
Hypothesis R_refl : forall s, R s s.
Hypothesis R_trans : forall s1 s2 s3, R s1 s2 -> R s2 s3 -> R s1 s3.

Lemma steps_ret {A} (a : A) : steps R (ret a).
Proof. intros s. apply R_refl. Qed.

Lemma steps_raise {A} (e : exn) : steps R (@raise St A e).
Proof. intros s. apply R_refl. Qed.

Lemma steps_gets {A} (f : St -> A) : steps R (gets f).
Proof. intros s. apply R_refl. Qed.

Lemma steps_modify (f : St -> St) : (forall s, R s (f s)) -> steps R (modify f).
Proof. intros H s. apply H. Qed.

Lemma steps_bind {A B} (m : M St A) (k : A -> M St B) :
  steps R m -> (forall a, steps R (k a)) -> steps R (bind m k).
Proof.
  intros Hm Hk s. unfold bind. specialize (Hm s).
  destruct (m s) as [a s1 | e s1 | c s1]; cbn in *; try assumption.
  eapply R_trans; [exact Hm | apply Hk].
Qed.

Lemma steps_try {A} (body : M St A) (handler : exn -> M St A) :
  steps R body -> (forall e, steps R (handler e)) ->
  steps R (try_except body handler).
Proof.
  intros Hb Hh s. unfold try_except. specialize (Hb s).
  destruct (body s) as [a s1 | e s1 | c s1]; cbn in *; try assumption.
  destruct (is_Exception e); cbn; [|assumption].
  eapply R_trans; [exact Hb | apply Hh].
Qed.
End Steps.

(** ** The panic trigger and the status callbacks *)

Module PanicFacts.
Import GhostProtocol.

(** The status callback returns, and adds at most the GUI's record of the
    call. *)
Lemma update_status_spec (key value : string) (s : Sys) :
  _update_status key value s
  = Ok tt (if gui_accepts s
           then set_trace (trace s ++ [EvGui (GuiUpdateStatus key value)]) s
           else s).
Proof.
  unfold _update_status, gui_accepts, Gui.call, try_except, bind, gets, log,
    modify, raise.
  destruct (gui s) as [[[]]|] eqn:Hg; cbn; rewrite ?Hg; reflexivity.
Qed.

Lemma set_blur_spec (blur : bool) (s : Sys) :
  _set_blur blur s
  = Ok tt (if gui_accepts s
           then set_trace (trace s ++ [EvGui (GuiSetBlur blur)]) s
           else s).
Proof.
  unfold _set_blur, gui_accepts, Gui.call, try_except, bind, gets, log,
    modify, raise.
  destruct (gui s) as [[[]]|] eqn:Hg; cbn; rewrite ?Hg; reflexivity.
Qed.

Lemma quietly_log (e : event) :
  is_monitor_event e = false -> steps quietly (log e).
Proof.
  intros He s. exists [e]. cbn. rewrite He. auto.
Qed.

Lemma quietly_same_trace (f : Sys -> Sys) :
  (forall s, trace (f s) = trace s) -> forall s, quietly s (f s).
Proof. intros H s. exists []. rewrite H, app_nil_r. auto. Qed.

Lemma on_vault_final {A} (m : M GhostProtocolVault.world A)
  (o : GhostProtocolVault.t) (s : Sys) :
  exists v r, final (on_vault m o s) = set_sys_rng r (set_vault v s).
Proof.
  unfold on_vault. destruct (m _); cbn; eauto.
Qed.

Create HintDb quiet discriminated.

Lemma quietly_modify (f : Sys -> Sys) :
  (forall s, trace (f s) = trace s) -> steps quietly (modify f).
Proof. intros H. apply steps_modify, quietly_same_trace, H. Qed.

(** Splits a computation along its binds and branches, closing each
    part with the facts already known. *)
Ltac quiet_steps :=
  repeat first
    [ solve [auto with quiet nocore]
    | apply (steps_ret quietly quietly_refl)
    | apply (steps_raise quietly quietly_refl)
    | apply (steps_gets quietly quietly_refl)
    | apply quietly_log; reflexivity
    | apply quietly_modify; intros ?; reflexivity
    | apply (steps_bind quietly quietly_trans); [|intros ?]
    | apply (steps_try quietly quietly_trans); [|intros ?]
    | match goal with
      | |- steps _ (match ?x with _ => _ end) => destruct x
      end ].

Lemma quietly_stop_base (me : tid) (m : monitor_id) :
  steps quietly (SecurityMonitorM.stop me m).
Proof.
  unfold SecurityMonitorM.stop, SecurityMonitorM.join. quiet_steps.
  apply quietly_modify. intros s. destruct m; reflexivity.
Qed.
#[local] Hint Resolve quietly_stop_base : quiet.

Lemma quietly_stop_monitors (me : tid) : steps quietly (_stop_monitors me).
Proof.
  unfold _stop_monitors, CameraSentinel.stop, CameraSentinel.release_cap,
    map_camera.
  quiet_steps.
Qed.
#[local] Hint Resolve quietly_stop_monitors : quiet.

Lemma quietly_on_vault {A} (m : M GhostProtocolVault.world A)
  (o : GhostProtocolVault.t) : steps quietly (on_vault m o).
Proof.
  intros s. destruct (on_vault_final m o s) as (v & r & ->).
  apply (quietly_same_trace (fun s => set_sys_rng r (set_vault v s))).
  reflexivity.
Qed.
#[local] Hint Resolve quietly_on_vault : quiet.

Lemma quietly_gui_call (c : gui_call) : steps quietly (Gui.call c).
Proof. unfold Gui.call. quiet_steps. Qed.
#[local] Hint Resolve quietly_gui_call : quiet.

Lemma quietly_os_exit {A} (c : Z) : steps quietly (@os_exit A c).
Proof. intros s. exists [EvExit c]. auto. Qed.
#[local] Hint Resolve quietly_os_exit : quiet.

(** A call of the panic trigger adds its own event, then none of a
    monitor's. *)
Lemma trigger_panic_trace (me : tid) (s : Sys) :
  exists l, trace (final (_trigger_panic me s)) = trace s ++ EvPanicCall me :: l
            /\ monitor_events l = [].
Proof.
  unfold _trigger_panic. unfold log at 1. rewrite bind_modify.
  set (s1 := set_trace _ s).
  assert (H : steps quietly
    (fired <- gets _panic_triggered ;;
     if fired then ret tt
     else
       modify (set_panic_triggered true) ;;
       _stop_monitors me ;;
       v <- gets vault ;;
       (match v with
        | Some o => log EvWipe ;; on_vault GhostProtocolVault.nuke_memory o
        | None => ret tt
        end) ;;
       g <- gets gui ;;
       (match g with
        | Some _ =>
            try_except
              (Gui.call GuiShowWipeAnimation ;; Gui.call GuiClearSecrets)
              (fun _ => ret tt)
        | None => ret tt
        end) ;;
       os_exit 0)).
  { quiet_steps. }
  destruct (H s1) as (l & E & Hl). exists l. split; [|exact Hl].
  rewrite E. subst s1. cbn. rewrite <- app_assoc. reflexivity.
Qed.
End PanicFacts.

Module InterfereFacts.

Lemma meddled_refl (s : Sys) : meddled s s.
Proof. split; auto. Qed.

Lemma meddled_trans (s1 s2 s3 : Sys) :
  meddled s1 s2 -> meddled s2 s3 -> meddled s1 s3.
Proof.
  intros [] []. split; try congruence. auto.
Qed.

Lemma interfere_one_spec (a : ext_action) (s : Sys) :
  exists s', interfere_one a s = Ok tt s' /\ meddled s s'
             /\ forall m, a <> ExtStop m -> running_of m s' = running_of m s.
Proof.
  destruct a as [m|b]; cbn; eexists; (split; [reflexivity|]).
  - split; [split|].
    + destruct m; reflexivity.
    + destruct m; reflexivity.
    + unfold usb_present_of. destruct m; cbn; [reflexivity|].
      destruct (usb_guard s); reflexivity.
    + intros m'. unfold running_of.
      destruct m, m'; cbn; try tauto;
        [destruct (camera_sentinel s) | destruct (usb_guard s)]; reflexivity.
    + intros m' Hne. unfold running_of.
      destruct m, m'; cbn; try congruence; reflexivity.
  - split; [split|]; try reflexivity.
    + unfold usb_present_of. cbn. destruct (usb_guard s); reflexivity.
    + intros m. unfold running_of. destruct m; cbn; [tauto|].
      destruct (usb_guard s); cbn; tauto.
    + intros m _. unfold running_of. destruct m; cbn; [reflexivity|].
      destruct (usb_guard s); reflexivity.
Qed.

Lemma interfere_spec (acts : list ext_action) (s : Sys) :
  exists s', interfere acts s = Ok tt s' /\ meddled s s'
             /\ forall m, ~ In (ExtStop m) acts ->
                          running_of m s' = running_of m s.
Proof.
  revert s. induction acts as [|a acts IH]; intros s; cbn [interfere].
  - exists s. split; [reflexivity|]. split; [apply meddled_refl | auto].
  - destruct (interfere_one_spec a s) as (s1 & E1 & M1 & R1).
    destruct (IH s1) as (s2 & E2 & M2 & R2).
    exists s2. rewrite (bind_ok _ _ _ _ _ E1). split; [exact E2|].
    split; [eapply meddled_trans; eassumption|].
    intros m Hm. cbn in Hm. rewrite R2, R1; [reflexivity | |]; intuition.
Qed.

End InterfereFacts.

(** ** The USB guard *)

Module UsbFacts.
Import GhostProtocol InterfereFacts PanicFacts.

(** The check on the sample hosts: a mount path holding the name, a
    volume label, a directory under [/mnt] reached past an unreadable
    [/media], and the two ways an error gives False. *)
Example check_on_sample_hosts :
  USBGuard.check_ghost_key_present Samples.host_with_token = true
  /\ USBGuard.check_ghost_key_present Samples.host_without_token = false
  /\ USBGuard.check_ghost_key_present Samples.host_windows = true
  /\ USBGuard.check_ghost_key_present Samples.host_unreadable_media = true
  /\ USBGuard.enumerate Samples.host_broken_media = IoRaises NotADirectory
  /\ USBGuard.check_ghost_key_present Samples.host_broken_media = false
  /\ USBGuard.enumerate Samples.host_failing = IoRaises OtherError
  /\ USBGuard.check_ghost_key_present Samples.host_failing = false.
Proof. repeat split; reflexivity. Qed.

(** A status call of the guard: its event, then at most the GUI's. *)
Lemma usb_call_status_spec (key value : string) (s : Sys) :
  exists s',
    USBGuard.call_status _update_status key value s = Ok tt s'
    /\ (exists l, trace s' = trace s ++ EvStatus key value :: l
                  /\ monitor_events l = [])
    /\ usb_guard s' = usb_guard s
    /\ camera_sentinel s' = camera_sentinel s.
Proof.
  unfold USBGuard.call_status, log. rewrite bind_modify, update_status_spec.
  eexists. split; [reflexivity|].
  destruct (gui_accepts _); cbn.
  - split; [|auto]. eexists. rewrite <- app_assoc. split; reflexivity.
  - split; [|auto]. exists []. auto.
Qed.

Lemma set_usb_present_spec (b : bool) (s : Sys) :
  exists s',
    USBGuard.set_usb_present b s = Ok tt s'
    /\ trace s' = trace s
    /\ (forall m, running_of m s' = running_of m s)
    /\ (running_of Usb s = true -> usb_present_of s' = b).
Proof.
  eexists. split; [reflexivity|]. split; [reflexivity|]. split.
  - intros m. unfold running_of. destruct m; cbn; [reflexivity|].
    destruct (usb_guard s); reflexivity.
  - unfold running_of, usb_present_of. cbn.
    destruct (usb_guard s); [reflexivity | discriminate].
Qed.

Lemma alternates_no_panic (present : bool) (l : list event) (t : tid) :
  alternates present (monitor_events l) -> ~ In (EvPanicCall t) l.
Proof.
  intros Ha Hin.
  assert (Hm : In (EvPanicCall t) (monitor_events l))
    by (apply filter_In; auto).
  clear Hin. revert present Ha Hm.
  induction (monitor_events l) as [|e l' IH]; intros present Ha Hm.
  - contradiction.
  - destruct Ha as [-> Ha]. destruct Hm as [Hm|Hm]; [discriminate|].
    eapply IH; eassumption.
Qed.

(** With an absent baseline the loop only reports the flips of the
    token's state, and returns. *)
Lemma poll_unarmed (me : tid) (ticks : list (tick Host)) (s : Sys) :
  exists e s' l,
    USBGuard.poll _trigger_panic _update_status me false ticks s = Ok e s'
    /\ trace s' = trace s ++ l
    /\ alternates (usb_present_of s) (monitor_events l).
Proof.
  revert s. induction ticks as [|tk rest IH]; intros s; cbn [USBGuard.poll].
  - exists Pending, s, []. rewrite app_nil_r. cbn. auto.
  - destruct (interfere_spec (before tk) s) as (s1 & E1 & [Ht1 _ Hp1 _] & _).
    rewrite (bind_ok _ _ _ _ _ E1). unfold is_running. rewrite bind_gets.
    fold (running_of Usb s1).
    destruct (running_of Usb s1) eqn:Hrun; cbn [negb].
    2: { exists Exited, s1, []. rewrite app_nil_r, Ht1. cbn. auto. }
    cbn [andb]. unfold USBGuard.get_usb_present. rewrite bind_gets.
    fold (usb_present_of s1). rewrite Hp1.
    set (current := USBGuard.check_ghost_key_present (sample tk)).
    destruct current, (usb_present_of s) eqn:Hp; cbn [andb negb].
    + (* still present *)
      rewrite bind_ret.
      destruct (set_usb_present_spec true s1) as (s2 & E2 & Ht2 & _ & Hp2).
      rewrite (bind_ok _ _ _ _ _ E2).
      destruct (IH s2) as (e & s' & l & E & Ht & Ha).
      exists e, s', l. rewrite E, Ht, Ht2, Ht1, (Hp2 Hrun) in *. auto.
    + (* reconnected *)
      destruct (usb_call_status_spec "usb" "SECURE" s1)
        as (s2 & E2 & (l2 & Ht2 & Hq2) & Hu2 & _).
      rewrite (bind_ok _ _ _ _ _ E2).
      assert (Hrun2 : running_of Usb s2 = true)
        by (unfold running_of in *; cbn in *; rewrite Hu2; exact Hrun).
      destruct (set_usb_present_spec true s2) as (s3 & E3 & Ht3 & _ & Hp3).
      rewrite (bind_ok _ _ _ _ _ E3).
      destruct (IH s3) as (e & s' & l & E & Ht & Ha).
      exists e, s', (EvStatus "usb" "SECURE" :: l2 ++ l).
      rewrite E, Ht, Ht3, Ht2, Ht1, (Hp3 Hrun2) in *.
      split; [reflexivity|]. split.
      * rewrite <- app_assoc. reflexivity.
      * mev. rewrite Hq2. cbn. auto.
    + (* disconnected *)
      destruct (usb_call_status_spec "usb" "NO KEY" s1)
        as (s2 & E2 & (l2 & Ht2 & Hq2) & Hu2 & _).
      rewrite (bind_ok _ _ _ _ _ E2).
      assert (Hrun2 : running_of Usb s2 = true)
        by (unfold running_of in *; cbn in *; rewrite Hu2; exact Hrun).
      destruct (set_usb_present_spec false s2) as (s3 & E3 & Ht3 & _ & Hp3).
      rewrite (bind_ok _ _ _ _ _ E3).
      destruct (IH s3) as (e & s' & l & E & Ht & Ha).
      exists e, s', (EvStatus "usb" "NO KEY" :: l2 ++ l).
      rewrite E, Ht, Ht3, Ht2, Ht1, (Hp3 Hrun2) in *.
      split; [reflexivity|]. split.
      * rewrite <- app_assoc. reflexivity.
      * mev. rewrite Hq2. cbn. auto.
    + (* still absent *)
      rewrite bind_ret.
      destruct (set_usb_present_spec false s1) as (s2 & E2 & Ht2 & _ & Hp2).
      rewrite (bind_ok _ _ _ _ _ E2).
      destruct (IH s2) as (e & s' & l & E & Ht & Ha).
      exists e, s', l. rewrite E, Ht, Ht2, Ht1, (Hp2 Hrun) in *. auto.
Qed.

Lemma bypass_idle_spec (ticks : list (tick Host)) (s : Sys) :
  exists e s', USBGuard.bypass_idle ticks s = Ok e s' /\ trace s' = trace s.
Proof.
  revert s. induction ticks as [|tk rest IH]; intros s;
    cbn [USBGuard.bypass_idle].
  - exists Pending, s. auto.
  - destruct (interfere_spec (before tk) s) as (s1 & E1 & [Ht1 _ _ _] & _).
    rewrite (bind_ok _ _ _ _ _ E1). unfold is_running. rewrite bind_gets.
    destruct (match get_base Usb s1 with Some b => _running b | None => false end).
    + destruct (IH s1) as (e & s' & E & Ht). exists e, s'.
      rewrite E, Ht, Ht1. auto.
    + exists Exited, s1. auto.
Qed.

(** A guard that starts bypassed reports it once and idles. *)
Lemma worker_bypassed (ticks : list (tick Host)) (s : Sys) :
  bypass_of s = true ->
  exists e s' l,
    usb_worker ticks s = Ok e s' /\ trace s' = trace s ++ l
    /\ monitor_events l = [EvStatus "usb" "BYPASSED"].
Proof.
  intros Hb. unfold usb_worker, USBGuard._monitor_loop, USBGuard.get_bypass_mode.
  rewrite bind_gets. fold (bypass_of s). rewrite Hb.
  destruct (usb_call_status_spec "usb" "BYPASSED" s)
    as (s1 & E1 & (l1 & Ht1 & Hq1) & _).
  rewrite (bind_ok _ _ _ _ _ E1).
  destruct (bypass_idle_spec ticks s1) as (e & s' & E & Ht).
  exists e, s', (EvStatus "usb" "BYPASSED" :: l1).
  rewrite E, Ht, Ht1. mev. rewrite Hq1. auto.
Qed.

(** A guard whose baseline sample is absent only reports flips. *)
Lemma worker_unarmed (tk : tick Host) (rest : list (tick Host)) (s : Sys) :
  bypass_of s = false ->
  USBGuard.check_ghost_key_present (sample tk) = false ->
  exists e s' l,
    usb_worker (tk :: rest) s = Ok e s' /\ trace s' = trace s ++ l
    /\ alternates true (monitor_events l).
Proof.
  intros Hb Hc. unfold usb_worker, USBGuard._monitor_loop, USBGuard.get_bypass_mode.
  rewrite bind_gets. fold (bypass_of s). rewrite Hb, Hc.
  destruct (interfere_spec (before tk) s) as (s1 & E1 & [Ht1 _ _ _] & _).
  rewrite (bind_ok _ _ _ _ _ E1).
  destruct (set_usb_present_spec false s1) as (s2 & E2 & Ht2 & _ & _).
  rewrite (bind_ok _ _ _ _ _ E2).
  destruct (usb_call_status_spec "usb" "NO KEY" s2)
    as (s3 & E3 & (l3 & Ht3 & Hq3) & Hu3 & _).
  rewrite (bind_ok _ _ _ _ _ E3).
  unfold USBGuard.get_usb_present. rewrite bind_gets. fold (usb_present_of s3).
  assert (Hp3 : usb_present_of s3 = false).
  { unfold usb_present_of. rewrite Hu3.
    unfold USBGuard.set_usb_present, map_usb, modify in E2.
    injection E2 as <-. cbn. destruct (usb_guard s1); reflexivity. }
  rewrite Hp3.
  destruct (poll_unarmed (Worker Usb) rest s3) as (e & s' & l & E & Ht & Ha).
  exists e, s', (EvStatus "usb" "NO KEY" :: l3 ++ l).
  rewrite E, Ht, Ht3, Ht2, Ht1, Hp3 in *. split; [reflexivity|]. split.
  - rewrite <- app_assoc. reflexivity.
  - mev. rewrite Hq3. cbn. auto.
Qed.

(** The armed loop: while the token stays, nothing is reported; at the
    first absent sample the guard reports, calls the panic trigger and
    leaves the loop. *)
Lemma poll_armed_trips (pre : list (tick Host)) (t : tick Host)
  (post : list (tick Host)) (s : Sys) :
  running_of Usb s = true ->
  usb_present_of s = true ->
  Forall (fun tk => calm Usb tk
                    /\ USBGuard.check_ghost_key_present (sample tk) = true) pre ->
  calm Usb t ->
  USBGuard.check_ghost_key_present (sample t) = false ->
  let r := USBGuard.poll _trigger_panic _update_status (Worker Usb) true
                         (pre ++ t :: post) s in
  exists l,
    trace (final r) = trace s ++ l
    /\ monitor_events l = [EvStatus "usb" "REMOVED";
                           EvStatus "threat" "CRITICAL";
                           EvPanicCall (Worker Usb)]
    /\ stopped r.
Proof.
  intros Hrun Hp Hpre Ht Hc. cbv zeta. revert s Hrun Hp.
  induction Hpre as [|tk pre [Hcalm Hck] _ IH]; intros s Hrun Hp;
    cbn [app USBGuard.poll].
  - destruct (interfere_spec (before t) s) as (s1 & E1 & [Ht1 _ Hp1 _] & Hr1).
    rewrite (bind_ok _ _ _ _ _ E1). unfold is_running. rewrite bind_gets.
    fold (running_of Usb s1). rewrite (Hr1 Usb Ht), Hrun, Hc. cbn [negb andb].
    destruct (usb_call_status_spec "usb" "REMOVED" s1)
      as (s2 & E2 & (l2 & Ht2 & Hq2) & _).
    rewrite (bind_ok _ _ _ _ _ E2).
    destruct (usb_call_status_spec "threat" "CRITICAL" s2)
      as (s3 & E3 & (l3 & Ht3 & Hq3) & _).
    rewrite (bind_ok _ _ _ _ _ E3).
    destruct (trigger_panic_trace (Worker Usb) s3) as (l4 & Ht4 & Hq4).
    exists (EvStatus "usb" "REMOVED" :: l2
            ++ EvStatus "threat" "CRITICAL" :: l3
            ++ EvPanicCall (Worker Usb) :: l4).
    unfold USBGuard.call_panic.
    destruct (_trigger_panic (Worker Usb) s3) as [[] s4 | e s4 | c s4] eqn:Ep;
      [ rewrite (bind_ok _ _ _ _ _ Ep) | rewrite (bind_exc _ _ _ _ _ Ep)
      | rewrite (bind_halt _ _ _ _ _ Ep) ];
      cbn [final stopped ret] in *.
    all: rewrite Ht4, Ht3, Ht2, Ht1.
    all: split; [rewrite <- !app_assoc; reflexivity|].
    all: split; [|exact I].
    all: mev; rewrite Hq2, Hq3, Hq4; reflexivity.
  - destruct (interfere_spec (before tk) s) as (s1 & E1 & [Ht1 _ Hp1 _] & Hr1).
    rewrite (bind_ok _ _ _ _ _ E1). unfold is_running. rewrite bind_gets.
    fold (running_of Usb s1). rewrite (Hr1 Usb Hcalm), Hrun, Hck.
    cbn [negb andb]. unfold USBGuard.get_usb_present. rewrite bind_gets.
    fold (usb_present_of s1). rewrite Hp1, Hp. cbn [negb andb].
    rewrite bind_ret.
    destruct (set_usb_present_spec true s1) as (s2 & E2 & Ht2 & Hr2 & Hp2).
    rewrite (bind_ok _ _ _ _ _ E2).
    assert (Hrun1 : running_of Usb s1 = true)
      by (rewrite (Hr1 Usb Hcalm); exact Hrun).
    destruct (IH s2) as (l & El & Hl & Hs).
    { rewrite Hr2. exact Hrun1. }
    { apply Hp2, Hrun1. }
    exists l. rewrite El, Ht2, Ht1. auto.
Qed.

(** The whole worker: baseline present, then the first absent sample. *)
Lemma worker_trips (t0 : tick Host) (pre : list (tick Host)) (t : tick Host)
  (post : list (tick Host)) (s : Sys) :
  running_of Usb s = true ->
  bypass_of s = false ->
  calm Usb t0 ->
  USBGuard.check_ghost_key_present (sample t0) = true ->
  Forall (fun tk => calm Usb tk
                    /\ USBGuard.check_ghost_key_present (sample tk) = true) pre ->
  calm Usb t ->
  USBGuard.check_ghost_key_present (sample t) = false ->
  let r := usb_worker (t0 :: pre ++ t :: post) s in
  exists l,
    trace (final r) = trace s ++ l
    /\ monitor_events l = [EvStatus "usb" "SECURE";
                           EvStatus "usb" "REMOVED";
                           EvStatus "threat" "CRITICAL";
                           EvPanicCall (Worker Usb)]
    /\ stopped r.
Proof.
  intros Hrun Hb Hcalm0 Hc0 Hpre Hcalm Hc. cbv zeta.
  unfold usb_worker, USBGuard._monitor_loop, USBGuard.get_bypass_mode.
  rewrite bind_gets. fold (bypass_of s). rewrite Hb, Hc0.
  destruct (interfere_spec (before t0) s) as (s1 & E1 & [Ht1 _ _ _] & Hr1).
  rewrite (bind_ok _ _ _ _ _ E1).
  assert (Hrun1 : running_of Usb s1 = true)
    by (rewrite (Hr1 Usb Hcalm0); exact Hrun).
  destruct (set_usb_present_spec true s1) as (s2 & E2 & Ht2 & Hr2 & Hp2).
  rewrite (bind_ok _ _ _ _ _ E2).
  destruct (usb_call_status_spec "usb" "SECURE" s2)
    as (s3 & E3 & (l3 & Ht3 & Hq3) & Hu3 & _).
  rewrite (bind_ok _ _ _ _ _ E3).
  unfold USBGuard.get_usb_present. rewrite bind_gets. fold (usb_present_of s3).
  assert (Hp3 : usb_present_of s3 = true).
  { unfold usb_present_of. rewrite Hu3. apply Hp2, Hrun1. }
  assert (Hrun3 : running_of Usb s3 = true).
  { unfold running_of. cbn. rewrite Hu3. fold (get_base Usb s2).
    fold (running_of Usb s2). rewrite Hr2. exact Hrun1. }
  rewrite Hp3.
  destruct (poll_armed_trips pre t post s3 Hrun3 Hp3 Hpre Hcalm Hc)
    as (l & El & Hl & Hs).
  exists (EvStatus "usb" "SECURE" :: l3 ++ l).
  rewrite El, Ht3, Ht2, Ht1. split; [|split; [|exact Hs]].
  - rewrite <- app_assoc. reflexivity.
  - mev. rewrite Hq3, Hl. reflexivity.
Qed.

Lemma alternates_toggles (seen : bool) (found : list bool) :
  alternates seen (toggles seen found).
Proof.
  revert seen. induction found as [|c rest IH]; intros seen; cbn [toggles].
  - exact I.
  - destruct c, seen; cbn [Bool.eqb app]; try apply IH.
    + split; [reflexivity | apply IH].
    + split; [reflexivity | apply IH].
Qed.

(** The polling loop of an unarmed guard reports exactly the changes in
    what its checks find, for as many ticks as it runs; it runs through
    all of them when nobody stops it. *)
Lemma poll_unarmed_exact (me : tid) (ticks : list (tick Host)) (s : Sys) :
  exists e s' l n,
    USBGuard.poll _trigger_panic _update_status me false ticks s = Ok e s'
    /\ trace s' = trace s ++ l
    /\ (n <= List.length ticks)%nat
    /\ monitor_events l = toggles (usb_present_of s) (readings (firstn n ticks))
    /\ (running_of Usb s = true -> Forall (calm Usb) ticks ->
        n = List.length ticks).
Proof.
  revert s. induction ticks as [|tk rest IH]; intros s; cbn [USBGuard.poll].
  - exists Pending, s, [], 0%nat. rewrite app_nil_r. cbn. auto.
  - destruct (interfere_spec (before tk) s) as (s1 & E1 & [Ht1 _ Hp1 _] & Hr1).
    rewrite (bind_ok _ _ _ _ _ E1). unfold is_running. rewrite bind_gets.
    fold (running_of Usb s1).
    destruct (running_of Usb s1) eqn:Hrun; cbn [negb].
    2: { exists Exited, s1, [], 0%nat. rewrite app_nil_r, Ht1. cbn.
         repeat split; auto; try lia.
         intros Hs Hcalm. inversion Hcalm as [|? ? Hc _]; subst.
         rewrite (Hr1 Usb Hc) in Hrun. congruence. }
    cbn [andb]. unfold USBGuard.get_usb_present. rewrite bind_gets.
    fold (usb_present_of s1). rewrite Hp1.
    set (current := USBGuard.check_ghost_key_present (sample tk)).
    assert (Hstep : exists s3 l3,
               ((if current && negb (usb_present_of s)
                 then USBGuard.call_status _update_status "usb" "SECURE"
                 else if negb current && usb_present_of s
                      then USBGuard.call_status _update_status "usb" "NO KEY"
                      else ret tt) ;;
                USBGuard.set_usb_present current) s1 = Ok tt s3
               /\ trace s3 = trace s1 ++ l3
               /\ monitor_events l3
                  = (if Bool.eqb current (usb_present_of s) then []
                     else [EvStatus "usb" (if current then "SECURE" else "NO KEY")])
               /\ usb_present_of s3 = current
               /\ running_of Usb s3 = true).
    { destruct current, (usb_present_of s); cbn [andb negb Bool.eqb].
      - rewrite bind_ret.
        destruct (set_usb_present_spec true s1) as (s2 & E2 & Ht2 & Hr2 & Hp2).
        exists s2, []. rewrite app_nil_r, Hr2. repeat split; auto.
      - destruct (usb_call_status_spec "usb" "SECURE" s1)
          as (s2 & E2 & (l2 & Ht2 & Hq2) & Hu2 & _).
        rewrite (bind_ok _ _ _ _ _ E2).
        assert (Hrun2 : running_of Usb s2 = true)
          by (unfold running_of in *; cbn in *; rewrite Hu2; exact Hrun).
        destruct (set_usb_present_spec true s2) as (s3 & E3 & Ht3 & Hr3 & Hp3).
        exists s3, (EvStatus "usb" "SECURE" :: l2).
        rewrite Hr3, Ht3. repeat split; auto.
        mev. rewrite Hq2. reflexivity.
      - destruct (usb_call_status_spec "usb" "NO KEY" s1)
          as (s2 & E2 & (l2 & Ht2 & Hq2) & Hu2 & _).
        rewrite (bind_ok _ _ _ _ _ E2).
        assert (Hrun2 : running_of Usb s2 = true)
          by (unfold running_of in *; cbn in *; rewrite Hu2; exact Hrun).
        destruct (set_usb_present_spec false s2) as (s3 & E3 & Ht3 & Hr3 & Hp3).
        exists s3, (EvStatus "usb" "NO KEY" :: l2).
        rewrite Hr3, Ht3. repeat split; auto.
        mev. rewrite Hq2. reflexivity.
      - rewrite bind_ret.
        destruct (set_usb_present_spec false s1) as (s2 & E2 & Ht2 & Hr2 & Hp2).
        exists s2, []. rewrite app_nil_r, Hr2. repeat split; auto. }
    destruct Hstep as (s3 & l3 & E3 & Ht3 & Hq3 & Hp3 & Hrun3).
    rewrite <- bind_assoc, (bind_ok _ _ _ _ _ E3).
    destruct (IH s3) as (e & s' & l & n & E & Ht & Hn & Hq & Hfull).
    exists e, s', (l3 ++ l), (S n). split; [exact E|]. split.
    { rewrite Ht, Ht3, Ht1, app_assoc. reflexivity. }
    split; [cbn; lia|]. split.
    { rewrite monitor_events_app, Hq3, Hq, Hp3. reflexivity. }
    intros Hs Hcalm. inversion Hcalm as [|? ? _ Hrest]; subst.
    cbn. f_equal. apply Hfull; assumption.
Qed.

Lemma worker_unarmed_exact (tk : tick Host) (rest : list (tick Host)) (s : Sys) :
  bypass_of s = false ->
  USBGuard.check_ghost_key_present (sample tk) = false ->
  exists e s' l n,
    usb_worker (tk :: rest) s = Ok e s' /\ trace s' = trace s ++ l
    /\ (n <= List.length rest)%nat
    /\ monitor_events l
       = EvStatus "usb" "NO KEY" :: toggles false (readings (firstn n rest))
    /\ (running_of Usb s = true -> Forall (calm Usb) (tk :: rest) ->
        n = List.length rest).
Proof.
  intros Hb Hc. unfold usb_worker, USBGuard._monitor_loop, USBGuard.get_bypass_mode.
  rewrite bind_gets. fold (bypass_of s). rewrite Hb, Hc.
  destruct (interfere_spec (before tk) s) as (s1 & E1 & [Ht1 _ _ _] & Hr1).
  rewrite (bind_ok _ _ _ _ _ E1).
  destruct (set_usb_present_spec false s1) as (s2 & E2 & Ht2 & Hr2 & _).
  rewrite (bind_ok _ _ _ _ _ E2).
  destruct (usb_call_status_spec "usb" "NO KEY" s2)
    as (s3 & E3 & (l3 & Ht3 & Hq3) & Hu3 & _).
  rewrite (bind_ok _ _ _ _ _ E3).
  unfold USBGuard.get_usb_present. rewrite bind_gets. fold (usb_present_of s3).
  assert (Hp3 : usb_present_of s3 = false).
  { unfold usb_present_of. rewrite Hu3.
    unfold USBGuard.set_usb_present, map_usb, modify in E2.
    injection E2 as <-. cbn. destruct (usb_guard s1); reflexivity. }
  rewrite Hp3.
  destruct (poll_unarmed_exact (Worker Usb) rest s3)
    as (e & s' & l & n & E & Ht & Hn & Hq & Hfull).
  exists e, s', (EvStatus "usb" "NO KEY" :: l3 ++ l), n.
  split; [exact E|]. split.
  { rewrite Ht, Ht3, Ht2, Ht1, <- app_assoc. reflexivity. }
  split; [exact Hn|]. split.
  { mev. rewrite Hq3, Hq, Hp3. reflexivity. }
  intros Hs Hcalm. inversion Hcalm as [|? ? Hc0 Hrest]; subst.
  apply Hfull; [|exact Hrest].
  assert (Hr3 : running_of Usb s3 = running_of Usb s2)
    by (unfold running_of; cbn [get_base]; rewrite Hu3; reflexivity).
  rewrite Hr3, Hr2, (Hr1 Usb Hc0). exact Hs.
Qed.

End UsbFacts.

Module UsbClaims.
Import GhostProtocol UsbFacts.

(** C3. If the token was present at the guard's baseline sample and a
    later sample reports it absent, the guard reports "REMOVED", then
    threat "CRITICAL", calls the panic trigger once, and leaves its
    loop: no later sample is read. *)
Theorem token_removal_trips (t0 : tick Host) (pre : list (tick Host))
  (t : tick Host) (post : list (tick Host)) (s : Sys) :
  running_of Usb s = true ->
  bypass_of s = false ->
  calm Usb t0 ->
  USBGuard.check_ghost_key_present (sample t0) = true ->
  Forall (fun tk => calm Usb tk
                    /\ USBGuard.check_ghost_key_present (sample tk) = true) pre ->
  calm Usb t ->
  USBGuard.check_ghost_key_present (sample t) = false ->
  let r := usb_worker (t0 :: pre ++ t :: post) s in
  exists l,
    trace (final r) = trace s ++ l
    /\ monitor_events l = [EvStatus "usb" "SECURE";
                           EvStatus "usb" "REMOVED";
                           EvStatus "threat" "CRITICAL";
                           EvPanicCall (Worker Usb)]
    /\ stopped r.
Proof. exact (worker_trips t0 pre t post s). Qed.

Lemma token_removal_trips_witness :
  let r := usb_worker
             (Samples.quiet Samples.host_with_token
              :: [Samples.quiet Samples.host_with_token]
              ++ Samples.quiet Samples.host_without_token
              :: [Samples.quiet Samples.host_with_token])
             Samples.booted in
  exists l,
    trace (final r) = trace Samples.booted ++ l
    /\ monitor_events l = [EvStatus "usb" "SECURE";
                           EvStatus "usb" "REMOVED";
                           EvStatus "threat" "CRITICAL";
                           EvPanicCall (Worker Usb)]
    /\ stopped r.
Proof.
  apply token_removal_trips.
  - reflexivity.
  - reflexivity.
  - unfold calm. simpl. tauto.
  - reflexivity.
  - repeat constructor. unfold calm. simpl. tauto.
  - unfold calm. simpl. tauto.
  - reflexivity.
Defined.

(** C5. A guard started in bypass mode, or whose baseline sample found
    no token, never calls the panic trigger: bypassed, its only status is
    "BYPASSED"; unarmed, it reports "NO KEY" and then exactly the toggles
    of its later samples, "SECURE" for a token that appears and "NO KEY"
    for one that goes, for as long as it runs (through all its samples
    when nobody stops it); these statuses alternate. *)
Theorem unarmed_guard_never_panics (ticks : list (tick Host)) (s : Sys) :
  bypass_of s = true
  \/ (bypass_of s = false /\ baseline ticks = Some false) ->
  exists e s' l,
    usb_worker ticks s = Ok e s'
    /\ trace s' = trace s ++ l
    /\ (forall t, ~ In (EvPanicCall t) l)
    /\ (if bypass_of s
        then monitor_events l = [EvStatus "usb" "BYPASSED"]
        else alternates true (monitor_events l)
             /\ exists n,
                 (n <= List.length (tl ticks))%nat
                 /\ monitor_events l
                    = EvStatus "usb" "NO KEY"
                        :: toggles false (readings (firstn n (tl ticks)))
                 /\ (running_of Usb s = true -> Forall (calm Usb) ticks ->
                     n = List.length (tl ticks))).
Proof.
  intros [Hb | [Hb Hbase]].
  - destruct (worker_bypassed ticks s Hb) as (e & s' & l & E & Ht & Hl).
    exists e, s', l. rewrite Hb. repeat split; auto.
    intros t Hin.
    assert (Hm : In (EvPanicCall t) (monitor_events l))
      by (apply filter_In; auto).
    rewrite Hl in Hm. destruct Hm as [Hm | []]. discriminate.
  - destruct ticks as [|tk rest]; [discriminate|].
    injection Hbase as Hc.
    destruct (worker_unarmed_exact tk rest s Hb Hc)
      as (e & s' & l & n & E & Ht & Hn & Hl & Hfull).
    assert (Ha : alternates true (monitor_events l)).
    { rewrite Hl. split; [reflexivity | apply alternates_toggles]. }
    exists e, s', l. rewrite Hb.
    split; [exact E|]. split; [exact Ht|]. split.
    + intros t. eapply alternates_no_panic, Ha.
    + split; [exact Ha|]. exists n. cbn [tl]. auto.
Qed.

Lemma unarmed_guard_never_panics_witness :
  exists e s' l,
    usb_worker [Samples.quiet Samples.host_without_token;
                Samples.quiet Samples.host_with_token;
                Samples.quiet Samples.host_with_token;
                Samples.quiet Samples.host_without_token;
                Samples.quiet Samples.host_with_token]
               Samples.booted = Ok e s'
    /\ trace s' = trace Samples.booted ++ l
    /\ (forall t, ~ In (EvPanicCall t) l)
    /\ monitor_events l = [EvStatus "usb" "NO KEY";
                           EvStatus "usb" "SECURE";
                           EvStatus "usb" "NO KEY";
                           EvStatus "usb" "SECURE"].
Proof.
  destruct (unarmed_guard_never_panics
              [Samples.quiet Samples.host_without_token;
               Samples.quiet Samples.host_with_token;
               Samples.quiet Samples.host_with_token;
               Samples.quiet Samples.host_without_token;
               Samples.quiet Samples.host_with_token]
              Samples.booted (or_intror (conj eq_refl eq_refl)))
    as (e & s' & l & E & Ht & Hp & Hev).
  cbn [bypass_of Samples.booted] in Hev.
  change (bypass_of Samples.booted) with false in Hev.
  destruct Hev as (_ & n & _ & Hl & Hfull).
  rewrite Hfull in Hl.
  - exists e, s', l. split; [exact E|]. split; [exact Ht|].
    split; [exact Hp | exact Hl].
  - reflexivity.
  - repeat constructor; unfold calm; simpl; tauto.
Defined.

(** C7, amended. When the enumeration raises, the check returns False
    without propagating; the guard takes that for an absent token, so
    with a present baseline it trips: "REMOVED", "CRITICAL", one call of
    the panic trigger. *)
Theorem enumeration_error_reads_as_absence (h : Host) (e : os_error) :
  USBGuard.enumerate h = IoRaises e ->
  USBGuard.check_ghost_key_present h = false
  /\ forall (t0 : tick Host) (pre post : list (tick Host))
            (acts : list ext_action) (s : Sys),
      running_of Usb s = true ->
      bypass_of s = false ->
      calm Usb t0 ->
      USBGuard.check_ghost_key_present (sample t0) = true ->
      Forall (fun tk => calm Usb tk
                        /\ USBGuard.check_ghost_key_present (sample tk) = true)
             pre ->
      ~ In (ExtStop Usb) acts ->
      let r := usb_worker (t0 :: pre ++ mkTick acts h :: post) s in
      exists l,
        trace (final r) = trace s ++ l
        /\ monitor_events l = [EvStatus "usb" "SECURE";
                               EvStatus "usb" "REMOVED";
                               EvStatus "threat" "CRITICAL";
                               EvPanicCall (Worker Usb)]
        /\ stopped r.
Proof.
  intros He.
  assert (Hc : USBGuard.check_ghost_key_present h = false)
    by (unfold USBGuard.check_ghost_key_present; rewrite He; reflexivity).
  split; [exact Hc|].
  intros t0 pre post acts s Hrun Hb Hcalm0 Hc0 Hpre Hacts.
  apply worker_trips; auto.
Qed.

Lemma enumeration_error_reads_as_absence_witness :
  USBGuard.check_ghost_key_present Samples.host_failing = false
  /\ forall (t0 : tick Host) (pre post : list (tick Host))
            (acts : list ext_action) (s : Sys),
      running_of Usb s = true ->
      bypass_of s = false ->
      calm Usb t0 ->
      USBGuard.check_ghost_key_present (sample t0) = true ->
      Forall (fun tk => calm Usb tk
                        /\ USBGuard.check_ghost_key_present (sample tk) = true)
             pre ->
      ~ In (ExtStop Usb) acts ->
      let r := usb_worker
                 (t0 :: pre ++ mkTick acts Samples.host_failing :: post) s in
      exists l,
        trace (final r) = trace s ++ l
        /\ monitor_events l = [EvStatus "usb" "SECURE";
                               EvStatus "usb" "REMOVED";
                               EvStatus "threat" "CRITICAL";
                               EvPanicCall (Worker Usb)]
        /\ stopped r.
Proof.
  apply (enumeration_error_reads_as_absence Samples.host_failing OtherError).
  reflexivity.
Defined.

(** C7 as stated fails: the baseline was present, the next check's
    enumeration raised, and the panic trigger was called. *)
Lemma enumeration_error_trips_guard :
  USBGuard.check_ghost_key_present Samples.host_with_token = true
  /\ USBGuard.enumerate Samples.host_failing = IoRaises OtherError
  /\ In (EvPanicCall (Worker Usb))
        (trace (final (usb_worker [Samples.quiet Samples.host_with_token;
                                   Samples.quiet Samples.host_failing]
                                  Samples.booted))).
Proof.
  split; [reflexivity|]. split; [reflexivity|].
  vm_compute. tauto.
Qed.
End UsbClaims.

(** ** The panic trigger, seen from the camera worker *)

Module PanicDown.
Import GhostProtocol PanicFacts.

Lemma stays_down_refl (s : Sys) : stays_down s s.
Proof. intros H. exact H. Qed.

Lemma stays_down_trans (s1 s2 s3 : Sys) :
  stays_down s1 s2 -> stays_down s2 s3 -> stays_down s1 s3.
Proof. unfold stays_down. auto. Qed.

Lemma stays_down_modify (f : Sys -> Sys) :
  (forall s, running_of Camera s = false -> running_of Camera (f s) = false) ->
  steps stays_down (modify f).
Proof. intros H. apply steps_modify. exact H. Qed.

Create HintDb down discriminated.

Ltac down_steps :=
  repeat first
    [ solve [auto with down nocore]
    | apply (steps_ret stays_down stays_down_refl)
    | apply (steps_raise stays_down stays_down_refl)
    | apply (steps_gets stays_down stays_down_refl)
    | apply stays_down_modify; intros ? ?; assumption
    | apply (steps_bind stays_down stays_down_trans); [|intros ?]
    | apply (steps_try stays_down stays_down_trans); [|intros ?]
    | match goal with
      | |- steps _ (match ?x with _ => _ end) => destruct x
      end ].

Lemma stays_down_log (e : event) : steps stays_down (log e).
Proof. apply stays_down_modify. intros s H. exact H. Qed.
#[local] Hint Resolve stays_down_log : down.

Lemma stays_down_map_base (m : monitor_id) (flag : bool) :
  (m = Camera -> flag = false) ->
  steps stays_down
        (modify (map_base m (fun b => mkMonitor flag (_thread b)))).
Proof.
  intros Hf. apply stays_down_modify. intros s. unfold running_of.
  destruct m; cbn.
  - rewrite (Hf eq_refl). destruct (camera_sentinel s); reflexivity.
  - tauto.
Qed.

Lemma stays_down_stop_base (me : tid) (m : monitor_id) :
  steps stays_down (SecurityMonitorM.stop me m).
Proof.
  unfold SecurityMonitorM.stop, SecurityMonitorM.join. down_steps.
  apply stays_down_map_base. reflexivity.
Qed.
#[local] Hint Resolve stays_down_stop_base : down.

Lemma stays_down_release_cap : steps stays_down CameraSentinel.release_cap.
Proof.
  apply stays_down_modify. intros s. unfold running_of. cbn.
  destruct (camera_sentinel s); tauto.
Qed.
#[local] Hint Resolve stays_down_release_cap : down.

Lemma stays_down_on_vault {A} (m : M GhostProtocolVault.world A)
  (o : GhostProtocolVault.t) : steps stays_down (on_vault m o).
Proof.
  intros s. destruct (on_vault_final m o s) as (v & r & ->). intros H. exact H.
Qed.
#[local] Hint Resolve stays_down_on_vault : down.

Lemma stays_down_gui_call (c : gui_call) : steps stays_down (Gui.call c).
Proof. unfold Gui.call. down_steps. Qed.
#[local] Hint Resolve stays_down_gui_call : down.

Lemma stays_down_os_exit {A} (c : Z) : steps stays_down (@os_exit A c).
Proof. intros s H. exact H. Qed.
#[local] Hint Resolve stays_down_os_exit : down.

Lemma stays_down_after_camera_stop (me : tid) :
  steps stays_down (after_camera_stop me).
Proof. unfold after_camera_stop. down_steps. Qed.

Lemma final_bind {A B} (m : M Sys A) (k : A -> M Sys B) (s : Sys) :
  (exists a s1, m s = Ok a s1 /\ final (bind m k s) = final (k a s1))
  \/ final (bind m k s) = final (m s).
Proof.
  unfold bind. destruct (m s) as [a s1 | e s1 | c s1]; eauto.
Qed.

Lemma ends_down_then {A B} (m : M Sys A) (k : A -> M Sys B) :
  ends_down m -> (forall a, steps stays_down (k a)) -> ends_down (bind m k).
Proof.
  intros Hm Hk s. destruct (final_bind m k s) as [(a & s1 & E & ->) | ->].
  - apply Hk. specialize (Hm s). rewrite E in Hm. exact Hm.
  - apply Hm.
Qed.

Lemma ends_down_stop_camera (me : tid) : ends_down (CameraSentinel.stop me).
Proof.
  unfold CameraSentinel.stop. apply ends_down_then.
  2: { intros _. apply stays_down_release_cap. }
  intros s. unfold SecurityMonitorM.stop, log.
  rewrite bind_modify, bind_modify.
  set (s1 := map_base Camera _ _).
  assert (H1 : running_of Camera s1 = false).
  { subst s1. unfold running_of. cbn. destruct (camera_sentinel s); reflexivity. }
  revert H1. generalize s1. clear s1.
  change (steps stays_down
            (th <- gets (fun s0 => match get_base Camera s0 with
                                   | Some b => _thread b
                                   | None => None
                                   end) ;;
             match th with
             | Some t => SecurityMonitorM.join me Camera t
             | None => ret tt
             end)).
  unfold SecurityMonitorM.join. down_steps.
Qed.

(** The panic sequence regrouped around the stopping of the camera. *)
Lemma trigger_panic_unfold (me : tid) (s : Sys) :
  _panic_triggered s = false ->
  _trigger_panic me s
  = ((match camera_sentinel s with
      | Some _ => CameraSentinel.stop me
      | None => ret tt
      end) ;; after_camera_stop me)
      (set_panic_triggered true (set_trace (trace s ++ [EvPanicCall me]) s)).
Proof.
  intros Hf. unfold _trigger_panic, log. rewrite bind_modify, bind_gets.
  cbn [_panic_triggered set_trace]. rewrite Hf, bind_modify.
  unfold _stop_monitors, after_camera_stop.
  rewrite bind_assoc, bind_gets. cbn [camera_sentinel set_panic_triggered set_trace].
  rewrite !bind_assoc. reflexivity.
Qed.

(** A call of the panic trigger that finds the flag set returns at
    once. *)
Lemma trigger_panic_fired (me : tid) (s : Sys) :
  _panic_triggered s = true ->
  _trigger_panic me s
  = Ok tt (set_trace (trace s ++ [EvPanicCall me]) s).
Proof.
  intros Hf. unfold _trigger_panic, log. rewrite bind_modify, bind_gets.
  cbn [_panic_triggered set_trace]. rewrite Hf. reflexivity.
Qed.

(** A call of the panic trigger that finds the flag unset leaves the
    camera worker's [_running] flag down, however the call ends. *)
Lemma camera_down_after_panic (me : tid) (s : Sys) :
  _panic_triggered s = false ->
  running_of Camera (final (_trigger_panic me s)) = false.
Proof.
  intros Hf. rewrite (trigger_panic_unfold me s Hf).
  set (s1 := set_panic_triggered _ _).
  destruct (camera_sentinel s) as [c|] eqn:Hc.
  - apply (ends_down_then (CameraSentinel.stop me) (fun _ => after_camera_stop me)).
    + apply ends_down_stop_camera.
    + intros _. apply stays_down_after_camera_stop.
  - rewrite bind_ret. apply stays_down_after_camera_stop.
    subst s1. unfold running_of. cbn. rewrite Hc. reflexivity.
Qed.

(** ** Which exceptions the panic trigger lets out *)

Lemma raises_only_ret {St A} (a : A) : raises_only_runtime (@ret St A a).
Proof. intros s e s' H. discriminate. Qed.

Lemma raises_only_gets {St A} (f : St -> A) : raises_only_runtime (gets f).
Proof. intros s e s' H. discriminate. Qed.

Lemma raises_only_modify {St} (f : St -> St) : raises_only_runtime (modify f).
Proof. intros s e s' H. discriminate. Qed.

Lemma raises_only_raise {St A} : raises_only_runtime (@raise St A RuntimeError).
Proof. intros s e s' [= <- _]. reflexivity. Qed.

Lemma raises_only_bind {St A B} (m : M St A) (k : A -> M St B) :
  raises_only_runtime m -> (forall a, raises_only_runtime (k a)) ->
  raises_only_runtime (bind m k).
Proof.
  intros Hm Hk s e s'. unfold bind.
  destruct (m s) as [a s1 | e1 s1 | c s1] eqn:E.
  - apply Hk.
  - intros [= <- _]. eapply Hm, E.
  - discriminate.
Qed.

Lemma raises_only_try {St A} (body : M St A) (handler : exn -> M St A) :
  raises_only_runtime body -> (forall e, raises_only_runtime (handler e)) ->
  raises_only_runtime (try_except body handler).
Proof.
  intros Hb Hh s e s'. unfold try_except.
  destruct (body s) as [a s1 | e1 s1 | c s1] eqn:E; try discriminate.
  destruct (is_Exception e1).
  - apply Hh.
  - intros [= <- _]. eapply Hb, E.
Qed.

Create HintDb raises discriminated.

Ltac raises_steps :=
  repeat first
    [ solve [auto with raises nocore]
    | apply raises_only_ret
    | apply raises_only_gets
    | apply raises_only_modify
    | apply raises_only_raise
    | apply raises_only_bind; [|intros ?]
    | apply raises_only_try; [|intros ?]
    | match goal with
      | |- raises_only_runtime (match ?x with _ => _ end) => destruct x
      | |- raises_only_runtime (if ?x then _ else _) => destruct x
      end ].

Lemma nuke_memory_returns : returns GhostProtocolVault.nuke_memory.
Proof.
  intros w. destruct (GhostProtocolVault._nuked (GhostProtocolVault.self w)) eqn:Hn.
  - exists tt, w. apply VaultFacts.nuke_memory_nuked, Hn.
  - destruct (VaultFacts.nuke_memory_cases w Hn) as (w' & E & _).
    exists tt, w'. exact E.
Qed.

Lemma raises_only_nuke (o : GhostProtocolVault.t) :
  raises_only_runtime (on_vault GhostProtocolVault.nuke_memory o).
Proof.
  intros s e s'. unfold on_vault.
  destruct (nuke_memory_returns (GhostProtocolVault.mkWorld o (sys_rng s)))
    as (a & w' & ->).
  discriminate.
Qed.
#[local] Hint Resolve raises_only_nuke : raises.

Lemma raises_only_os_exit {A} (c : Z) : raises_only_runtime (@os_exit A c).
Proof. intros s e s' H. discriminate. Qed.
#[local] Hint Resolve raises_only_os_exit : raises.

Lemma trigger_panic_raises_only (me : tid) :
  raises_only_runtime (_trigger_panic me).
Proof.
  unfold _trigger_panic, _stop_monitors, CameraSentinel.stop,
    CameraSentinel.release_cap, map_camera, SecurityMonitorM.stop,
    SecurityMonitorM.join, Gui.call, log.
  raises_steps.
Qed.
End PanicDown.

(** ** The camera sentinel *)

Module CameraFacts.
Import GhostProtocol InterfereFacts PanicFacts PanicDown.

Lemma camera_call_status_spec (key value : string) (s : Sys) :
  exists s' l,
    CameraSentinel.call_status _update_status key value s = Ok tt s'
    /\ trace s' = trace s ++ EvStatus key value :: l
    /\ monitor_events l = []
    /\ camera_sentinel s' = camera_sentinel s
    /\ _panic_triggered s' = _panic_triggered s.
Proof.
  unfold CameraSentinel.call_status, log.
  rewrite bind_modify, update_status_spec.
  destruct (gui_accepts _); eexists; eexists; (split; [reflexivity|]); cbn.
  - rewrite <- app_assoc. repeat split; reflexivity.
  - instantiate (1 := []). repeat split; reflexivity.
Qed.

Lemma call_blur_spec (blur : bool) (s : Sys) :
  exists s' l,
    CameraSentinel.call_blur _set_blur blur s = Ok tt s'
    /\ trace s' = trace s ++ EvBlur blur :: l
    /\ monitor_events l = []
    /\ camera_sentinel s' = camera_sentinel s
    /\ _panic_triggered s' = _panic_triggered s.
Proof.
  unfold CameraSentinel.call_blur, log. rewrite bind_modify, set_blur_spec.
  destruct (gui_accepts _); eexists; eexists; (split; [reflexivity|]); cbn.
  - rewrite <- app_assoc. repeat split; reflexivity.
  - instantiate (1 := []). repeat split; reflexivity.
Qed.

Lemma same_camera_same_running (s s' : Sys) :
  camera_sentinel s' = camera_sentinel s ->
  running_of Camera s' = running_of Camera s.
Proof. unfold running_of. cbn. intros ->. reflexivity. Qed.

(** A status call followed by a blur call. *)
Lemma status_then_blur (value : string) (blur : bool) (s : Sys) :
  exists s' l,
    (CameraSentinel.call_status _update_status "camera" value ;;
     CameraSentinel.call_blur _set_blur blur) s = Ok tt s'
    /\ trace s' = trace s ++ l
    /\ monitor_events l = [EvStatus "camera" value; EvBlur blur]
    /\ camera_sentinel s' = camera_sentinel s.
Proof.
  destruct (camera_call_status_spec "camera" value s)
    as (s1 & l1 & E1 & Ht1 & Hq1 & Hc1 & _).
  destruct (call_blur_spec blur s1) as (s2 & l2 & E2 & Ht2 & Hq2 & Hc2 & _).
  exists s2, (EvStatus "camera" value :: l1 ++ EvBlur blur :: l2).
  rewrite (bind_ok _ _ _ _ _ E1), E2, Ht2, Ht1, Hc2, Hc1.
  repeat split.
  - rewrite <- app_assoc. reflexivity.
  - mev. rewrite Hq1, Hq2. reflexivity.
Qed.

Lemma body_absent (me : tid) (last : nat) (s : Sys) :
  exists s' l,
    CameraSentinel.loop_body _trigger_panic _update_status _set_blur me last
                             (Faces 0) s
    = Ok (CameraSentinel.Continue 0) s'
    /\ trace s' = trace s ++ l
    /\ monitor_events l
       = (if (last =? 0)%nat then []
          else [EvStatus "camera" "LOCKED"; EvBlur true])
    /\ camera_sentinel s' = camera_sentinel s.
Proof.
  unfold CameraSentinel.loop_body, try_except.
  destruct (last =? 0)%nat; cbn [negb].
  - exists s, []. rewrite app_nil_r. auto.
  - destruct (status_then_blur "LOCKED" true s) as (s' & l & E & Ht & Hl & Hc).
    exists s', l. rewrite (bind_ok _ _ _ _ _ E). auto.
Qed.

Lemma body_present (me : tid) (last : nat) (s : Sys) :
  exists s' l,
    CameraSentinel.loop_body _trigger_panic _update_status _set_blur me last
                             (Faces 1) s
    = Ok (CameraSentinel.Continue 1) s'
    /\ trace s' = trace s ++ l
    /\ monitor_events l
       = (if (last =? 1)%nat then []
          else [EvStatus "camera" "ARMED"; EvBlur false])
    /\ camera_sentinel s' = camera_sentinel s.
Proof.
  unfold CameraSentinel.loop_body, try_except.
  destruct (last =? 1)%nat; cbn [negb].
  - exists s, []. rewrite app_nil_r. auto.
  - destruct (status_then_blur "ARMED" false s) as (s' & l & E & Ht & Hl & Hc).
    exists s', l. rewrite (bind_ok _ _ _ _ _ E). auto.
Qed.

(** On two faces or more the body reports, calls the panic trigger
    once, and the loop does not go on. *)
Lemma body_intrusion (me : tid) (last n : nat) (s : Sys) :
  let r := CameraSentinel.loop_body _trigger_panic _update_status _set_blur
                                    me last (Faces (S (S n))) s in
  exists l,
    trace (final r) = trace s ++ l
    /\ monitor_events l = [EvStatus "camera" "BREACH";
                           EvStatus "threat" "CRITICAL";
                           EvPanicCall me]
    /\ intrusion_end last r.
Proof.
  cbv zeta. unfold CameraSentinel.loop_body, try_except.
  destruct (camera_call_status_spec "camera" "BREACH" s)
    as (s1 & l1 & E1 & Ht1 & Hq1 & _ & Hf1).
  destruct (camera_call_status_spec "threat" "CRITICAL" s1)
    as (s2 & l2 & E2 & Ht2 & Hq2 & _ & Hf2).
  rewrite (bind_ok _ _ _ _ _ E1), (bind_ok _ _ _ _ _ E2).
  destruct (trigger_panic_trace me s2) as (l3 & Ht3 & Hq3).
  exists (EvStatus "camera" "BREACH" :: l1
          ++ EvStatus "threat" "CRITICAL" :: l2 ++ EvPanicCall me :: l3).
  assert (Htr : trace (final (_trigger_panic me s2))
                = trace s ++ EvStatus "camera" "BREACH" :: l1
                  ++ EvStatus "threat" "CRITICAL" :: l2 ++ EvPanicCall me :: l3).
  { rewrite Ht3, Ht2, Ht1, <- !app_assoc. reflexivity. }
  assert (Hev : monitor_events
                  (EvStatus "camera" "BREACH" :: l1
                   ++ EvStatus "threat" "CRITICAL" :: l2 ++ EvPanicCall me :: l3)
                = [EvStatus "camera" "BREACH"; EvStatus "threat" "CRITICAL";
                   EvPanicCall me]).
  { mev. rewrite Hq1, Hq2, Hq3. reflexivity. }
  destruct (_trigger_panic me s2) as [[] s3 | e s3 | c s3] eqn:Ep.
  - rewrite (bind_ok _ _ _ _ _ Ep). cbn in Htr |- *. auto.
  - rewrite (bind_exc _ _ _ _ _ Ep).
    rewrite (trigger_panic_raises_only me s2 e s3 Ep).
    assert (Hd : running_of Camera s3 = false).
    { destruct (_panic_triggered s2) eqn:Hf.
      - rewrite (trigger_panic_fired me s2 Hf) in Ep. discriminate.
      - pose proof (camera_down_after_panic me s2 Hf) as Hd.
        rewrite Ep in Hd. exact Hd. }
    cbn in Htr |- *. auto.
  - rewrite (bind_halt _ _ _ _ _ Ep). cbn in Htr |- *. auto.
Qed.

#[local] Abbreviation watch := (CameraSentinel.watch _trigger_panic _update_status _set_blur).
#[local] Abbreviation loop_body :=
  (CameraSentinel.loop_body _trigger_panic _update_status _set_blur).

(** The body reports only on a change of class, and hands on the count
    it classified. *)
Lemma body_edge (me : tid) (last : nat) (f : frame) (s : Sys) :
  (last <= 1)%nat ->
  let r := loop_body me last f s in
  exists l,
    trace (final r) = trace s ++ l
    /\ (monitor_events l <> [] ->
        exists n, f = Faces n /\ classify n <> classify last)
    /\ match r with
       | Ok (CameraSentinel.Continue last') s' =>
           (last' <= 1)%nat
           /\ (last' = previous last [f] \/ running_of Camera s' = false)
       | _ => True
       end.
Proof.
  intros Hlast. cbv zeta. destruct f as [|e|[|[|n]]].
  - exists []. rewrite app_nil_r. cbn. intuition congruence.
  - exists []. rewrite app_nil_r. unfold CameraSentinel.loop_body, try_except, raise.
    destruct (is_Exception e); cbn; intuition congruence.
  - destruct (body_absent me last s) as (s' & l & E & Ht & Hl & _).
    exists l. rewrite E. cbn [final]. split; [exact Ht|]. split.
    + rewrite Hl. destruct last as [|last]; cbn; [congruence|].
      intros _. exists 0%nat. split; [reflexivity|].
      destruct last; discriminate.
    + cbn. auto.
  - destruct (body_present me last s) as (s' & l & E & Ht & Hl & _).
    exists l. rewrite E. cbn [final]. split; [exact Ht|]. split.
    + rewrite Hl. destruct last as [|[|last]]; cbn; try congruence.
      * intros _. exists 1%nat. split; [reflexivity | discriminate].
      * intros _. exists 1%nat. split; [reflexivity | discriminate].
    + cbn. auto.
  - destruct (body_intrusion me last n s) as (l & Ht & Hl & He).
    exists l. split; [exact Ht|]. split.
    + intros _. exists (S (S n)). split; [reflexivity|].
      destruct last as [|[|last]]; [discriminate | discriminate | lia].
    + destruct (loop_body me last (Faces (S (S n))) s) as [[last'|] s' | |];
        try exact I.
      destruct He as [-> Hd]. auto.
Qed.

(** With its flag down the loop reads no further sample. *)
Lemma watch_down (me : tid) (last : nat) (ticks : list (tick frame)) (s : Sys) :
  running_of Camera s = false ->
  exists e s',
    watch me last ticks s = Ok e s' /\ trace s' = trace s
    /\ (ticks <> [] -> e = Exited).
Proof.
  intros Hd. destruct ticks as [|tk rest]; cbn [CameraSentinel.watch].
  - exists Pending, s. intuition congruence.
  - destruct (interfere_spec (before tk) s) as (s1 & E1 & [Ht1 _ _ Hd1] & _).
    rewrite (bind_ok _ _ _ _ _ E1). unfold is_running. rewrite bind_gets.
    fold (running_of Camera s1). rewrite (Hd1 Camera Hd). cbn.
    exists Exited, s1. auto.
Qed.

Lemma previous_cons (last : nat) (f : frame) (samples : list frame) :
  previous last (f :: samples) = previous (previous last [f]) samples.
Proof. destruct f; reflexivity. Qed.

(** One more sample adds events only if its class differs from the
    class of the sample classified before it. *)
Lemma watch_edge (me : tid) (pre : list (tick frame)) (x : tick frame)
  (last : nat) (s : Sys) :
  (last <= 1)%nat ->
  exists l1 l2,
    trace (final (watch me last pre s)) = trace s ++ l1
    /\ trace (final (watch me last (pre ++ [x]) s)) = trace s ++ l1 ++ l2
    /\ (monitor_events l2 <> [] ->
        exists n, sample x = Faces n
                  /\ classify n <> classify (previous last (map (@sample frame) pre))).
Proof.
  revert last s. induction pre as [|tk pre IH]; intros last s Hlast;
    cbn [app map CameraSentinel.watch].
  - exists []. unfold ret at 1. cbn [final app]. rewrite app_nil_r.
    destruct (interfere_spec (before x) s) as (s1 & E1 & [Ht1 _ _ _] & _).
    rewrite (bind_ok _ _ _ _ _ E1). unfold is_running. rewrite bind_gets.
    destruct (match get_base Camera s1 with Some b => _running b | None => false end);
      cbn [negb].
    2: { exists []. unfold ret. cbn [final]. rewrite app_nil_r, Ht1. cbn.
         intuition congruence. }
    destruct (body_edge me last (sample x) s1 Hlast) as (l & Ht & Hl & Hr).
    exists l. split; [reflexivity|]. split; [|exact Hl].
    rewrite <- Ht1, <- Ht. unfold bind.
    destruct (loop_body me last (sample x) s1) as [[last'|] s2 | e s2 | c s2];
      reflexivity.
  - destruct (interfere_spec (before tk) s) as (s1 & E1 & [Ht1 _ _ _] & _).
    rewrite !(bind_ok _ _ _ _ _ E1). unfold is_running. rewrite !bind_gets.
    destruct (match get_base Camera s1 with Some b => _running b | None => false end);
      cbn [negb].
    2: { exists [], []. unfold ret. cbn [final]. rewrite !app_nil_r, Ht1. cbn.
         intuition congruence. }
    destruct (body_edge me last (sample tk) s1 Hlast) as (l & Ht & Hl & Hr).
    rewrite <- Ht1. rewrite previous_cons.
    destruct (loop_body me last (sample tk) s1) as [[last'|] s2 | e s2 | c s2] eqn:Eb;
      [ rewrite !(bind_ok _ _ _ _ _ Eb) | rewrite !(bind_ok _ _ _ _ _ Eb)
      | rewrite !(bind_exc _ _ _ _ _ Eb) | rewrite !(bind_halt _ _ _ _ _ Eb) ];
      cbn [final] in Ht.
    + destruct Hr as [Hle [-> | Hd]].
      * destruct (IH (previous last [sample tk]) s2 Hle)
          as (l1 & l2 & H1 & H2 & H3).
        exists (l ++ l1), l2. rewrite H1, H2, Ht, <- !app_assoc. auto.
      * destruct (watch_down me last' pre s2 Hd) as (e1 & s3 & E3 & Ht3 & _).
        destruct (watch_down me last' (pre ++ [x]) s2 Hd)
          as (e2 & s4 & E4 & Ht4 & _).
        exists l, []. rewrite E3, E4. cbn [final].
        rewrite Ht3, Ht4, Ht, app_nil_r. cbn. intuition congruence.
    + exists l, []. unfold ret. cbn [final]. rewrite Ht, app_nil_r. cbn.
      intuition congruence.
    + exists l, []. cbn [final]. rewrite Ht, app_nil_r. cbn.
      intuition congruence.
    + exists l, []. cbn [final]. rewrite Ht, app_nil_r. cbn.
      intuition congruence.
Qed.

Lemma standby_spec (ticks : list (tick frame)) (s : Sys) :
  exists e s',
    CameraSentinel.standby ticks s = Ok e s' /\ trace s' = trace s.
Proof.
  revert s. induction ticks as [|tk rest IH]; intros s;
    cbn [CameraSentinel.standby].
  - exists Pending, s. auto.
  - destruct (interfere_spec (before tk) s) as (s1 & E1 & [Ht1 _ _ _] & _).
    rewrite (bind_ok _ _ _ _ _ E1). unfold is_running. rewrite bind_gets.
    destruct (match get_base Camera s1 with Some b => _running b | None => false end).
    + destruct (IH s1) as (e & s' & E & Ht). exists e, s'.
      rewrite E, Ht, Ht1. auto.
    + exists Exited, s1. auto.
Qed.

(** Leaving the loop releases the capture and adds no event. *)
Lemma release_on_exit (m : M Sys loop_end) (s : Sys) :
  let r := (e <- m ;;
            match e with
            | Exited => CameraSentinel.release_cap ;; ret Exited
            | Pending => ret Pending
            end) s in
  trace (final r) = trace (final (m s)) /\ (stopped (m s) -> stopped r).
Proof.
  cbv zeta. unfold bind. destruct (m s) as [[|] s1 | e s1 | c s1]; cbn; auto.
Qed.

(** The whole worker, one sample more. *)
Lemma worker_edge (probe : camera_probe) (pre : list (tick frame))
  (x : tick frame) (s : Sys) :
  exists l1 l2,
    trace (final (camera_worker probe pre s)) = trace s ++ l1
    /\ trace (final (camera_worker probe (pre ++ [x]) s)) = trace s ++ l1 ++ l2
    /\ (monitor_events l2 <> [] ->
        exists n, sample x = Faces n
                  /\ classify n
                     <> classify (previous 1 (map (@sample frame) pre))).
Proof.
  unfold camera_worker, CameraSentinel._monitor_loop.
  assert (Hinit : exists l0,
             trace (final (CameraSentinel._initialize_camera
                             _update_status probe s)) = trace s ++ l0).
  { unfold CameraSentinel._initialize_camera, try_except.
    destruct probe as [| |e|]; unfold raise, ret; cbn [final].
    - exists []. rewrite app_nil_r. reflexivity.
    - destruct (camera_call_status_spec "camera" "NO CAMERA"
                  (set_camera_sentinel
                     (option_map (fun o => mkCamera (cam_base o) (Some false)
                                                    (_camera_available o))
                                 (camera_sentinel s)) s))
        as (s1 & l1 & E1 & Ht1 & _).
      unfold CameraSentinel.set_cap, map_camera. rewrite bind_modify.
      rewrite (bind_ok _ _ _ _ _ E1). eexists. exact Ht1.
    - destruct (is_Exception e); cbn [final].
      + destruct (camera_call_status_spec "camera" "ERROR" s)
          as (s1 & l1 & E1 & Ht1 & _).
        rewrite (bind_ok _ _ _ _ _ E1). eexists. exact Ht1.
      + exists []. rewrite app_nil_r. reflexivity.
    - unfold CameraSentinel.set_cap, CameraSentinel.set_camera_available,
        map_camera. rewrite !bind_modify.
      match goal with
      | |- context [bind (CameraSentinel.call_status _ _ _) _ ?s0] =>
          destruct (camera_call_status_spec "camera" "ARMED" s0)
            as (s1 & l1 & E1 & Ht1 & _)
      end.
      rewrite (bind_ok _ _ _ _ _ E1). eexists. exact Ht1. }
  destruct Hinit as (l0 & Ht0).
  destruct (CameraSentinel._initialize_camera _update_status probe s)
    as [ok s0 | e s0 | c s0] eqn:Ei;
    [ rewrite !(bind_ok _ _ _ _ _ Ei) | rewrite !(bind_exc _ _ _ _ _ Ei)
    | rewrite !(bind_halt _ _ _ _ _ Ei) ]; cbn [final] in Ht0 |- *.
  - destruct ok; cbn [negb].
    + destruct (watch_edge (Worker Camera) pre x 1 s0 (le_n 1))
        as (l1 & l2 & H1 & H2 & H3).
      exists (l0 ++ l1), l2.
      rewrite (proj1 (release_on_exit _ s0)), (proj1 (release_on_exit _ s0)).
      rewrite H1, H2, Ht0, <- !app_assoc. auto.
    + destruct (standby_spec pre s0) as (e1 & s1 & E1 & Ht1).
      destruct (standby_spec (pre ++ [x]) s0) as (e2 & s2 & E2 & Ht2).
      exists l0, []. rewrite E1, E2. cbn [final].
      rewrite Ht1, Ht2, Ht0, app_nil_r. cbn. intuition congruence.
  - exists l0, []. rewrite app_nil_r. cbn. intuition congruence.
  - exists l0, []. rewrite app_nil_r. cbn. intuition congruence.
Qed.

(** One iteration on a tick that no other thread precedes. *)
Lemma watch_quiet_step (me : tid) (last : nat) (f : frame)
  (rest : list (tick frame)) (s : Sys) :
  running_of Camera s = true ->
  watch me last (Samples.quiet f :: rest) s
  = (r <- loop_body me last f ;;
     match r with
     | CameraSentinel.Continue last' => watch me last' rest
     | CameraSentinel.Break => ret Exited
     end) s.
Proof.
  intros Hrun. cbn [CameraSentinel.watch Samples.quiet before sample interfere].
  rewrite bind_ret. unfold is_running. rewrite bind_gets.
  fold (running_of Camera s). rewrite Hrun. reflexivity.
Qed.

(** Opening the camera reports "ARMED" and leaves the worker running. *)
Lemma initialize_opened (s : Sys) :
  exists s' l,
    CameraSentinel._initialize_camera _update_status CameraOpened s = Ok true s'
    /\ trace s' = trace s ++ l
    /\ monitor_events l = [EvStatus "camera" "ARMED"]
    /\ running_of Camera s' = running_of Camera s.
Proof.
  unfold CameraSentinel._initialize_camera, try_except,
    CameraSentinel.set_cap, CameraSentinel.set_camera_available, map_camera.
  rewrite !bind_modify.
  match goal with
  | |- context [bind (CameraSentinel.call_status _ _ _) _ ?s0] =>
      destruct (camera_call_status_spec "camera" "ARMED" s0)
        as (s1 & l1 & E1 & Ht1 & Hq1 & Hc1 & _)
  end.
  rewrite (bind_ok _ _ _ _ _ E1). exists s1, (EvStatus "camera" "ARMED" :: l1).
  split; [reflexivity|]. split; [exact Ht1|]. split.
  - mev. rewrite Hq1. reflexivity.
  - rewrite (same_camera_same_running _ _ Hc1). unfold running_of. cbn.
    destruct (camera_sentinel s); reflexivity.
Qed.

(** The samples 1, 0, 1, 2, then anything. *)
Lemma worker_sequence (post : list (tick frame)) (s : Sys) :
  running_of Camera s = true ->
  let r := camera_worker CameraOpened
             (map Samples.quiet [Faces 1; Faces 0; Faces 1; Faces 2] ++ post)
             s in
  exists l,
    trace (final r) = trace s ++ l
    /\ monitor_events l = [EvStatus "camera" "ARMED";
                           EvStatus "camera" "LOCKED"; EvBlur true;
                           EvStatus "camera" "ARMED"; EvBlur false;
                           EvStatus "camera" "BREACH";
                           EvStatus "threat" "CRITICAL";
                           EvPanicCall (Worker Camera)]
    /\ (post <> [] -> stopped r).
Proof.
  intros Hrun. cbv zeta. unfold camera_worker, CameraSentinel._monitor_loop.
  destruct (initialize_opened s) as (s0 & l0 & E0 & Ht0 & Hl0 & Hr0).
  rewrite (bind_ok _ _ _ _ _ E0). cbn [negb map app].
  match goal with
  | |- context [bind ?m _ s0] => destruct (release_on_exit m s0) as [Htr Hst]
  end.
  rewrite Htr. clear Htr.
  assert (Hw : exists l,
             trace (final (watch (Worker Camera) 1
                             (Samples.quiet (Faces 1) :: Samples.quiet (Faces 0)
                              :: Samples.quiet (Faces 1)
                              :: Samples.quiet (Faces 2) :: post) s0))
             = trace s0 ++ l
             /\ monitor_events l = [EvStatus "camera" "LOCKED"; EvBlur true;
                                    EvStatus "camera" "ARMED"; EvBlur false;
                                    EvStatus "camera" "BREACH";
                                    EvStatus "threat" "CRITICAL";
                                    EvPanicCall (Worker Camera)]
             /\ (post <> [] ->
                 stopped (watch (Worker Camera) 1
                            (Samples.quiet (Faces 1) :: Samples.quiet (Faces 0)
                             :: Samples.quiet (Faces 1)
                             :: Samples.quiet (Faces 2) :: post) s0))).
  { rewrite <- Hr0 in Hrun.
    rewrite (watch_quiet_step _ _ _ _ _ Hrun).
    destruct (body_present (Worker Camera) 1 s0) as (s1 & l1 & E1 & Ht1 & Hl1 & Hc1).
    rewrite (bind_ok _ _ _ _ _ E1).
    rewrite <- (same_camera_same_running _ _ Hc1) in Hrun.
    rewrite (watch_quiet_step _ _ _ _ _ Hrun).
    destruct (body_absent (Worker Camera) 1 s1) as (s2 & l2 & E2 & Ht2 & Hl2 & Hc2).
    rewrite (bind_ok _ _ _ _ _ E2).
    rewrite <- (same_camera_same_running _ _ Hc2) in Hrun.
    rewrite (watch_quiet_step _ _ _ _ _ Hrun).
    destruct (body_present (Worker Camera) 0 s2) as (s3 & l3 & E3 & Ht3 & Hl3 & Hc3).
    rewrite (bind_ok _ _ _ _ _ E3).
    rewrite <- (same_camera_same_running _ _ Hc3) in Hrun.
    rewrite (watch_quiet_step _ _ _ _ _ Hrun).
    destruct (body_intrusion (Worker Camera) 1 0 s3) as (l4 & Ht4 & Hl4 & He).
    cbn [Nat.eqb] in Hl1, Hl2, Hl3.
    assert (Hpre : trace s3 = trace s0 ++ l1 ++ l2 ++ l3)
      by (rewrite Ht3, Ht2, Ht1, <- !app_assoc; reflexivity).
    assert (Hev : monitor_events (l1 ++ l2 ++ l3 ++ l4)
                  = [EvStatus "camera" "LOCKED"; EvBlur true;
                     EvStatus "camera" "ARMED"; EvBlur false;
                     EvStatus "camera" "BREACH";
                     EvStatus "threat" "CRITICAL";
                     EvPanicCall (Worker Camera)])
      by (mev; rewrite Hl1, Hl2, Hl3, Hl4; reflexivity).
    exists (l1 ++ l2 ++ l3 ++ l4). split; [|split; [exact Hev|]].
    - destruct (loop_body (Worker Camera) 1 (Faces 2) s3)
        as [[last'|] s4 | e s4 | c s4] eqn:Eb;
        [ rewrite (bind_ok _ _ _ _ _ Eb) | rewrite (bind_ok _ _ _ _ _ Eb)
        | rewrite (bind_exc _ _ _ _ _ Eb) | rewrite (bind_halt _ _ _ _ _ Eb) ];
        cbn [final] in Ht4; unfold ret; cbn [final].
      + destruct He as [_ Hd].
        destruct (watch_down (Worker Camera) last' post s4 Hd)
          as (e5 & s5 & E5 & Ht5 & _).
        rewrite E5. cbn [final]. rewrite Ht5, Ht4, Hpre, <- !app_assoc.
        reflexivity.
      + rewrite Ht4, Hpre, <- !app_assoc. reflexivity.
      + rewrite Ht4, Hpre, <- !app_assoc. reflexivity.
      + rewrite Ht4, Hpre, <- !app_assoc. reflexivity.
    - intros Hpost.
      destruct (loop_body (Worker Camera) 1 (Faces 2) s3)
        as [[last'|] s4 | e s4 | c s4] eqn:Eb;
        [ rewrite (bind_ok _ _ _ _ _ Eb) | rewrite (bind_ok _ _ _ _ _ Eb)
        | rewrite (bind_exc _ _ _ _ _ Eb) | rewrite (bind_halt _ _ _ _ _ Eb) ];
        try exact I.
      destruct He as [_ Hd].
      destruct (watch_down (Worker Camera) last' post s4 Hd)
        as (e5 & s5 & E5 & _ & Hex).
      rewrite E5, (Hex Hpost). exact I. }
  destruct Hw as (l & Ht & Hl & Hs).
  exists (l0 ++ l). rewrite Ht, Ht0, <- app_assoc. split; [reflexivity|].
  split.
  - mev. rewrite Hl0, Hl. reflexivity.
  - intros Hpost. apply Hst, Hs, Hpost.
Qed.
End CameraFacts.

Module CameraClaims.
Import GhostProtocol CameraFacts.

(** C4. The presence monitor is edge-triggered: a further sample adds
    status or blur events only when it is a face count whose class
    (absent, present, intrusion) differs from that of the sample
    classified before it, the state before the first sample being one
    face.  On the samples 1, 0, 1, 2 the monitor reports ARMED, LOCKED
    with blur on, ARMED with blur off, BREACH and threat CRITICAL, calls
    the panic trigger once, and reads none of the samples that follow. *)
Theorem presence_monitor_edge_triggered :
  (forall (probe : camera_probe) (pre : list (tick frame)) (x : tick frame)
          (s : Sys),
      exists l1 l2,
        trace (final (camera_worker probe pre s)) = trace s ++ l1
        /\ trace (final (camera_worker probe (pre ++ [x]) s))
           = trace s ++ l1 ++ l2
        /\ (monitor_events l2 <> [] ->
            exists n, sample x = Faces n
                      /\ classify n
                         <> classify (previous 1 (map (@sample frame) pre))))
  /\ (forall (post : list (tick frame)) (s : Sys),
         running_of Camera s = true ->
         let r := camera_worker CameraOpened
                    (map Samples.quiet [Faces 1; Faces 0; Faces 1; Faces 2]
                     ++ post) s in
         exists l,
           trace (final r) = trace s ++ l
           /\ monitor_events l = [EvStatus "camera" "ARMED";
                                  EvStatus "camera" "LOCKED"; EvBlur true;
                                  EvStatus "camera" "ARMED"; EvBlur false;
                                  EvStatus "camera" "BREACH";
                                  EvStatus "threat" "CRITICAL";
                                  EvPanicCall (Worker Camera)]
           /\ (post <> [] -> stopped r)).
Proof.
  split.
  - exact worker_edge.
  - exact worker_sequence.
Qed.

Lemma presence_monitor_edge_triggered_witness :
  let r := camera_worker CameraOpened
             (map Samples.quiet [Faces 1; Faces 0; Faces 1; Faces 2]
              ++ [Samples.quiet (Faces 0); Samples.quiet (Faces 3)])
             Samples.booted in
  exists l,
    trace (final r) = trace Samples.booted ++ l
    /\ monitor_events l = [EvStatus "camera" "ARMED";
                           EvStatus "camera" "LOCKED"; EvBlur true;
                           EvStatus "camera" "ARMED"; EvBlur false;
                           EvStatus "camera" "BREACH";
                           EvStatus "threat" "CRITICAL";
                           EvPanicCall (Worker Camera)]
    /\ ([Samples.quiet (Faces 0); Samples.quiet (Faces 3)] <> [] -> stopped r).
Proof.
  apply (proj2 presence_monitor_edge_triggered). reflexivity.
Defined.
End CameraClaims.

(** ** The bypass flag is read once *)

Module BypassFacts.
Import GhostProtocol PanicFacts.

Ltac erase_case :=
  let s := fresh "s" in
  intros s; destruct s as [? ? ? ? ? [?|] ? ? ?]; reflexivity.

Lemma res_equiv_trace {A} (r1 r2 : Res Sys A) :
  res_equiv r1 r2 -> trace (final r1) = trace (final r2).
Proof.
  destruct r1, r2; cbn; try contradiction; intros [_ H];
    apply (f_equal trace) in H; exact H.
Qed.

Lemma blind_ret {A} (a : A) : blind (ret a).
Proof. intros s1 s2 H. cbn. auto. Qed.

Lemma blind_raise {A} (e : exn) : blind (@raise Sys A e).
Proof. intros s1 s2 H. cbn. auto. Qed.

Lemma blind_gets {A} (f : Sys -> A) :
  (forall s, f s = f (erase s)) -> blind (gets f).
Proof.
  intros Hf s1 s2 H. cbn. split; [|exact H]. rewrite (Hf s1), (Hf s2), H.
  reflexivity.
Qed.

Lemma blind_modify (f : Sys -> Sys) :
  (forall s, erase (f s) = f (erase s)) -> blind (modify f).
Proof.
  intros Hf s1 s2 H. cbn. split; [reflexivity|]. rewrite !Hf, H. reflexivity.
Qed.

Lemma blind_bind {A B} (m : M Sys A) (k : A -> M Sys B) :
  blind m -> (forall a, blind (k a)) -> blind (bind m k).
Proof.
  intros Hm Hk s1 s2 H. unfold bind. specialize (Hm s1 s2 H).
  destruct (m s1), (m s2); cbn in Hm; try contradiction;
    destruct Hm as [<- He]; cbn; auto.
  apply Hk, He.
Qed.

Lemma blind_try {A} (body : M Sys A) (handler : exn -> M Sys A) :
  blind body -> (forall e, blind (handler e)) -> blind (try_except body handler).
Proof.
  intros Hb Hh s1 s2 H. unfold try_except. specialize (Hb s1 s2 H).
  destruct (body s1), (body s2); cbn in Hb; try contradiction;
    destruct Hb as [<- He]; cbn; auto.
  destruct (is_Exception e); cbn; auto. apply Hh, He.
Qed.

(** Branching on whether an object exists reads nothing of it. *)
Lemma blind_on_usb_guard {A} (m1 m2 : M Sys A) :
  blind m1 -> blind m2 ->
  blind (u <- gets usb_guard ;;
         match u with
         | Some _ => m1
         | None => m2
         end).
Proof.
  intros H1 H2 s1 s2 H. rewrite !bind_gets.
  assert (Hu : usb_guard (erase s1) = usb_guard (erase s2)) by (rewrite H; reflexivity).
  unfold erase in Hu. cbn in Hu.
  destruct (usb_guard s1), (usb_guard s2); try discriminate; auto.
Qed.

Lemma blind_on_vault {A} (m : M GhostProtocolVault.world A)
  (o : GhostProtocolVault.t) : blind (on_vault m o).
Proof.
  intros s1 s2 H. unfold on_vault.
  assert (Hr : sys_rng s1 = sys_rng s2)
    by (apply (f_equal sys_rng) in H; exact H).
  rewrite Hr.
  assert (He : forall v r, erase (set_sys_rng r (set_vault v s1))
                           = erase (set_sys_rng r (set_vault v s2))).
  { intros v r.
    change (set_sys_rng r (set_vault v (erase s1))
            = set_sys_rng r (set_vault v (erase s2))).
    rewrite H. reflexivity. }
  destruct (m _); cbn; auto.
Qed.

Create HintDb blindness discriminated.

Ltac blind_steps :=
  repeat first
    [ solve [auto with blindness nocore]
    | apply blind_ret
    | apply blind_raise
    | apply blind_on_usb_guard
    | apply blind_gets; erase_case
    | apply blind_modify; erase_case
    | apply blind_bind; [|intros ?]
    | apply blind_try; [|intros ?]
    | match goal with
      | |- blind (match ?x with _ => _ end) => destruct x
      | |- blind (if ?x then _ else _) => destruct x
      end ].

#[local] Hint Resolve blind_on_vault : blindness.

Lemma blind_log (e : event) : blind (log e).
Proof. unfold log. blind_steps. Qed.
#[local] Hint Resolve blind_log : blindness.

Lemma blind_map_base (m : monitor_id) (flag : bool) :
  blind (modify (map_base m (fun b => mkMonitor flag (_thread b)))).
Proof. destruct m; blind_steps. Qed.
#[local] Hint Resolve blind_map_base : blindness.

Lemma blind_os_exit {A} (c : Z) : blind (@os_exit A c).
Proof.
  intros s1 s2 H. cbn. split; [reflexivity|].
  change (set_trace (trace (erase s1) ++ [EvExit c]) (erase s1)
          = set_trace (trace (erase s2) ++ [EvExit c]) (erase s2)).
  rewrite H. reflexivity.
Qed.
#[local] Hint Resolve blind_os_exit : blindness.

Lemma blind_trigger_panic (me : tid) : blind (_trigger_panic me).
Proof.
  unfold _trigger_panic, _stop_monitors, CameraSentinel.stop,
    CameraSentinel.release_cap, map_camera, SecurityMonitorM.stop,
    SecurityMonitorM.join, Gui.call.
  blind_steps.
Qed.

Lemma blind_update_status (key value : string) :
  blind (_update_status key value).
Proof. unfold _update_status, Gui.call. blind_steps. Qed.

Lemma equiv_bind {A B} (m1 m2 : M Sys A) (k1 k2 : A -> M Sys B) (s1 s2 : Sys) :
  res_equiv (m1 s1) (m2 s2) ->
  (forall a t1 t2, erase t1 = erase t2 -> res_equiv (k1 a t1) (k2 a t2)) ->
  res_equiv (bind m1 k1 s1) (bind m2 k2 s2).
Proof.
  intros Hm Hk. unfold bind.
  destruct (m1 s1), (m2 s2); cbn in Hm; try contradiction;
    destruct Hm as [<- He]; cbn; auto.
Qed.

Lemma res_equiv_refl_on {A} (m : M Sys A) (s : Sys) :
  blind m -> res_equiv (m s) (m s).
Proof. intros H. apply H. reflexivity. Qed.

(** Other threads' calls, with and without the [set_bypass_mode] ones. *)
Lemma interfere_blind (acts : list ext_action) (s1 s2 : Sys) :
  erase s1 = erase s2 ->
  res_equiv (interfere acts s1)
            (interfere (filter (fun a => negb (is_set_bypass a)) acts) s2).
Proof.
  revert s1 s2. induction acts as [|a acts IH]; intros s1 s2 H;
    cbn [filter interfere].
  - cbn. auto.
  - destruct a as [m|b]; cbn [is_set_bypass negb interfere interfere_one].
    + apply equiv_bind.
      * apply blind_map_base, H.
      * intros _ t1 t2 Ht. apply IH, Ht.
    + unfold map_usb. rewrite bind_modify. apply IH. rewrite <- H.
      destruct s1 as [? ? ? ? ? [?|] ? ? ?]; reflexivity.
Qed.

Lemma blind_is_running (m : monitor_id) : blind (is_running m).
Proof. unfold is_running. destruct m; blind_steps. Qed.
#[local] Hint Resolve blind_is_running : blindness.

Lemma blind_usb_call_status (key value : string) :
  blind (USBGuard.call_status _update_status key value).
Proof.
  unfold USBGuard.call_status. apply blind_bind; [apply blind_log|].
  intros _. apply blind_update_status.
Qed.
#[local] Hint Resolve blind_usb_call_status : blindness.

Lemma blind_set_usb_present (b : bool) : blind (USBGuard.set_usb_present b).
Proof. unfold USBGuard.set_usb_present, map_usb. blind_steps. Qed.
#[local] Hint Resolve blind_set_usb_present : blindness.

Lemma blind_get_usb_present : blind USBGuard.get_usb_present.
Proof. unfold USBGuard.get_usb_present. blind_steps. Qed.
#[local] Hint Resolve blind_get_usb_present : blindness.

(** The polling loop behaves the same without the [set_bypass_mode]
    calls other threads make while it runs. *)
Lemma poll_blind (me : tid) (initial_state : bool) (ticks : list (tick Host))
  (s1 s2 : Sys) :
  erase s1 = erase s2 ->
  res_equiv
    (USBGuard.poll _trigger_panic _update_status me initial_state ticks s1)
    (USBGuard.poll _trigger_panic _update_status me initial_state
                   (map without_bypass_calls ticks) s2).
Proof.
  revert s1 s2. induction ticks as [|tk rest IH]; intros s1 s2 H;
    cbn [map USBGuard.poll without_bypass_calls before sample].
  - cbn. auto.
  - apply equiv_bind; [apply interfere_blind, H|]. intros _ t1 t2 Ht.
    apply equiv_bind; [apply blind_is_running, Ht|]. intros running u1 u2 Hu.
    destruct running; cbn [negb]; [|cbn; auto].
    destruct (initial_state
              && negb (USBGuard.check_ghost_key_present (sample tk))).
    + revert u1 u2 Hu.
      change (blind (USBGuard.call_status _update_status "usb" "REMOVED" ;;
                     USBGuard.call_status _update_status "threat" "CRITICAL" ;;
                     USBGuard.call_panic _trigger_panic me ;;
                     ret Exited)).
      unfold USBGuard.call_panic.
      pose proof (blind_trigger_panic me).
      blind_steps.
    + apply equiv_bind; [apply blind_get_usb_present, Hu|].
      intros present v1 v2 Hv.
      apply equiv_bind.
      { destruct (USBGuard.check_ghost_key_present (sample tk)), present;
          cbn [andb negb];
          first [ apply blind_usb_call_status, Hv | apply blind_ret, Hv ]. }
      intros _ w1 w2 Hw.
      apply equiv_bind; [apply blind_set_usb_present, Hw|].
      intros _ x1 x2 Hx. apply IH, Hx.
Qed.

Lemma bypass_idle_blind (ticks : list (tick Host)) (s1 s2 : Sys) :
  erase s1 = erase s2 ->
  res_equiv (USBGuard.bypass_idle ticks s1)
            (USBGuard.bypass_idle (map without_bypass_calls ticks) s2).
Proof.
  revert s1 s2. induction ticks as [|tk rest IH]; intros s1 s2 H;
    cbn [map USBGuard.bypass_idle without_bypass_calls before sample].
  - cbn. auto.
  - apply equiv_bind; [apply interfere_blind, H|]. intros _ t1 t2 Ht.
    apply equiv_bind; [apply blind_is_running, Ht|]. intros running u1 u2 Hu.
    destruct running; [apply IH, Hu | cbn; auto].
Qed.

(** The worker reads the flag when it starts; calls of
    [set_bypass_mode] made after that change nothing of its run. *)
Lemma worker_ignores_later_bypass_calls (ticks : list (tick Host)) (s : Sys) :
  res_equiv (usb_worker ticks s)
            (usb_worker (map without_bypass_calls ticks) s).
Proof.
  unfold usb_worker, USBGuard._monitor_loop, USBGuard.get_bypass_mode.
  rewrite !bind_gets. destruct (match usb_guard s with
                                | Some u => _bypass_mode u
                                | None => false
                                end).
  - apply equiv_bind.
    + apply blind_usb_call_status. reflexivity.
    + intros _ t1 t2 Ht. apply bypass_idle_blind, Ht.
  - destruct ticks as [|tk rest]; cbn [map without_bypass_calls before sample].
    + cbn. auto.
    + apply equiv_bind; [apply interfere_blind; reflexivity|].
      intros _ t1 t2 Ht.
      apply equiv_bind; [apply blind_set_usb_present, Ht|].
      intros _ u1 u2 Hu.
      apply equiv_bind.
      { destruct (USBGuard.check_ghost_key_present (sample tk));
          apply blind_usb_call_status, Hu. }
      intros _ v1 v2 Hv.
      apply equiv_bind; [apply blind_get_usb_present, Hv|].
      intros initial_state w1 w2 Hw. apply poll_blind, Hw.
Qed.
End BypassFacts.

Module BypassClaims.
Import GhostProtocol UsbFacts BypassFacts InterfereFacts.

(** A bypassed guard never looks at its samples. *)
Lemma bypass_idle_ignores_samples (ticks ticks' : list (tick Host)) (s : Sys) :
  map (@before Host) ticks' = map (@before Host) ticks ->
  USBGuard.bypass_idle ticks' s = USBGuard.bypass_idle ticks s.
Proof.
  revert ticks' s. induction ticks as [|tk rest IH]; intros [|tk' rest'] s H;
    try discriminate; [reflexivity|].
  cbn [map] in H. injection H as Hb Hr. cbn [USBGuard.bypass_idle].
  rewrite Hb. unfold bind. destruct (interfere (before tk) s); try reflexivity.
  destruct (is_running Usb s0) as [[|] ? | |]; try reflexivity.
  apply IH, Hr.
Qed.

(** C10, amended. The guard's worker reads the bypass flag once, at the
    top of its loop: the run is the same, up to the flag itself, with and
    without the [set_bypass_mode] calls other threads make after that
    read.  A worker that read the flag set reports "BYPASSED" and never
    samples; a worker that read it unset still trips on the first absent
    sample after a present baseline. *)
Theorem bypass_flag_read_once (ticks : list (tick Host)) (s : Sys) :
  res_equiv (usb_worker ticks s)
            (usb_worker (map without_bypass_calls ticks) s)
  /\ (bypass_of s = true ->
      (forall ticks', map (@before Host) ticks' = map (@before Host) ticks ->
                      usb_worker ticks' s = usb_worker ticks s)
      /\ exists e s' l,
           usb_worker ticks s = Ok e s' /\ trace s' = trace s ++ l
           /\ monitor_events l = [EvStatus "usb" "BYPASSED"])
  /\ (bypass_of s = false ->
      running_of Usb s = true ->
      forall t0 pre t post,
        ticks = t0 :: pre ++ t :: post ->
        calm Usb t0 ->
        USBGuard.check_ghost_key_present (sample t0) = true ->
        Forall (fun tk => calm Usb tk
                          /\ USBGuard.check_ghost_key_present (sample tk) = true)
               pre ->
        calm Usb t ->
        USBGuard.check_ghost_key_present (sample t) = false ->
        exists l,
          trace (final (usb_worker ticks s)) = trace s ++ l
          /\ monitor_events l = [EvStatus "usb" "SECURE";
                                 EvStatus "usb" "REMOVED";
                                 EvStatus "threat" "CRITICAL";
                                 EvPanicCall (Worker Usb)]
          /\ stopped (usb_worker ticks s)).
Proof.
  split; [apply worker_ignores_later_bypass_calls|]. split.
  - intros Hb. split; [|apply worker_bypassed, Hb].
    intros ticks' Hbefore.
    unfold usb_worker, USBGuard._monitor_loop, USBGuard.get_bypass_mode.
    rewrite !bind_gets. fold (bypass_of s). rewrite Hb.
    unfold bind. destruct (USBGuard.call_status _ _ _ s); try reflexivity.
    apply bypass_idle_ignores_samples, Hbefore.
  - intros Hb Hrun t0 pre t post -> Hc0 Hp0 Hpre Hc Hp.
    apply worker_trips; assumption.
Qed.

Lemma bypass_flag_read_once_witness :
  (exists e s' l,
      usb_worker [Samples.quiet Samples.host_with_token;
                  Samples.after_bypass_call false Samples.host_without_token]
                 Samples.booted_bypassed = Ok e s'
      /\ trace s' = trace Samples.booted_bypassed ++ l
      /\ monitor_events l = [EvStatus "usb" "BYPASSED"])
  /\ (exists l,
         trace (final (usb_worker
                         [Samples.quiet Samples.host_with_token;
                          Samples.after_bypass_call true
                                                    Samples.host_without_token]
                         Samples.booted))
         = trace Samples.booted ++ l
         /\ monitor_events l = [EvStatus "usb" "SECURE";
                                EvStatus "usb" "REMOVED";
                                EvStatus "threat" "CRITICAL";
                                EvPanicCall (Worker Usb)]
         /\ stopped (usb_worker
                       [Samples.quiet Samples.host_with_token;
                        Samples.after_bypass_call true
                                                  Samples.host_without_token]
                       Samples.booted)).
Proof.
  split.
  - apply (proj1 (proj2 (bypass_flag_read_once _ Samples.booted_bypassed))).
    reflexivity.
  - apply (proj2 (proj2 (bypass_flag_read_once _ Samples.booted))
             eq_refl eq_refl
             (Samples.quiet Samples.host_with_token) []
             (Samples.after_bypass_call true Samples.host_without_token) []).
    + reflexivity.
    + unfold calm. simpl. tauto.
    + reflexivity.
    + constructor.
    + unfold calm. simpl. intros [H|[]]. discriminate.
    + reflexivity.
Defined.

(** C10 as stated fails: [start()] returns before the worker thread has
    read the flag, so a [set_bypass_mode(True)] made after [start()] and
    before that read is what the worker sees.  The guard, started armed,
    then reports "BYPASSED" and lets the removal of the token pass; without
    the call it trips. *)
Lemma bypass_call_before_read_takes_effect :
  let ticks := [Samples.quiet Samples.host_with_token;
                Samples.quiet Samples.host_without_token] in
  let events (r : Res Sys loop_end) :=
    monitor_events (skipn (List.length (trace Samples.booted))
                          (trace (final r))) in
  started Usb Samples.booted
  /\ bypass_of Samples.booted = false
  /\ events (usb_worker ticks Samples.booted)
     = [EvStatus "usb" "SECURE"; EvStatus "usb" "REMOVED";
        EvStatus "threat" "CRITICAL"; EvPanicCall (Worker Usb)]
  /\ events ((USBGuard.set_bypass_mode true ;; usb_worker ticks) Samples.booted)
     = [EvStatus "usb" "BYPASSED"]
  /\ ~ res_equiv (usb_worker ticks Samples.booted)
                 ((USBGuard.set_bypass_mode true ;; usb_worker ticks)
                    Samples.booted).
Proof.
  cbv zeta. split; [reflexivity|]. split; [reflexivity|].
  split; [vm_compute; reflexivity|]. split; [vm_compute; reflexivity|].
  vm_compute. tauto.
Qed.
End BypassClaims.

(** ** The panic coordinator and the exit status *)

Module PanicClaims.
Import GhostProtocol PanicFacts PanicDown.

Lemma flag_kept_refl (s : Sys) : flag_kept s s.
Proof. intros H. exact H. Qed.

Lemma flag_kept_trans (s1 s2 s3 : Sys) :
  flag_kept s1 s2 -> flag_kept s2 s3 -> flag_kept s1 s3.
Proof. unfold flag_kept. auto. Qed.

(** The flag, once set, is never reset: a call of the panic trigger
    that finds it set leaves it set, whoever calls. *)
Lemma panic_flag_never_reset (srcs : list panic_source) (s : Sys) :
  _panic_triggered s = true ->
  _panic_triggered (final (fire srcs s)) = true.
Proof.
  revert s. induction srcs as [|src rest IH]; intros s Hf; cbn [fire].
  - exact Hf.
  - assert (Hsrc : exists s1, trigger_from src s = Ok tt s1
                              /\ _panic_triggered s1 = true).
    { destruct src as [m| | |]; cbn [trigger_from];
        unfold in_thread, _signal_handler, _on_panic_button, _cleanup;
        rewrite ?bind_gets, ?Hf; cbn [negb];
        rewrite ?(trigger_panic_fired _ s Hf); eexists; split;
          try reflexivity; exact Hf. }
    destruct Hsrc as (s1 & E1 & Hf1).
    rewrite (bind_ok _ _ _ _ _ E1). apply IH, Hf1.
Qed.

(** When the first call comes from the main thread, the sequence runs
    once, in order, and ends the process with status 0. *)
Lemma panic_from_button_wipes_once (rest : list panic_source) :
  exists s',
    fire (FromButton :: rest) Samples.booted = Halt 0 s'
    /\ trace s'
       = trace Samples.booted
         ++ [EvPanicCall MainThread; EvStop Camera; EvJoin Camera;
             EvStop Usb; EvJoin Usb; EvWipe; EvGui GuiShowWipeAnimation;
             EvGui GuiClearSecrets; EvExit 0]
    /\ option_map GhostProtocolVault._nuked (vault s') = Some true.
Proof.
  cbn [fire]. eexists. split.
  - apply bind_halt. vm_compute. reflexivity.
  - split; reflexivity.
Qed.

Ltac abort_case :=
  cbn; eexists; eexists; split; [reflexivity|]; cbn;
  split; [reflexivity|]; split; [reflexivity|];
  split; [rewrite <- ?app_assoc; reflexivity|];
  cbn; intuition discriminate.

(** A call of the panic trigger made first by a started monitor's own
    worker sets the flag and raises in [_stop_monitors]: nothing is
    wiped, the process goes on. *)
Lemma panic_from_own_worker_aborts (m : monitor_id) (s : Sys) :
  _panic_triggered s = false ->
  started m s ->
  threads_own s ->
  exists s' l,
    _trigger_panic (Worker m) s = Exc RuntimeError s'
    /\ _panic_triggered s' = true
    /\ vault s' = vault s
    /\ trace s' = trace s ++ l
    /\ ~ In EvWipe l /\ ~ In (EvExit 0) l.
Proof.
  intros Hf Hst Hown. rewrite (trigger_panic_unfold (Worker m) s Hf).
  unfold started in Hst. unfold threads_own in Hown.
  destruct s as [bu ec v g cs ug fired r t]. cbn in Hf. subst fired.
  cbn [vault trace].
  destruct m; cbn in Hst.
  - destruct cs as [[[run th] cp av]|]; [|contradiction]. cbn in Hst. subst th.
    abort_case.
  - destruct ug as [[[run th] pr bp]|]; [|contradiction]. cbn in Hst. subst th.
    destruct cs as [[[crun cth] cp av]|].
    + destruct (Hown Camera (mkMonitor crun cth) eq_refl) as [Hc|Hc];
        cbn in Hc; subst cth; abort_case.
    + abort_case.
Qed.

(** C1. The destructive sequence does not run when the first call of
    the panic trigger comes from a monitor's worker: stopping the
    monitors joins the calling thread, which raises; the flag is already
    set, so every later call returns at once.  The vault is never wiped
    and the process never ended. *)
Theorem panic_from_worker_never_wipes :
  exists s',
    fire [FromMonitor Usb; FromButton; FromSignal; FromAtexit] Samples.booted
    = Ok tt s'
    /\ _trigger_panic (Worker Usb) Samples.booted
       = Exc RuntimeError
             (final (_trigger_panic (Worker Usb) Samples.booted))
    /\ _panic_triggered s' = true
    /\ option_map GhostProtocolVault._nuked (vault s') = Some false
    /\ ~ In EvWipe (trace s')
    /\ ~ In (EvExit 0) (trace s').
Proof.
  eexists. split; [vm_compute; reflexivity|].
  split; [vm_compute; reflexivity|].
  split; [reflexivity|]. split; [reflexivity|].
  split; vm_compute; intuition discriminate.
Qed.

(** Without the token and without bypass, [run] returns 1 before the
    vault or a monitor exists; the [atexit] handler then fires the
    panic trigger, which ends the process with status 0. *)
Lemma failed_precondition_exits_zero (no_camera : bool) (r : Rng) (h : Host)
  (script : list happening) (ending : mainloop_end) :
  USBGuard.check_ghost_key_present h = false ->
  exists s1 s',
    run h script ending (init false (negb no_camera) r) = Ok 1 s1
    /\ main false no_camera r h script ending = Halt 0 s'
    /\ vault s' = None /\ camera_sentinel s' = None /\ usb_guard s' = None
    /\ trace s' = [EvPanicCall MainThread; EvExit 0].
Proof.
  intros Hc. unfold main, run, _check_usb_key, bind, gets, ret, init.
  cbn [bypass_usb negb]. rewrite Hc. cbn.
  eexists. eexists. repeat split; reflexivity.
Qed.

(** C8. With the token missing at startup and no bypass, the process
    ends with status 0, not 1: [run] returns 1, and the [atexit] handler
    ends the process first, with [os._exit(0)]. *)
Theorem missing_token_exit_status :
  exists s1,
    run Samples.host_without_token [] WindowClosed
        (init false true Samples.steady) = Ok 1 s1
    /\ vault s1 = None /\ camera_sentinel s1 = None /\ usb_guard s1 = None
    /\ exit_status (main false false Samples.steady Samples.host_without_token
                         [] WindowClosed) = Some 0.
Proof.
  eexists. split; [vm_compute; reflexivity|]. repeat split; reflexivity.
Qed.

(** The other exits, once the monitors are started: a closed window
    and a manual panic both end with status 0. *)
Lemma graceful_exit_status :
  exit_status (process_end (after_startup [] WindowClosed Samples.booted))
  = Some 0
  /\ exit_status (process_end (after_startup [PanicButton] WindowClosed
                                            Samples.booted)) = Some 0.
Proof. split; vm_compute; reflexivity. Qed.
End PanicClaims.

(** * Further properties *)

(** ** The vault's methods *)

Module VaultExtras.
Import GhostProtocolVault VaultFacts.

(** [decrypt] never raises and never changes the vault, whatever the
    cipher makes of the stored bytes. *)
Theorem decrypt_reads_only (dec : bytes -> bytes -> bytes -> bytes) (w : world) :
  exists p, decrypt dec w = Ok p w.
Proof.
  unfold decrypt. rewrite !bind_gets.
  destruct (_nuked (self w)); [eexists; reflexivity|].
  destruct (_encrypted_data (self w)) as [|d0 data]; [eexists; reflexivity|].
  unfold try_except. rewrite !bind_gets. unfold AES_new.
  destruct (valid_key_len (_key (self w)) && _); cbn [bind raise ret].
  - unfold bind, ret, bytes_decode.
    destruct (utf8_decode _); eexists; reflexivity.
  - eexists. reflexivity.
Qed.

Lemma encrypt_frame (enc : bytes -> bytes -> bytes -> bytes)
  (p : pystr) (w : world) :
  exists w',
    encrypt enc p w = Ok tt w'
    /\ _key (self w') = _key (self w)
    /\ _nuked (self w') = _nuked (self w)
    /\ rng w' = (if _nuked (self w) then rng w else advance 1 (rng w)).
Proof.
  unfold encrypt. rewrite bind_gets.
  destruct (_nuked (self w)) eqn:Hn.
  { exists w. rewrite Hn. auto. }
  assert (Hadv : mkRng (entropy (rng w)) (S (drawn (rng w))) = advance 1 (rng w))
    by (unfold advance; f_equal; lia).
  unfold try_except, os_urandom, urandom, bind at 1.
  destruct (entropy (rng w) (drawn (rng w))) as [gen|].
  - unfold set_iv at 1. rewrite bind_modify, bind_gets.
    cbn [self _key _iv _encrypted_data _nuked rng].
    unfold AES_new.
    destruct (valid_key_len (_key (self w)) && _).
    + rewrite bind_ret. unfold str_encode.
      destruct (utf8_encode p) as [b|].
      * rewrite bind_ret. eexists. split; [reflexivity|]. cbn.
        rewrite Hn, Hadv. auto.
      * rewrite bind_raise. cbn. eexists. split; [reflexivity|]. cbn.
        rewrite Hn, Hadv. auto.
    + rewrite bind_raise. cbn. eexists. split; [reflexivity|]. cbn.
      rewrite Hn, Hadv. auto.
  - cbn. eexists. split; [reflexivity|]. cbn. rewrite Hadv. auto.
Qed.

(** [encrypt] never raises, never touches the key or the nuked flag,
    and on a live vault makes exactly one draw, whether it stores a
    ciphertext or fails inside. *)
Theorem encrypt_keeps_key (enc : bytes -> bytes -> bytes -> bytes)
  (p : pystr) (w : world) :
  exists w',
    encrypt enc p w = Ok tt w'
    /\ _key (self w') = _key (self w)
    /\ _nuked (self w') = _nuked (self w)
    /\ rng w' = (if _nuked (self w) then rng w else advance 1 (rng w)).
Proof. apply encrypt_frame. Qed.

(** After a wipe the vault is inert: [encrypt] stores nothing and
    [decrypt] returns the empty string. *)
Theorem vault_inert_after_nuke (enc dec : bytes -> bytes -> bytes -> bytes)
  (p : pystr) (w : world) :
  exists w',
    nuke_memory w = Ok tt w'
    /\ encrypt enc p w' = Ok tt w'
    /\ (encrypt enc p ;; decrypt dec) w' = Ok [] w'.
Proof.
  assert (Hin : forall w0, _nuked (self w0) = true ->
                  encrypt enc p w0 = Ok tt w0
                  /\ (encrypt enc p ;; decrypt dec) w0 = Ok [] w0).
  { intros w0 H.
    assert (He : encrypt enc p w0 = Ok tt w0)
      by (unfold encrypt; rewrite bind_gets, H; reflexivity).
    split; [exact He|]. rewrite (bind_ok _ _ _ _ _ He).
    unfold decrypt. rewrite !bind_gets, H. reflexivity. }
  destruct (_nuked (self w)) eqn:Hn.
  - exists w. split; [apply nuke_memory_nuked, Hn | apply Hin, Hn].
  - destruct (nuke_memory_cases w Hn) as (w' & E & Hs).
    exists w'. split; [exact E|]. apply Hin.
    destruct (nuke_body w); rewrite Hs; reflexivity.
Qed.

(** A wipe of a live vault always returns, and leaves no byte of the
    key, the ciphertext or the IV: the key is empty or all zeros, the
    other two are empty, whatever the entropy source does. *)
Theorem wipe_leaves_no_secret (w : world) :
  _nuked (self w) = false ->
  exists w',
    nuke_memory w = Ok tt w'
    /\ _nuked (self w') = true
    /\ _encrypted_data (self w') = []
    /\ _iv (self w') = []
    /\ Forall (fun b => b = 0) (_key (self w')).
Proof.
  intros Hn. destruct (nuke_memory_cases w Hn) as (w' & E & Hs).
  exists w'. split; [exact E|].
  destruct (nuke_body w); rewrite Hs; cbn; repeat split; auto.
  unfold zeros. apply Forall_forall. intros x Hx.
  apply repeat_spec in Hx. exact Hx.
Qed.

Lemma wipe_leaves_no_secret_witness :
  exists w',
    nuke_memory (Samples.fresh_vault Samples.failing_late) = Ok tt w'
    /\ _nuked (self w') = true
    /\ _encrypted_data (self w') = []
    /\ _iv (self w') = []
    /\ Forall (fun b => b = 0) (_key (self w')).
Proof. apply wipe_leaves_no_secret. reflexivity. Defined.

Section WithCipher.
Variable gcm_encrypt gcm_decrypt : bytes -> bytes -> bytes -> bytes.
Hypothesis gcm_inverse :
  forall key nonce m, gcm_decrypt key nonce (gcm_encrypt key nonce m) = m.
Hypothesis gcm_length :
  forall key nonce m,
    List.length (gcm_encrypt key nonce m) = List.length m.

(** [decrypt] on what a successful [encrypt] stored. *)
Lemma decrypt_stored (p : pystr) (b key iv : bytes) (r : Rng) :
  valid_key_len key = true ->
  iv <> [] ->
  utf8_encode p = Some b ->
  let w := mkWorld (mk key (gcm_encrypt key iv b) iv false) r in
  decrypt gcm_decrypt w = Ok p w.
Proof.
  intros Hk Hiv Hp. cbv zeta. unfold decrypt. rewrite !bind_gets.
  cbn [self _key _iv _encrypted_data _nuked rng].
  destruct (gcm_encrypt key iv b) as [|c0 ct] eqn:Hct.
  - pose proof (gcm_length key iv b) as Hl. rewrite Hct in Hl.
    destruct b; [|discriminate].
    rewrite (VaultRoundTrip.utf8_encode_nil p Hp). reflexivity.
  - unfold try_except. rewrite !bind_gets.
    cbn [self _key _iv _encrypted_data _nuked rng].
    unfold AES_new. rewrite Hk.
    destruct iv as [|i0 iv']; [congruence|]. cbn [List.length Nat.eqb negb andb].
    rewrite bind_ret, <- Hct, gcm_inverse. unfold bytes_decode.
    rewrite (utf8_roundtrip p b Hp). reflexivity.
Qed.

(** The last plaintext wins: after two calls of [encrypt], [decrypt]
    returns the second plaintext, whatever the first call did. *)
Theorem last_encrypt_wins (p1 p2 : pystr) (b2 : bytes) (w : world)
  (gen : nat -> Z) :
  _nuked (self w) = false ->
  valid_key_len (_key (self w)) = true ->
  utf8_encode p2 = Some b2 ->
  entropy (rng w) (drawn (rng w) + 1) = DrawBytes gen ->
  exists w',
    (encrypt gcm_encrypt p1 ;; encrypt gcm_encrypt p2 ;;
     decrypt gcm_decrypt) w = Ok p2 w'.
Proof.
  intros Hn Hk Hp Hd.
  destruct (encrypt_frame gcm_encrypt p1 w) as (w1 & E1 & Hk1 & Hn1 & Hr1).
  rewrite (bind_ok _ _ _ _ _ E1). rewrite Hn in Hn1, Hr1.
  assert (Hd1 : entropy (rng w1) (drawn (rng w1)) = DrawBytes gen)
    by (rewrite Hr1; exact Hd).
  rewrite <- Hk1 in Hk.
  rewrite (bind_ok _ _ _ _ _
             (VaultRoundTrip.encrypt_stores gcm_encrypt p2 b2 w1 gen
                Hn1 Hk Hp Hd1)).
  eexists. apply decrypt_stored; [exact Hk | | exact Hp].
  intros H. apply (f_equal (@List.length Z)) in H.
  rewrite VaultRoundTrip.draw_bytes_length in H. discriminate.
Qed.

Lemma failed_encrypt_state (p1 p2 : pystr) (b1 : bytes) (w : world)
  (gen1 gen2 : nat -> Z) :
  _nuked (self w) = false ->
  valid_key_len (_key (self w)) = true ->
  utf8_encode p1 = Some b1 ->
  utf8_encode p2 = None ->
  entropy (rng w) (drawn (rng w)) = DrawBytes gen1 ->
  entropy (rng w) (S (drawn (rng w))) = DrawBytes gen2 ->
  exists r',
    (encrypt gcm_encrypt p1 ;; encrypt gcm_encrypt p2) w
    = Ok tt (mkWorld
               (mk (_key (self w))
                   (gcm_encrypt (_key (self w)) (draw_bytes gen1 16) b1)
                   (draw_bytes gen2 16) false)
               r').
Proof.
  intros Hn Hk Hp1 Hp2 Hd1 Hd2.
  rewrite (bind_ok _ _ _ _ _
             (VaultRoundTrip.encrypt_stores gcm_encrypt p1 b1 w gen1
                Hn Hk Hp1 Hd1)).
  unfold encrypt. rewrite bind_gets.
  cbn [self _key _iv _encrypted_data _nuked rng].
  unfold try_except, os_urandom, urandom, bind at 1.
  cbn [self _key _iv _encrypted_data _nuked rng entropy drawn]. rewrite Hd2.
  unfold set_iv at 1. rewrite bind_modify, bind_gets.
  cbn [self _key _iv _encrypted_data _nuked rng].
  unfold AES_new. rewrite Hk, VaultRoundTrip.draw_bytes_length.
  cbn [Nat.eqb negb andb]. rewrite bind_ret. unfold str_encode.
  rewrite Hp2, bind_raise. cbn. eexists. reflexivity.
Qed.

(** [decrypt] on a vault that holds data: the cipher is run under the
    stored IV, and what does not decode reads as the empty string. *)
Lemma decrypt_runs_cipher (key data iv : bytes) (r : Rng) :
  valid_key_len key = true ->
  iv <> [] ->
  data <> [] ->
  let w := mkWorld (mk key data iv false) r in
  decrypt gcm_decrypt w
  = Ok (match utf8_decode (gcm_decrypt key iv data) with
        | Some q => q
        | None => []
        end) w.
Proof.
  intros Hk Hiv Hd. cbv zeta. unfold decrypt. rewrite !bind_gets.
  cbn [self _key _iv _encrypted_data _nuked rng].
  destruct data as [|c0 ct]; [congruence|].
  unfold try_except. rewrite !bind_gets.
  cbn [self _key _iv _encrypted_data _nuked rng].
  unfold AES_new. rewrite Hk.
  destruct iv as [|i0 iv']; [congruence|]. cbn [List.length Nat.eqb negb andb].
  rewrite bind_ret. unfold bytes_decode.
  destruct (utf8_decode _); reflexivity.
Qed.

(** A failed [encrypt] is not atomic.  A plaintext that does not
    encode is not stored, but its call has already replaced the IV: the
    vault is left with the ciphertext of the plaintext before it and,
    when the two draws differ, an IV that ciphertext was not made with.
    [decrypt] then runs the cipher under the new IV on the old
    ciphertext. *)
Theorem failed_encrypt_replaces_iv (p1 p2 : pystr) (b1 : bytes) (w : world)
  (gen1 gen2 : nat -> Z) :
  _nuked (self w) = false ->
  valid_key_len (_key (self w)) = true ->
  utf8_encode p1 = Some b1 ->
  utf8_encode p2 = None ->
  entropy (rng w) (drawn (rng w)) = DrawBytes gen1 ->
  entropy (rng w) (S (drawn (rng w))) = DrawBytes gen2 ->
  draw_bytes gen2 16 <> draw_bytes gen1 16 ->
  let key := _key (self w) in
  let iv1 := draw_bytes gen1 16 in
  let iv2 := draw_bytes gen2 16 in
  exists w',
    (encrypt gcm_encrypt p1 ;; encrypt gcm_encrypt p2) w = Ok tt w'
    /\ self w' = mk key (gcm_encrypt key iv1 b1) iv2 false
    /\ _iv (self w') <> iv1
    /\ (gcm_encrypt key iv1 b1 <> [] ->
        decrypt gcm_decrypt w'
        = Ok (match utf8_decode (gcm_decrypt key iv2 (gcm_encrypt key iv1 b1)) with
              | Some q => q
              | None => []
              end) w').
Proof.
  intros Hn Hk Hp1 Hp2 Hd1 Hd2 Hne. cbv zeta.
  destruct (failed_encrypt_state p1 p2 b1 w gen1 gen2 Hn Hk Hp1 Hp2 Hd1 Hd2)
    as (r' & E).
  eexists. split; [exact E|]. cbn [self _iv].
  split; [reflexivity|]. split; [exact Hne|].
  intros Hct. apply decrypt_runs_cipher; [exact Hk | | exact Hct].
  intros H. apply (f_equal (@List.length Z)) in H.
  rewrite VaultRoundTrip.draw_bytes_length in H. discriminate.
Qed.

(** A new vault is usable at once: [__init__] stores a 32-byte key,
    which the cipher accepts, so a text stored in the new vault is
    read back unchanged. *)
Theorem new_vault_round_trips (r : Rng) (p : pystr) (b : bytes)
  (gen_key gen_iv : nat -> Z) :
  entropy r (drawn r) = DrawBytes gen_key ->
  entropy r (S (drawn r)) = DrawBytes gen_iv ->
  utf8_encode p = Some b ->
  exists w0 w',
    init r = Ok tt w0
    /\ self w0 = mk (draw_bytes gen_key 32) [] [] false
    /\ valid_key_len (_key (self w0)) = true
    /\ (encrypt gcm_encrypt p ;; decrypt gcm_decrypt) w0 = Ok p w'.
Proof.
  intros Hk Hi Hp.
  assert (E0 : init r = Ok tt (mkWorld (mk (draw_bytes gen_key 32) [] [] false)
                                       (mkRng (entropy r) (S (drawn r))))).
  { unfold init, os_urandom, urandom, bind, modify. cbn [rng self].
    rewrite Hk. reflexivity. }
  assert (Hlen : valid_key_len (draw_bytes gen_key 32) = true).
  { unfold valid_key_len. rewrite VaultRoundTrip.draw_bytes_length.
    reflexivity. }
  set (w0 := mkWorld (mk (draw_bytes gen_key 32) [] [] false)
                     (mkRng (entropy r) (S (drawn r)))) in *.
  exists w0. eexists. split; [exact E0|]. split; [reflexivity|].
  split; [exact Hlen|].
  rewrite (bind_ok _ _ _ _ _
             (VaultRoundTrip.encrypt_stores gcm_encrypt p b w0 gen_iv
                eq_refl Hlen Hp Hi)).
  apply decrypt_stored; [exact Hlen | | exact Hp].
  intros H. apply (f_equal (@List.length Z)) in H.
  rewrite VaultRoundTrip.draw_bytes_length in H. discriminate.
Qed.
End WithCipher.

Lemma last_encrypt_wins_witness :
  exists w',
    (encrypt Samples.xor_cipher Samples.lone_surrogate ;;
     encrypt Samples.xor_cipher Samples.mixed_text ;;
     decrypt Samples.xor_cipher) (Samples.fresh_vault Samples.steady)
    = Ok Samples.mixed_text w'.
Proof.
  eapply (last_encrypt_wins Samples.xor_cipher Samples.xor_cipher
            VaultRoundTrip.xor_cipher_inverse VaultRoundTrip.xor_cipher_length
            Samples.lone_surrogate Samples.mixed_text).
  - reflexivity.
  - reflexivity.
  - vm_compute. reflexivity.
  - reflexivity.
Defined.

Lemma failed_encrypt_replaces_iv_witness :
  exists w',
    (encrypt nonce_xor Samples.mixed_text ;;
     encrypt nonce_xor Samples.lone_surrogate) (Samples.fresh_vault varying)
    = Ok tt w'
    /\ _encrypted_data (self w') <> []
    /\ _iv (self w') <> draw_bytes (fun i => Z.of_nat (i + 1) + 7) 16
    /\ exists q, decrypt nonce_xor w' = Ok q w' /\ q <> Samples.mixed_text.
Proof.
  destruct (failed_encrypt_replaces_iv nonce_xor nonce_xor
              Samples.mixed_text Samples.lone_surrogate
              [104; 195; 169; 226; 130; 172; 240; 159; 152; 128]
              (Samples.fresh_vault varying)
              (fun i => Z.of_nat (i + 1) + 7) (fun i => Z.of_nat (i + 2) + 7))
    as (w' & E & Hs & Hiv & Hdec).
  - reflexivity.
  - reflexivity.
  - vm_compute. reflexivity.
  - reflexivity.
  - reflexivity.
  - reflexivity.
  - vm_compute. discriminate.
  - exists w'. split; [exact E|]. split; [rewrite Hs; vm_compute; discriminate|].
    split; [exact Hiv|].
    eexists. split; [apply Hdec; vm_compute; discriminate|].
    vm_compute. discriminate.
Defined.

Lemma new_vault_round_trips_witness :
  exists w0 w',
    init Samples.steady = Ok tt w0
    /\ self w0 = mk (draw_bytes (fun i => Z.of_nat i + 7) 32) [] [] false
    /\ valid_key_len (_key (self w0)) = true
    /\ (encrypt Samples.xor_cipher Samples.mixed_text ;;
        decrypt Samples.xor_cipher) w0 = Ok Samples.mixed_text w'.
Proof.
  eapply (new_vault_round_trips Samples.xor_cipher Samples.xor_cipher
            VaultRoundTrip.xor_cipher_inverse VaultRoundTrip.xor_cipher_length
            Samples.steady Samples.mixed_text).
  - reflexivity.
  - reflexivity.
  - vm_compute. reflexivity.
Defined.
End VaultExtras.

(** ** The token check *)

Module CheckExtras.
Import USBGuard.

(** [needle in hay]: the model's test is the substring relation. *)
Lemma prefix_spec (n h : string) :
  String.prefix n h = true <-> exists post, h = (n ++ post)%string.
Proof.
  revert h. induction n as [|c n IH]; intros h; cbn.
  - split; [intros _; exists h; reflexivity | intros _; destruct h; reflexivity].
  - destruct h as [|d h]; cbn.
    + split; [discriminate | intros (post & H); discriminate].
    + destruct (Ascii.ascii_dec c d) as [->|Hne].
      * rewrite IH. split; intros (post & H); exists post; congruence.
      * split; [discriminate|]. intros (post & H). congruence.
Qed.

Lemma contains_spec (n h : string) :
  contains n h = true <-> exists pre post, h = (pre ++ n ++ post)%string.
Proof.
  induction h as [|d h IH]; cbn [contains].
  - destruct (String.prefix n "") eqn:Hp.
    + split; [intros _|reflexivity]. apply prefix_spec in Hp.
      destruct Hp as (post & H). exists ""%string, post. exact H.
    + split; [discriminate|]. intros (pre & post & H).
      destruct pre; [|discriminate]. cbn in H.
      assert (String.prefix n "" = true) by (apply prefix_spec; eauto).
      congruence.
  - destruct (String.prefix n (String d h)) eqn:Hp.
    + split; [intros _|reflexivity]. apply prefix_spec in Hp.
      destruct Hp as (post & H). exists ""%string, post. exact H.
    + rewrite IH. split.
      * intros (pre & post & H). exists (String d pre), post. cbn. congruence.
      * intros (pre & post & H). destruct pre as [|c pre].
        -- cbn in H.
           assert (String.prefix n (String d h) = true)
             by (apply prefix_spec; eauto).
           congruence.
        -- cbn in H. injection H as _ H. eauto.
Qed.

Lemma scan_partitions_windows (h : Host) (ps : list partition) :
  is_windows h = true ->
  scan_partitions h ps = if existsb (label_matches h) ps then Found else Next.
Proof.
  intros Hw. unfold is_windows in Hw.
  induction ps as [|p ps IH]; cbn [scan_partitions existsb]; [reflexivity|].
  unfold scan_partition, label_matches. rewrite Hw.
  destruct (volume_label h _) as [name|e]; cbn [orb].
  - destruct (String.eqb name REQUIRED_USB_NAME); cbn [orb]; [reflexivity|].
    exact IH.
  - exact IH.
Qed.

Lemma check_windows_form (h : Host) (ps : list partition) :
  is_windows h = true ->
  disk_partitions h = IoOk ps ->
  check_ghost_key_present h = existsb (label_matches h) ps.
Proof.
  intros Hw Hp. unfold check_ghost_key_present, enumerate.
  rewrite Hp, (scan_partitions_windows h ps Hw).
  destruct (existsb _ ps); reflexivity.
Qed.

(** On Windows the check is true exactly when some listed partition
    carries the label; a lookup that fails on one drive is passed over
    and hides no other drive. *)
Theorem check_on_windows (h : Host) (ps : list partition) :
  is_windows h = true ->
  disk_partitions h = IoOk ps ->
  check_ghost_key_present h = existsb (label_matches h) ps.
Proof. apply check_windows_form. Qed.

Lemma check_on_windows_witness :
  check_ghost_key_present Samples.host_windows
  = existsb (label_matches Samples.host_windows)
            [mkPartition "C:" "C:"; mkPartition "E:" "E:"].
Proof. apply check_on_windows; reflexivity. Defined.

Lemma scan_partitions_posix_tail (h : Host) (ps : list partition) :
  is_windows h = false ->
  label_path_exists h = false ->
  scan_base_dirs h base_dirs = Next ->
  scan_partitions h ps = if existsb mount_names_token ps then Found else Next.
Proof.
  intros Hw Hl Hb. unfold is_windows in Hw.
  induction ps as [|p ps IH]; cbn [scan_partitions existsb]; [reflexivity|].
  unfold scan_partition, mount_names_token. rewrite Hw.
  destruct (contains REQUIRED_USB_NAME (mountpoint p)); cbn [orb];
    [reflexivity|].
  unfold label_path_exists in Hl. rewrite Hl.
  unfold base_dirs in Hb. rewrite Hb. exact IH.
Qed.

Lemma check_posix_form (h : Host) (ps : list partition) :
  is_windows h = false ->
  disk_partitions h = IoOk ps ->
  check_ghost_key_present h
  = match ps with
    | [] => false
    | p :: rest =>
        mount_names_token p || label_path_exists h
        || match scan_base_dirs h base_dirs with
           | Found => true
           | Next => existsb mount_names_token rest
           | Raised _ => false
           end
    end.
Proof.
  intros Hw Hp. unfold check_ghost_key_present, enumerate. rewrite Hp.
  destruct ps as [|p rest]; [reflexivity|]. cbn [scan_partitions].
  unfold scan_partition at 1. unfold is_windows in Hw. rewrite Hw.
  fold (mount_names_token p). destruct (mount_names_token p); [reflexivity|].
  fold (label_path_exists h). destruct (label_path_exists h) eqn:Hl;
    [reflexivity|].
  cbn [orb]. fold base_dirs.
  destruct (scan_base_dirs h base_dirs) eqn:Hb; try reflexivity.
  rewrite (scan_partitions_posix_tail h rest Hw Hl Hb).
  destruct (existsb _ rest); reflexivity.
Qed.

(** Off Windows, with the partitions listed: no partition, no token;
    otherwise the check is true when the first mount path holds the
    name or the by-label path exists; failing that, the scan of the
    base directories decides: a find gives True, an error gives False,
    and only a scan that finds nothing lets the later mount paths
    count. *)
Theorem check_off_windows (h : Host) (ps : list partition) :
  is_windows h = false ->
  disk_partitions h = IoOk ps ->
  check_ghost_key_present h
  = match ps with
    | [] => false
    | p :: rest =>
        mount_names_token p || label_path_exists h
        || match scan_base_dirs h base_dirs with
           | Found => true
           | Next => existsb mount_names_token rest
           | Raised _ => false
           end
    end.
Proof. apply check_posix_form. Qed.

Lemma check_off_windows_witness :
  check_ghost_key_present Samples.host_broken_media
  = match [mkPartition "/" "/dev/sda1"] with
    | [] => false
    | p :: rest =>
        mount_names_token p || label_path_exists Samples.host_broken_media
        || match scan_base_dirs Samples.host_broken_media base_dirs with
           | Found => true
           | Next => existsb mount_names_token rest
           | Raised _ => false
           end
    end.
Proof. apply check_off_windows; reflexivity. Defined.

Lemma scan_user_dirs_spec (h : Host) (base_dir : string)
  (user_dirs : list string) :
  scan_user_dirs h base_dir user_dirs
  = if existsb (entry_is_token h base_dir) user_dirs then Found else Next.
Proof.
  induction user_dirs as [|u us IH]; cbn [scan_user_dirs existsb];
    [reflexivity|].
  unfold entry_is_token at 1.
  destruct (path_exists h _ && path_isdir h _); cbn [orb]; [reflexivity|].
  destruct (String.eqb u REQUIRED_USB_NAME); cbn [orb]; [reflexivity|].
  exact IH.
Qed.

Lemma scan_base_dirs_found (h : Host) (dirs : list string) :
  scan_base_dirs h dirs = Found ->
  exists base_dir user_dirs,
    In base_dir dirs
    /\ path_exists h base_dir = true
    /\ listdir h base_dir = IoOk user_dirs
    /\ existsb (entry_is_token h base_dir) user_dirs = true.
Proof.
  induction dirs as [|d dirs IH]; cbn [scan_base_dirs]; [discriminate|].
  assert (Hrest : scan_base_dirs h dirs = Found ->
                  exists base_dir user_dirs,
                    In base_dir (d :: dirs)
                    /\ path_exists h base_dir = true
                    /\ listdir h base_dir = IoOk user_dirs
                    /\ existsb (entry_is_token h base_dir) user_dirs = true).
  { intros H. destruct (IH H) as (b & us & Hin & Hrest).
    exists b, us. split; [right; exact Hin | exact Hrest]. }
  destruct (path_exists h d) eqn:He; [|exact Hrest].
  destruct (listdir h d) as [us|e] eqn:Hl.
  - rewrite scan_user_dirs_spec.
    destruct (existsb (entry_is_token h d) us) eqn:Hx; [|exact Hrest].
    intros _. exists d, us. split; [left; reflexivity | auto].
  - destruct e; try discriminate. exact Hrest.
Qed.

(** The check never reports the token without evidence: on Windows a
    listed partition with the label; elsewhere a listed mount path
    holding the name, the by-label path, or an entry of a readable base
    directory that is named GHOST_KEY or holds a directory so named. *)
Theorem check_needs_evidence (h : Host) :
  check_ghost_key_present h = true ->
  exists ps,
    disk_partitions h = IoOk ps
    /\ ps <> []
    /\ if is_windows h then existsb (label_matches h) ps = true
       else existsb mount_names_token ps = true
            \/ label_path_exists h = true
            \/ exists base_dir user_dirs,
                 In base_dir base_dirs
                 /\ path_exists h base_dir = true
                 /\ listdir h base_dir = IoOk user_dirs
                 /\ existsb (entry_is_token h base_dir) user_dirs = true.
Proof.
  intros Hc. destruct (disk_partitions h) as [ps|e] eqn:Hp.
  2: { unfold check_ghost_key_present, enumerate in Hc. rewrite Hp in Hc.
       discriminate. }
  exists ps. split; [reflexivity|].
  destruct (is_windows h) eqn:Hw.
  - rewrite (check_windows_form h ps Hw Hp) in Hc. split; [|exact Hc].
    destruct ps; [discriminate | discriminate].
  - rewrite (check_posix_form h ps Hw Hp) in Hc.
    destruct ps as [|p rest]; [discriminate|]. split; [discriminate|].
    cbn [existsb].
    destruct (mount_names_token p); [left; reflexivity|].
    destruct (label_path_exists h); [right; left; reflexivity|].
    cbn [orb] in Hc |- *.
    destruct (scan_base_dirs h base_dirs) eqn:Hb.
    + right. right. apply scan_base_dirs_found, Hb.
    + left. exact Hc.
    + discriminate.
Qed.

Lemma check_needs_evidence_witness :
  exists ps,
    disk_partitions Samples.host_unreadable_media = IoOk ps
    /\ ps <> []
    /\ if is_windows Samples.host_unreadable_media
       then existsb (label_matches Samples.host_unreadable_media) ps = true
       else existsb mount_names_token ps = true
            \/ label_path_exists Samples.host_unreadable_media = true
            \/ exists base_dir user_dirs,
                 In base_dir base_dirs
                 /\ path_exists Samples.host_unreadable_media base_dir = true
                 /\ listdir Samples.host_unreadable_media base_dir
                    = IoOk user_dirs
                 /\ existsb (entry_is_token Samples.host_unreadable_media
                                            base_dir) user_dirs = true.
Proof. apply check_needs_evidence. reflexivity. Defined.
End CheckExtras.

(** ** Stopping a monitor *)

Module StopExtras.
Import InterfereFacts.

(** [stop] always leaves the monitor's [_running] flag down.  It raises
    [RuntimeError] exactly when the thread stored in the monitor is the
    calling thread, and returns otherwise. *)
Theorem stop_clears_flag (me : tid) (m : monitor_id) (s : Sys) :
  let r := SecurityMonitorM.stop me m s in
  running_of m (final r) = false
  /\ if joins_self m s me then exists s', r = Exc RuntimeError s'
     else exists s', r = Ok tt s'.
Proof.
  cbv zeta. unfold joins_self, running_of.
  destruct s as [bu ec v g cs ug fired rn t].
  destruct m; cbn.
  - destruct cs as [[[run [th|]] cp av]|]; cbn;
      try (split; [reflexivity | eexists; reflexivity]).
    unfold SecurityMonitorM.join.
    destruct (tid_eqb th me); cbn; split; try reflexivity;
      eexists; reflexivity.
  - destruct ug as [[[run [th|]] pr bp]|]; cbn;
      try (split; [reflexivity | eexists; reflexivity]).
    unfold SecurityMonitorM.join.
    destruct (tid_eqb th me); cbn; split; try reflexivity;
      eexists; reflexivity.
Qed.

(** The sentinel's [stop] lowers the flag and then releases the capture
    device; called by the sentinel's own thread it raises before the
    release, and the device is left as it was. *)
Theorem camera_stop_releases (me : tid) (s : Sys) :
  let r := CameraSentinel.stop me s in
  running_of Camera (final r) = false
  /\ if joins_self Camera s me
     then exists s', r = Exc RuntimeError s'
                     /\ option_map cap (camera_sentinel s')
                        = option_map cap (camera_sentinel s)
     else exists s', r = Ok tt s' /\ cap_released s' = true.
Proof.
  cbv zeta. unfold joins_self, running_of, cap_released.
  destruct s as [bu ec v g cs ug fired rn t].
  destruct cs as [[[run [th|]] [[|]|] av]|]; cbn;
    try (split; [reflexivity | eexists; split; reflexivity]).
  all: unfold CameraSentinel.stop, SecurityMonitorM.stop, SecurityMonitorM.join;
    cbv -[tid_eqb app]; destruct (tid_eqb th me); cbn;
    (split; [reflexivity | eexists; split; reflexivity]).
Qed.

(** Once another thread has asked monitor [m] to stop, its flag is
    down, whatever other calls follow. *)
Lemma interfere_stops (m : monitor_id) (acts : list ext_action) (s : Sys) :
  In (ExtStop m) acts ->
  exists s', interfere acts s = Ok tt s'
             /\ running_of m s' = false /\ trace s' = trace s.
Proof.
  revert s. induction acts as [|a acts IH]; intros s Hin; [contradiction|].
  cbn [interfere].
  destruct (interfere_one_spec a s) as (s1 & E1 & [Ht1 _ _ Hd1] & _).
  rewrite (bind_ok _ _ _ _ _ E1).
  destruct Hin as [->|Hin].
  - assert (Hdown : running_of m s1 = false).
    { cbn in E1. injection E1 as <-. unfold running_of.
      destruct m; cbn; [destruct (camera_sentinel s) | destruct (usb_guard s)];
        reflexivity. }
    destruct (interfere_spec acts s1) as (s2 & E2 & [Ht2 _ _ Hd2] & _).
    exists s2. split; [exact E2|]. split; [apply Hd2, Hdown | congruence].
  - destruct (IH s1 Hin) as (s2 & E2 & Hr2 & Ht2).
    exists s2. split; [exact E2|]. split; [exact Hr2 | congruence].
Qed.

Section AnyCallbacks.
Variable panic_callback : tid -> M Sys unit.
Variable status_callback : string -> string -> M Sys unit.
Variable blur_callback : bool -> M Sys unit.

(** Cancellation of the USB guard is honoured at the next iteration:
    once another thread has called [stop], both of its loops are left
    at their next check of the flag, before the token is looked for
    and before any callback is called. *)
Theorem usb_stop_honoured (me : tid) (initial_state : bool)
        (tk : tick Host) (rest : list (tick Host)) (s : Sys) :
  In (ExtStop Usb) (before tk) ->
  (exists s',
      USBGuard.poll panic_callback status_callback me initial_state
                    (tk :: rest) s = Ok Exited s'
      /\ trace s' = trace s)
  /\ (exists s',
         USBGuard.bypass_idle (tk :: rest) s = Ok Exited s'
         /\ trace s' = trace s).
Proof.
  intros H.
  destruct (interfere_stops Usb (before tk) s H) as (s1 & E1 & Hr1 & Ht1).
  split; exists s1; (split; [|exact Ht1]).
  all: cbn [USBGuard.poll USBGuard.bypass_idle];
    rewrite (bind_ok _ _ _ _ _ E1); unfold is_running;
    rewrite bind_gets; fold (running_of Usb s1); rewrite Hr1; reflexivity.
Qed.

(** The same for the camera sentinel: after a [stop] from another
    thread, the detection loop and the degraded-mode loop are left at
    their next check, before a frame is read. *)
Theorem camera_stop_honoured (me : tid) (last : nat)
        (tk : tick frame) (rest : list (tick frame)) (s : Sys) :
  In (ExtStop Camera) (before tk) ->
  (exists s',
      CameraSentinel.watch panic_callback status_callback blur_callback
                           me last (tk :: rest) s = Ok Exited s'
      /\ trace s' = trace s)
  /\ (exists s',
         CameraSentinel.standby (tk :: rest) s = Ok Exited s'
         /\ trace s' = trace s).
Proof.
  intros H.
  destruct (interfere_stops Camera (before tk) s H) as (s1 & E1 & Hr1 & Ht1).
  split; exists s1; (split; [|exact Ht1]).
  all: cbn [CameraSentinel.watch CameraSentinel.standby];
    rewrite (bind_ok _ _ _ _ _ E1); unfold is_running;
    rewrite bind_gets; fold (running_of Camera s1); rewrite Hr1; reflexivity.
Qed.
End AnyCallbacks.

Lemma usb_stop_honoured_witness :
  exists s',
    USBGuard.poll GhostProtocol._trigger_panic GhostProtocol._update_status
                  (Worker Usb) true
                  [mkTick [ExtStop Usb] Samples.host_without_token]
                  Samples.booted = Ok Exited s'
    /\ trace s' = trace Samples.booted.
Proof.
  apply (proj1 (usb_stop_honoured
                  GhostProtocol._trigger_panic GhostProtocol._update_status
                  (Worker Usb) true
                  (mkTick [ExtStop Usb] Samples.host_without_token) []
                  Samples.booted (or_introl eq_refl))).
Defined.

Lemma camera_stop_honoured_witness :
  exists s',
    CameraSentinel.watch GhostProtocol._trigger_panic
                         GhostProtocol._update_status GhostProtocol._set_blur
                         (Worker Camera) 1
                         [mkTick [ExtStop Camera] (Faces 2)]
                         Samples.booted = Ok Exited s'
    /\ trace s' = trace Samples.booted.
Proof.
  apply (proj1 (camera_stop_honoured
                  GhostProtocol._trigger_panic GhostProtocol._update_status
                  GhostProtocol._set_blur
                  (Worker Camera) 1
                  (mkTick [ExtStop Camera] (Faces 2)) []
                  Samples.booted (or_introl eq_refl))).
Defined.
End StopExtras.

(** ** The workers' loops *)

Module LoopExtras.
Import GhostProtocol InterfereFacts PanicFacts UsbFacts CameraFacts.

Lemma panic_calls_app (l1 l2 : list event) :
  panic_calls (l1 ++ l2) = panic_calls l1 ++ panic_calls l2.
Proof. apply filter_app. Qed.

Lemma panic_calls_monitor (l : list event) :
  panic_calls (monitor_events l) = panic_calls l.
Proof.
  induction l as [|e l IH]; [reflexivity|].
  unfold panic_calls, monitor_events in *.
  destruct e; cbn; rewrite ?IH; reflexivity.
Qed.

Lemma panic_calls_quiet (l : list event) :
  monitor_events l = [] -> panic_calls l = [].
Proof. intros H. rewrite <- panic_calls_monitor, H. reflexivity. Qed.

Lemma panic_calls_of (l evs : list event) :
  monitor_events l = evs -> panic_calls evs = [] -> panic_calls l = [].
Proof. intros <-. rewrite panic_calls_monitor. auto. Qed.

Lemma panics_last_none (me : tid) (l : list event) :
  panic_calls l = [] -> panics_last me l.
Proof. left. assumption. Qed.

Lemma panics_last_prepend (me : tid) (p l : list event) :
  panic_calls p = [] -> panics_last me l -> panics_last me (p ++ l).
Proof.
  intros Hp [Hl | (l0 & Hm & Hl0)].
  - left. rewrite panic_calls_app, Hp, Hl. reflexivity.
  - right. exists (monitor_events p ++ l0). split.
    + rewrite monitor_events_app, Hm, app_assoc. reflexivity.
    + rewrite panic_calls_app, panic_calls_monitor, Hp, Hl0. reflexivity.
Qed.

Lemma panics_last_final (me : tid) (l l0 : list event) :
  monitor_events l = l0 ++ [EvPanicCall me] -> panic_calls l0 = [] ->
  panics_last me l.
Proof. right. eauto. Qed.

(** *** The USB guard *)

Section AnyCallbacks.
Variable panic_callback : tid -> M Sys unit.
Variable status_callback : string -> string -> M Sys unit.

(** While the token is seen at every check and was seen at the last
    one, the polling loop calls neither callback. *)
Lemma poll_token_stays (me : tid) (initial_state : bool)
  (ticks : list (tick Host)) (s : Sys) :
  Forall token_seen ticks ->
  usb_present_of s = true \/ running_of Usb s = false ->
  exists e s',
    USBGuard.poll panic_callback status_callback me initial_state ticks s
    = Ok e s'
    /\ trace s' = trace s.
Proof.
  intros Hall. revert s.
  induction Hall as [|tk rest Hck _ IH]; intros s Hs; cbn [USBGuard.poll].
  - exists Pending, s. auto.
  - destruct (interfere_spec (before tk) s) as (s1 & E1 & [Ht1 _ Hp1 Hd1] & _).
    rewrite (bind_ok _ _ _ _ _ E1). unfold is_running. rewrite bind_gets.
    fold (running_of Usb s1).
    destruct (running_of Usb s1) eqn:Hrun; cbn [negb].
    2: { exists Exited, s1. auto. }
    assert (Hp : usb_present_of s = true).
    { destruct Hs as [Hp | Hd]; [exact Hp|].
      apply (Hd1 Usb) in Hd. congruence. }
    unfold token_seen in Hck. rewrite Hck.
    rewrite andb_false_r.
    unfold USBGuard.get_usb_present. rewrite bind_gets.
    fold (usb_present_of s1). rewrite Hp1, Hp. cbn [negb andb].
    rewrite bind_ret.
    destruct (set_usb_present_spec true s1) as (s2 & E2 & Ht2 & _ & Hp2).
    rewrite (bind_ok _ _ _ _ _ E2).
    destruct (IH s2) as (e & s' & E & Ht); [left; apply Hp2, Hrun|].
    exists e, s'. split; [exact E | congruence].
Qed.
End AnyCallbacks.

Lemma usb_status_keeps (key value : string) (s : Sys) :
  exists s' l,
    USBGuard.call_status _update_status key value s = Ok tt s'
    /\ trace s' = trace s ++ EvStatus key value :: l
    /\ monitor_events l = []
    /\ usb_present_of s' = usb_present_of s
    /\ running_of Usb s' = running_of Usb s.
Proof.
  destruct (usb_call_status_spec key value s)
    as (s' & E & (l & Ht & Hq) & Hu & _).
  exists s', l. repeat (split; [assumption|]).
  unfold usb_present_of, running_of. cbn. rewrite Hu. auto.
Qed.

(** No false alarm: as long as every check finds the token, an armed
    guard reports SECURE once and then calls nothing, neither a status
    update nor the panic trigger, however long it runs and whatever
    other threads do to its flags. *)
Theorem token_present_never_trips (ticks : list (tick Host)) (s : Sys) :
  bypass_of s = false ->
  ticks <> [] ->
  Forall token_seen ticks ->
  exists e s' l,
    usb_worker ticks s = Ok e s'
    /\ trace s' = trace s ++ l
    /\ monitor_events l = [EvStatus "usb" "SECURE"].
Proof.
  intros Hb Hne Hall.
  destruct Hall as [|tk rest Hck Hall]; [congruence|].
  unfold usb_worker, USBGuard._monitor_loop, USBGuard.get_bypass_mode.
  rewrite bind_gets. fold (bypass_of s). rewrite Hb.
  destruct (interfere_spec (before tk) s) as (s1 & E1 & [Ht1 _ _ _] & _).
  rewrite (bind_ok _ _ _ _ _ E1).
  unfold token_seen in Hck. rewrite Hck.
  destruct (set_usb_present_spec true s1) as (s2 & E2 & Ht2 & Hr2 & Hp2).
  rewrite (bind_ok _ _ _ _ _ E2).
  destruct (usb_status_keeps "usb" "SECURE" s2)
    as (s3 & l3 & E3 & Ht3 & Hq3 & Hp3 & Hr3).
  rewrite (bind_ok _ _ _ _ _ E3).
  unfold USBGuard.get_usb_present. rewrite bind_gets.
  destruct (poll_token_stays _trigger_panic _update_status (Worker Usb)
              (match usb_guard s3 with
               | Some u => _usb_present u
               | None => false
               end) rest s3 Hall) as (e & s' & E & Ht).
  { rewrite Hp3, Hr3, Hr2.
    destruct (running_of Usb s1) eqn:Hrun;
      [left; apply Hp2; reflexivity | right; reflexivity]. }
  exists e, s', (EvStatus "usb" "SECURE" :: l3).
  split; [exact E|]. split; [congruence|].
  mev. rewrite Hq3. reflexivity.
Qed.

Lemma poll_panics_last (me : tid) (initial_state : bool)
  (ticks : list (tick Host)) (s : Sys) :
  exists l,
    trace (final (USBGuard.poll _trigger_panic _update_status me
                                initial_state ticks s)) = trace s ++ l
    /\ panics_last me l.
Proof.
  revert s. induction ticks as [|tk rest IH]; intros s; cbn [USBGuard.poll].
  - exists []. rewrite app_nil_r. split; [reflexivity|]. left. reflexivity.
  - destruct (interfere_spec (before tk) s) as (s1 & E1 & [Ht1 _ _ _] & _).
    rewrite (bind_ok _ _ _ _ _ E1). unfold is_running. rewrite bind_gets.
    destruct (negb _).
    { exists []. rewrite app_nil_r. split; [exact Ht1|]. left. reflexivity. }
    destruct (initial_state && negb _).
    + destruct (usb_status_keeps "usb" "REMOVED" s1)
        as (s2 & l2 & E2 & Ht2 & Hq2 & _).
      rewrite (bind_ok _ _ _ _ _ E2).
      destruct (usb_status_keeps "threat" "CRITICAL" s2)
        as (s3 & l3 & E3 & Ht3 & Hq3 & _).
      rewrite (bind_ok _ _ _ _ _ E3).
      destruct (trigger_panic_trace me s3) as (l4 & Ht4 & Hq4).
      exists (EvStatus "usb" "REMOVED" :: l2
              ++ EvStatus "threat" "CRITICAL" :: l3
              ++ EvPanicCall me :: l4).
      unfold USBGuard.call_panic.
      destruct (_trigger_panic me s3) as [[] s4 | e s4 | c s4] eqn:Ep;
        [ rewrite (bind_ok _ _ _ _ _ Ep) | rewrite (bind_exc _ _ _ _ _ Ep)
        | rewrite (bind_halt _ _ _ _ _ Ep) ];
        cbn [final ret] in *.
      all: rewrite Ht4, Ht3, Ht2, Ht1.
      all: split; [rewrite <- !app_assoc; reflexivity|].
      all: apply panics_last_final
        with (l0 := [EvStatus "usb" "REMOVED"; EvStatus "threat" "CRITICAL"]);
        [mev; rewrite Hq2, Hq3, Hq4; reflexivity | reflexivity].
    + unfold USBGuard.get_usb_present. rewrite bind_gets.
      set (current := USBGuard.check_ghost_key_present (sample tk)).
      match goal with
      | |- context [bind ?updates _ s1] =>
          assert (Hup : exists s2 l2, updates s1 = Ok tt s2
                                      /\ trace s2 = trace s1 ++ l2
                                      /\ panic_calls l2 = [])
      end.
      { destruct (current && negb _); [|destruct (negb current && _)].
        - destruct (usb_status_keeps "usb" "SECURE" s1)
            as (s2 & l2 & E2 & Ht2 & Hq2 & _).
          exists s2, (EvStatus "usb" "SECURE" :: l2).
          repeat split; try assumption.
          cbn. apply panic_calls_quiet, Hq2.
        - destruct (usb_status_keeps "usb" "NO KEY" s1)
            as (s2 & l2 & E2 & Ht2 & Hq2 & _).
          exists s2, (EvStatus "usb" "NO KEY" :: l2).
          repeat split; try assumption.
          cbn. apply panic_calls_quiet, Hq2.
        - exists s1, []. rewrite app_nil_r. auto. }
      destruct Hup as (s2 & l2 & E2 & Ht2 & Hq2).
      rewrite (bind_ok _ _ _ _ _ E2).
      destruct (set_usb_present_spec current s2) as (s3 & E3 & Ht3 & _).
      rewrite (bind_ok _ _ _ _ _ E3).
      destruct (IH s3) as (l & Hl & Hlast).
      exists (l2 ++ l). split.
      * rewrite Hl, Ht3, Ht2, Ht1, app_assoc. reflexivity.
      * apply panics_last_prepend; assumption.
Qed.

(** In any run of the USB guard's loop, from any state and whatever the
    checks see, the panic trigger is called at most once, and no
    callback is called after it. *)
Theorem usb_worker_panics_last (ticks : list (tick Host)) (s : Sys) :
  exists l,
    trace (final (usb_worker ticks s)) = trace s ++ l
    /\ panics_last (Worker Usb) l.
Proof.
  unfold usb_worker, USBGuard._monitor_loop, USBGuard.get_bypass_mode.
  rewrite bind_gets.
  destruct (match usb_guard s with Some u => _bypass_mode u | None => false end).
  - destruct (usb_status_keeps "usb" "BYPASSED" s)
      as (s1 & l1 & E1 & Ht1 & Hq1 & _).
    rewrite (bind_ok _ _ _ _ _ E1).
    destruct (bypass_idle_spec ticks s1) as (e & s2 & E2 & Ht2).
    rewrite E2. cbn [final].
    exists (EvStatus "usb" "BYPASSED" :: l1).
    split; [congruence|]. left. cbn. apply panic_calls_quiet, Hq1.
  - destruct ticks as [|tk rest].
    + exists []. rewrite app_nil_r. split; [reflexivity|]. left. reflexivity.
    + destruct (interfere_spec (before tk) s) as (s1 & E1 & [Ht1 _ _ _] & _).
      rewrite (bind_ok _ _ _ _ _ E1).
      set (present := USBGuard.check_ghost_key_present (sample tk)).
      destruct (set_usb_present_spec present s1) as (s2 & E2 & Ht2 & _).
      rewrite (bind_ok _ _ _ _ _ E2).
      assert (Hst : exists s3 l3,
                 (if present then USBGuard.call_status _update_status "usb" "SECURE"
                  else USBGuard.call_status _update_status "usb" "NO KEY") s2
                 = Ok tt s3
                 /\ trace s3 = trace s2 ++ l3 /\ panic_calls l3 = []).
      { destruct present.
        - destruct (usb_status_keeps "usb" "SECURE" s2)
            as (s3 & l3 & E3 & Ht3 & Hq3 & _).
          exists s3, (EvStatus "usb" "SECURE" :: l3).
          repeat split; try assumption. cbn. apply panic_calls_quiet, Hq3.
        - destruct (usb_status_keeps "usb" "NO KEY" s2)
            as (s3 & l3 & E3 & Ht3 & Hq3 & _).
          exists s3, (EvStatus "usb" "NO KEY" :: l3).
          repeat split; try assumption. cbn. apply panic_calls_quiet, Hq3. }
      destruct Hst as (s3 & l3 & E3 & Ht3 & Hq3).
      rewrite (bind_ok _ _ _ _ _ E3).
      unfold USBGuard.get_usb_present. rewrite bind_gets.
      destruct (poll_panics_last (Worker Usb)
                  (match usb_guard s3 with
                   | Some u => _usb_present u
                   | None => false
                   end) rest s3) as (l & Hl & Hlast).
      exists (l3 ++ l). split.
      * rewrite Hl, Ht3, Ht2, Ht1, app_assoc. reflexivity.
      * apply panics_last_prepend; assumption.
Qed.

Lemma token_present_never_trips_witness :
  exists e s' l,
    usb_worker (map Samples.quiet [Samples.host_with_token;
                                   Samples.host_with_token;
                                   Samples.host_with_token]) Samples.booted
    = Ok e s'
    /\ trace s' = trace Samples.booted ++ l
    /\ monitor_events l = [EvStatus "usb" "SECURE"].
Proof.
  apply (token_present_never_trips
           (map Samples.quiet [Samples.host_with_token;
                               Samples.host_with_token;
                               Samples.host_with_token]) Samples.booted).
  - reflexivity.
  - discriminate.
  - repeat constructor.
Defined.
End LoopExtras.

(** *** The camera sentinel *)

Module SentinelExtras.
Import GhostProtocol InterfereFacts PanicFacts CameraFacts LoopExtras.

#[local] Abbreviation watch :=
  (CameraSentinel.watch _trigger_panic _update_status _set_blur).
#[local] Abbreviation loop_body :=
  (CameraSentinel.loop_body _trigger_panic _update_status _set_blur).

(** What [_initialize_camera] reports and returns, for every probe. *)
Lemma initialize_spec (probe : camera_probe) (s : Sys) :
  let r := CameraSentinel._initialize_camera _update_status probe s in
  exists l,
    trace (final r) = trace s ++ l
    /\ match r with
       | Ok ok _ => monitor_events l = degraded_report probe
                    /\ ok = negb (degraded probe)
       | Exc _ _ => l = []
       | Halt _ _ => False
       end.
Proof.
  cbv zeta.
  destruct probe as [| |e|].
  1-3: unfold CameraSentinel._initialize_camera, try_except, raise, ret;
    cbn [final degraded].
  - exists []. rewrite app_nil_r. auto.
  - unfold CameraSentinel.set_cap, map_camera. rewrite bind_modify.
    match goal with
    | |- context [bind (CameraSentinel.call_status _ _ _) _ ?s0] =>
        destruct (camera_call_status_spec "camera" "NO CAMERA" s0)
          as (s1 & l1 & E1 & Ht1 & Hq1 & _)
    end.
    rewrite (bind_ok _ _ _ _ _ E1). exists (EvStatus "camera" "NO CAMERA" :: l1).
    cbn [final]. split; [exact Ht1|]. split; [|reflexivity].
    mev. rewrite Hq1. reflexivity.
  - destruct (is_Exception e); cbn [final].
    + destruct (camera_call_status_spec "camera" "ERROR" s)
        as (s1 & l1 & E1 & Ht1 & Hq1 & _).
      rewrite (bind_ok _ _ _ _ _ E1). exists (EvStatus "camera" "ERROR" :: l1).
      cbn [final]. split; [exact Ht1|]. split; [|reflexivity].
      mev. rewrite Hq1. reflexivity.
    + exists []. rewrite app_nil_r. auto.
  - destruct (initialize_opened s) as (s1 & l1 & E1 & Ht1 & Hq1 & _).
    rewrite E1. exists l1. cbn [final]. auto.
Qed.

(** Degraded mode: when the camera cannot be used (no classifier, no
    device, or an error during set-up), the worker reports at most one
    status, then only waits for its flag: it reads no frame, never blurs
    and never calls the panic trigger, whatever is in front of the
    camera. *)
Theorem camera_degraded_mode (probe : camera_probe)
        (ticks : list (tick frame)) (s : Sys) :
  degraded probe = true ->
  exists e s' l,
    camera_worker probe ticks s = Ok e s'
    /\ trace s' = trace s ++ l
    /\ monitor_events l = degraded_report probe.
Proof.
  intros Hd. unfold camera_worker, CameraSentinel._monitor_loop.
  pose proof (initialize_spec probe s) as Hi. cbv zeta in Hi.
  destruct (CameraSentinel._initialize_camera _update_status probe s)
    as [ok s0 | e s0 | c s0] eqn:Ei;
    destruct Hi as (l & Ht & Hr); cbn [final] in Ht.
  - destruct Hr as [Hq ->]. rewrite (bind_ok _ _ _ _ _ Ei), Hd. cbn [negb].
    destruct (standby_spec ticks s0) as (e1 & s1 & E1 & Ht1).
    exists e1, s1, l. split; [exact E1|]. split; [congruence | exact Hq].
  - exfalso. revert Ei.
    unfold CameraSentinel._initialize_camera, try_except.
    destruct probe as [| |e'|]; try discriminate Hd; cbn in Hd.
    + discriminate.
    + unfold CameraSentinel.set_cap, map_camera. rewrite bind_modify.
      match goal with
      | |- context [bind (CameraSentinel.call_status _ _ _) _ ?s1] =>
          destruct (camera_call_status_spec "camera" "NO CAMERA" s1)
            as (s2 & l2 & E2 & _)
      end.
      rewrite (bind_ok _ _ _ _ _ E2). discriminate.
    + unfold raise. rewrite Hd.
      destruct (camera_call_status_spec "camera" "ERROR" s)
        as (s2 & l2 & E2 & _).
      rewrite (bind_ok _ _ _ _ _ E2). discriminate.
  - contradiction.
Qed.

Lemma camera_degraded_mode_witness :
  exists e s' l,
    camera_worker CameraUnavailable
                  (map Samples.quiet [Faces 1; Faces 2; Faces 3]) Samples.booted
    = Ok e s'
    /\ trace s' = trace Samples.booted ++ l
    /\ monitor_events l = [EvStatus "camera" "NO CAMERA"].
Proof.
  apply (camera_degraded_mode CameraUnavailable
           (map Samples.quiet [Faces 1; Faces 2; Faces 3]) Samples.booted).
  reflexivity.
Defined.

Lemma body_skips (me : tid) (last : nat) (f : frame) (s : Sys) :
  transient f = true ->
  loop_body me last f s = Ok (CameraSentinel.Continue last) s.
Proof.
  unfold CameraSentinel.loop_body, try_except.
  destruct f as [| e | n]; cbn; intros H; try discriminate; [reflexivity|].
  unfold raise. rewrite H. reflexivity.
Qed.

Lemma watch_panics_last (me : tid) (last : nat) (ticks : list (tick frame))
  (s : Sys) :
  exists l,
    trace (final (watch me last ticks s)) = trace s ++ l
    /\ panics_last me l.
Proof.
  revert last s.
  induction ticks as [|tk rest IH]; intros last s; cbn [CameraSentinel.watch].
  - exists []. rewrite app_nil_r. split; [reflexivity|]. left. reflexivity.
  - destruct (interfere_spec (before tk) s) as (s1 & E1 & [Ht1 _ _ _] & _).
    rewrite (bind_ok _ _ _ _ _ E1). unfold is_running. rewrite bind_gets.
    destruct (negb _).
    { exists []. rewrite app_nil_r. split; [exact Ht1|]. left. reflexivity. }
    destruct (sample tk) as [| e | [|[|n]]].
    + rewrite (bind_ok _ _ _ _ _ (body_skips me last ReadFails s1 eq_refl)).
      destruct (IH last s1) as (l & Hl & Hlast).
      exists l. rewrite Hl, Ht1. auto.
    + destruct (is_Exception e) eqn:He.
      * rewrite (bind_ok _ _ _ _ _
                   (body_skips me last (ProcessingRaises e) s1 He)).
        destruct (IH last s1) as (l & Hl & Hlast).
        exists l. rewrite Hl, Ht1. auto.
      * assert (Eb : loop_body me last (ProcessingRaises e) s1 = Exc e s1).
        { unfold CameraSentinel.loop_body, try_except, raise. rewrite He.
          reflexivity. }
        rewrite (bind_exc _ _ _ _ _ Eb). cbn [final].
        exists []. rewrite app_nil_r. split; [exact Ht1|]. left. reflexivity.
    + destruct (body_absent me last s1) as (s2 & l2 & E2 & Ht2 & Hq2 & _).
      rewrite (bind_ok _ _ _ _ _ E2).
      destruct (IH 0%nat s2) as (l & Hl & Hlast).
      exists (l2 ++ l). split.
      * rewrite Hl, Ht2, Ht1, app_assoc. reflexivity.
      * apply panics_last_prepend; [|exact Hlast].
        apply (panic_calls_of _ _ Hq2). destruct (last =? 0)%nat; reflexivity.
    + destruct (body_present me last s1) as (s2 & l2 & E2 & Ht2 & Hq2 & _).
      rewrite (bind_ok _ _ _ _ _ E2).
      destruct (IH 1%nat s2) as (l & Hl & Hlast).
      exists (l2 ++ l). split.
      * rewrite Hl, Ht2, Ht1, app_assoc. reflexivity.
      * apply panics_last_prepend; [|exact Hlast].
        apply (panic_calls_of _ _ Hq2). destruct (last =? 1)%nat; reflexivity.
    + pose proof (body_intrusion me last n s1) as Hb. cbv zeta in Hb.
      destruct Hb as (l & Hl & Hq & Hend).
      assert (Hlast : panics_last me l).
      { apply panics_last_final
          with (l0 := [EvStatus "camera" "BREACH"; EvStatus "threat" "CRITICAL"]);
          [exact Hq | reflexivity]. }
      destruct (loop_body me last (Faces (S (S n))) s1)
        as [[last'|] s2 | e s2 | c s2] eqn:Eb;
        [ rewrite (bind_ok _ _ _ _ _ Eb) | rewrite (bind_ok _ _ _ _ _ Eb)
        | rewrite (bind_exc _ _ _ _ _ Eb) | rewrite (bind_halt _ _ _ _ _ Eb) ];
        cbn [final ret intrusion_end] in *.
      * destruct Hend as [_ Hdown].
        destruct (watch_down me last' rest s2 Hdown) as (e & s3 & E3 & Ht3 & _).
        rewrite E3. cbn [final]. exists l. split; [congruence | exact Hlast].
      * exists l. split; [congruence | exact Hlast].
      * contradiction.
      * exists l. split; [congruence | exact Hlast].
Qed.

(** In any run of the camera sentinel's loop, from any state, with any
    probe and any frames, the panic trigger is called at most once, and
    no callback is called after it. *)
Theorem camera_worker_panics_last (probe : camera_probe)
        (ticks : list (tick frame)) (s : Sys) :
  exists l,
    trace (final (camera_worker probe ticks s)) = trace s ++ l
    /\ panics_last (Worker Camera) l.
Proof.
  unfold camera_worker, CameraSentinel._monitor_loop.
  pose proof (initialize_spec probe s) as Hi. cbv zeta in Hi.
  destruct (CameraSentinel._initialize_camera _update_status probe s)
    as [ok s0 | e s0 | c s0] eqn:Ei;
    destruct Hi as (l0 & Ht0 & Hr); cbn [final] in Ht0.
  - destruct Hr as [Hq0 _].
    assert (Hp0 : panic_calls l0 = []).
    { apply (panic_calls_of _ _ Hq0). destruct probe; reflexivity. }
    rewrite (bind_ok _ _ _ _ _ Ei). destruct ok; cbn [negb].
    + rewrite (proj1 (release_on_exit _ s0)).
      destruct (watch_panics_last (Worker Camera) 1 ticks s0) as (l & Hl & Hlast).
      exists (l0 ++ l). split.
      * rewrite Hl, Ht0, app_assoc. reflexivity.
      * apply panics_last_prepend; assumption.
    + destruct (standby_spec ticks s0) as (e1 & s1 & E1 & Ht1).
      rewrite E1. cbn [final]. exists l0. split; [congruence|].
      left. exact Hp0.
  - subst l0. rewrite (bind_exc _ _ _ _ _ Ei). cbn [final].
    exists []. split; [exact Ht0|]. left. reflexivity.
  - contradiction.
Qed.

Lemma watch_skips (me : tid) (pre : list (tick frame)) (f : frame)
  (post : list (tick frame)) (last : nat) (s : Sys) :
  transient f = true ->
  trace (final (watch me last (pre ++ Samples.quiet f :: post) s))
  = trace (final (watch me last (pre ++ post) s)).
Proof.
  intros Hf. revert last s.
  induction pre as [|tk pre IH]; intros last s; cbn [app].
  - destruct (running_of Camera s) eqn:Hrun.
    + rewrite (watch_quiet_step me last f post s Hrun).
      rewrite (bind_ok _ _ _ _ _ (body_skips me last f s Hf)). reflexivity.
    + destruct (watch_down me last (Samples.quiet f :: post) s Hrun)
        as (e1 & s1 & E1 & Ht1 & _).
      destruct (watch_down me last post s Hrun) as (e2 & s2 & E2 & Ht2 & _).
      rewrite E1, E2. cbn [final]. congruence.
  - cbn [CameraSentinel.watch].
    destruct (interfere_spec (before tk) s) as (s1 & E1 & _).
    rewrite !(bind_ok _ _ _ _ _ E1). unfold is_running. rewrite !bind_gets.
    destruct (negb _); [reflexivity|].
    destruct (loop_body me last (sample tk) s1)
      as [[last'|] s2 | e s2 | c s2] eqn:Eb;
      [ rewrite !(bind_ok _ _ _ _ _ Eb) | rewrite !(bind_ok _ _ _ _ _ Eb)
      | rewrite !(bind_exc _ _ _ _ _ Eb) | rewrite !(bind_halt _ _ _ _ _ Eb) ];
      try reflexivity.
    apply IH.
Qed.

(** A frame that cannot be read, or whose processing raises an ordinary
    exception, leaves no mark: with no other thread acting at that
    moment, the worker's callbacks are the same as if the sample had not
    been taken, for all frames before and after it. *)
Theorem transient_frames_skipped (probe : camera_probe)
        (pre : list (tick frame)) (f : frame) (post : list (tick frame))
        (s : Sys) :
  transient f = true ->
  trace (final (camera_worker probe (pre ++ Samples.quiet f :: post) s))
  = trace (final (camera_worker probe (pre ++ post) s)).
Proof.
  intros Hf. unfold camera_worker, CameraSentinel._monitor_loop.
  destruct (CameraSentinel._initialize_camera _update_status probe s)
    as [ok s0 | e s0 | c s0] eqn:Ei;
    [ rewrite !(bind_ok _ _ _ _ _ Ei) | rewrite !(bind_exc _ _ _ _ _ Ei)
    | rewrite !(bind_halt _ _ _ _ _ Ei) ]; try reflexivity.
  destruct ok; cbn [negb].
  - rewrite (proj1 (release_on_exit _ s0)), (proj1 (release_on_exit _ s0)).
    apply watch_skips, Hf.
  - destruct (standby_spec (pre ++ Samples.quiet f :: post) s0)
      as (e1 & s1 & E1 & Ht1).
    destruct (standby_spec (pre ++ post) s0) as (e2 & s2 & E2 & Ht2).
    rewrite E1, E2. cbn [final]. congruence.
Qed.

Lemma transient_frames_skipped_witness :
  trace (final (camera_worker CameraOpened
                  (map Samples.quiet [Faces 0] ++ Samples.quiet ReadFails
                     :: map Samples.quiet [Faces 0; Faces 1])
                  Samples.booted))
  = trace (final (camera_worker CameraOpened
                    (map Samples.quiet [Faces 0]
                       ++ map Samples.quiet [Faces 0; Faces 1])
                    Samples.booted)).
Proof.
  apply (transient_frames_skipped CameraOpened (map Samples.quiet [Faces 0])
           ReadFails (map Samples.quiet [Faces 0; Faces 1]) Samples.booted).
  reflexivity.
Defined.

Lemma interfere_cap (acts : list ext_action) (s : Sys) :
  exists s',
    interfere acts s = Ok tt s'
    /\ option_map cap (camera_sentinel s') = option_map cap (camera_sentinel s).
Proof.
  revert s. induction acts as [|a acts IH]; intros s; cbn [interfere].
  - exists s. auto.
  - assert (H1 : exists s1, interfere_one a s = Ok tt s1
                            /\ option_map cap (camera_sentinel s1)
                               = option_map cap (camera_sentinel s)).
    { destruct a as [[|]|b]; cbn; eexists; (split; [reflexivity|]);
        cbn; destruct (camera_sentinel s); reflexivity. }
    destruct H1 as (s1 & E1 & H1). rewrite (bind_ok _ _ _ _ _ E1).
    destruct (IH s1) as (s2 & E2 & H2). exists s2. split; [exact E2 | congruence].
Qed.

Lemma standby_cap (ticks : list (tick frame)) (s : Sys) :
  exists e s',
    CameraSentinel.standby ticks s = Ok e s'
    /\ option_map cap (camera_sentinel s') = option_map cap (camera_sentinel s).
Proof.
  revert s. induction ticks as [|tk rest IH]; intros s;
    cbn [CameraSentinel.standby].
  - exists Pending, s. auto.
  - destruct (interfere_cap (before tk) s) as (s1 & E1 & H1).
    rewrite (bind_ok _ _ _ _ _ E1). unfold is_running. rewrite bind_gets.
    destruct (match get_base Camera s1 with Some b => _running b | None => false end).
    + destruct (IH s1) as (e & s2 & E2 & H2). exists e, s2.
      split; [exact E2 | congruence].
    + exists Exited, s1. auto.
Qed.

Lemma cap_released_same (s s' : Sys) :
  option_map cap (camera_sentinel s') = option_map cap (camera_sentinel s) ->
  cap_released s' = cap_released s.
Proof.
  unfold cap_released.
  destruct (camera_sentinel s) as [o|], (camera_sentinel s') as [o'|];
    cbn; intros H; try discriminate; [|reflexivity].
  injection H as ->. reflexivity.
Qed.

Lemma initialize_cap (probe : camera_probe) (s : Sys) :
  cap_released s = true ->
  match CameraSentinel._initialize_camera _update_status probe s with
  | Ok false s0 => cap_released s0 = true
  | _ => True
  end.
Proof.
  intros Hs. unfold CameraSentinel._initialize_camera, try_except.
  destruct probe as [| |e|]; unfold raise, ret.
  - exact Hs.
  - unfold CameraSentinel.set_cap, map_camera. rewrite bind_modify.
    match goal with
    | |- context [bind (CameraSentinel.call_status _ _ _) _ ?s0] =>
        destruct (camera_call_status_spec "camera" "NO CAMERA" s0)
          as (s2 & l2 & E2 & _ & _ & Hc2 & _)
    end.
    rewrite (bind_ok _ _ _ _ _ E2).
    unfold cap_released. rewrite Hc2. cbn.
    destruct (camera_sentinel s); reflexivity.
  - destruct (is_Exception e); [|exact I].
    destruct (camera_call_status_spec "camera" "ERROR" s)
      as (s2 & l2 & E2 & _ & _ & Hc2 & _).
    rewrite (bind_ok _ _ _ _ _ E2).
    unfold cap_released. rewrite Hc2. exact Hs.
  - destruct (initialize_opened s) as (s0 & l0 & E0 & _).
    unfold CameraSentinel._initialize_camera, try_except, raise, ret in E0.
    rewrite E0. exact I.
Qed.

(** No device is left open by a loop that ends: when the worker's loop
    is left in the ordinary way (its flag was lowered, or it broke out
    after the panic call returned), the capture device has been
    released, in detection mode and in degraded mode alike. *)
Theorem camera_released_on_exit (probe : camera_probe)
        (ticks : list (tick frame)) (s s' : Sys) :
  cap_released s = true ->
  camera_worker probe ticks s = Ok Exited s' ->
  cap_released s' = true.
Proof.
  intros Hs. unfold camera_worker, CameraSentinel._monitor_loop.
  pose proof (initialize_cap probe s Hs) as Hi.
  destruct (CameraSentinel._initialize_camera _update_status probe s)
    as [[|] s0 | e s0 | c s0] eqn:Ei;
    [ rewrite (bind_ok _ _ _ _ _ Ei) | rewrite (bind_ok _ _ _ _ _ Ei)
    | rewrite (bind_exc _ _ _ _ _ Ei) | rewrite (bind_halt _ _ _ _ _ Ei) ];
    try discriminate; cbn [negb].
  - unfold bind at 1.
    destruct (watch (Worker Camera) 1 ticks s0) as [[|] s1 | e s1 | c s1];
      try discriminate.
    unfold CameraSentinel.release_cap, map_camera. rewrite bind_modify.
    intros [= <-]. unfold cap_released. cbn.
    destruct (camera_sentinel s1) as [[b [c|] av]|]; reflexivity.
  - destruct (standby_cap ticks s0) as (e1 & s1 & E1 & H1). rewrite E1.
    intros [= _ <-]. rewrite (cap_released_same _ _ H1). exact Hi.
Qed.

Lemma camera_released_on_exit_witness :
  cap_released
    (final (camera_worker CameraOpened
              [Samples.quiet (Faces 1); mkTick [ExtStop Camera] (Faces 1)]
              Samples.booted)) = true.
Proof.
  apply (camera_released_on_exit CameraOpened
           [Samples.quiet (Faces 1); mkTick [ExtStop Camera] (Faces 1)]
           Samples.booted).
  - reflexivity.
  - vm_compute. reflexivity.
Defined.
End SentinelExtras.

(** ** The panic sequence *)

Module PanicExtras.
Import GhostProtocol PanicFacts PanicDown.

Lemma nuke_on_vault (o : GhostProtocolVault.t) (s : Sys) :
  exists v' r',
    on_vault GhostProtocolVault.nuke_memory o s
    = Ok tt (set_sys_rng r' (set_vault (Some v') s))
    /\ GhostProtocolVault._nuked v' = true.
Proof.
  unfold on_vault.
  set (w := GhostProtocolVault.mkWorld o (sys_rng s)).
  destruct (GhostProtocolVault._nuked (GhostProtocolVault.self w)) eqn:Hn.
  - rewrite (VaultFacts.nuke_memory_nuked w Hn).
    exists o, (sys_rng s). split; [reflexivity | exact Hn].
  - destruct (VaultFacts.nuke_memory_cases w Hn) as (w' & E & Hw).
    rewrite E. exists (GhostProtocolVault.self w'), (GhostProtocolVault.rng w').
    split; [reflexivity|].
    destruct (GhostProtocolVault.nuke_body w); rewrite Hw; reflexivity.
Qed.

Lemma snoc_cons {A} (e x : A) (l l' : list A) :
  l' = l ++ [x] -> e :: l' = (e :: l) ++ [x].
Proof. intros ->. reflexivity. Qed.

(** Splits a list written out in full into its front and its last
    element. *)
Ltac split_last :=
  repeat first [ exact (eq_refl : [_] = [] ++ [_]) | apply snoc_cons ].

Lemma trigger_panic_off_worker (me : tid) (s : Sys) :
  _panic_triggered s = false ->
  joins_self Camera s me = false ->
  joins_self Usb s me = false ->
  exists s' l,
    _trigger_panic me s = Halt 0 s'
    /\ _panic_triggered s' = true
    /\ running_of Camera s' = false
    /\ running_of Usb s' = false
    /\ vault_wiped s'
    /\ trace s' = trace s ++ EvPanicCall me :: l ++ [EvExit 0]
    /\ (vault s <> None -> In EvWipe l).
Proof.
  intros Hf Hc Hu. rewrite (trigger_panic_unfold me s Hf).
  unfold after_camera_stop, CameraSentinel.stop, CameraSentinel.release_cap,
    SecurityMonitorM.stop, SecurityMonitorM.join, map_camera, vault_wiped,
    joins_self, running_of in *.
  destruct s as [bu ec v g cs ug fired rn t]. cbn in Hf, Hc, Hu. subst fired.
  destruct cs as [[[crun [cth|]] cp av]|]; cbn in Hc; rewrite ?Hc;
    (destruct ug as [[[urun [uth|]] pr bp]|]; cbn in Hu; rewrite ?Hu);
    (destruct v as [v|]);
    (destruct g as [[[|]]|]).
  all: cbv -[on_vault tid_eqb app GhostProtocolVault.nuke_memory];
    rewrite ?Hc, ?Hu; cbv -[on_vault tid_eqb app GhostProtocolVault.nuke_memory].
  all: try match goal with
           | |- context [on_vault GhostProtocolVault.nuke_memory ?o ?s0] =>
               destruct (nuke_on_vault o s0) as (v' & r' & E & Hn);
               rewrite E; cbv -[app]
           end.
  all: rewrite <- ?app_assoc; cbn [app].
  all: eexists; eexists; split; [reflexivity|]; cbn [_panic_triggered
    camera_sentinel usb_guard vault trace get_base option_map cam_base
    usb_base _running].
  all: do 4 (split; [first [reflexivity | assumption | exact I]|]).
  all: split; [do 2 f_equal; split_last|].
  all: intros Hv; cbn; try congruence; tauto.
Qed.



Lemma set_trace_twice (t1 t2 : list event) (s : Sys) :
  set_trace t2 (set_trace t1 s) = set_trace t2 s.
Proof. destruct s; reflexivity. Qed.

Lemma set_trace_same (s : Sys) : set_trace (trace s) s = s.
Proof. destruct s; reflexivity. Qed.

Lemma trigger_from_fired (src : panic_source) (s : Sys) :
  _panic_triggered s = true ->
  trigger_from src s = Ok tt (set_trace (trace s ++ ignored_call src) s).
Proof.
  intros Hf. destruct src as [m| | |]; cbn [trigger_from ignored_call].
  - unfold in_thread. rewrite (trigger_panic_fired (Worker m) s Hf). reflexivity.
  - apply trigger_panic_fired, Hf.
  - apply trigger_panic_fired, Hf.
  - unfold _cleanup. rewrite bind_gets, Hf. cbn.
    rewrite app_nil_r, set_trace_same. reflexivity.
Qed.

(** The sequence runs at most once: when the flag is set, every later
    call of the trigger, from a monitor, a signal, the button or the exit
    handler, returns at once.  Nothing but the log changes: no monitor is
    stopped, nothing is wiped, the process is not ended. *)
Theorem later_triggers_inert (srcs : list panic_source) (s : Sys) :
  _panic_triggered s = true ->
  fire srcs s = Ok tt (set_trace (trace s ++ flat_map ignored_call srcs) s).
Proof.
  revert s. induction srcs as [|src rest IH]; intros s Hf; cbn [fire flat_map].
  - rewrite app_nil_r, set_trace_same. reflexivity.
  - rewrite (bind_ok _ _ _ _ _ (trigger_from_fired src s Hf)).
    rewrite IH by (destruct s; exact Hf).
    rewrite set_trace_twice. f_equal. f_equal.
    destruct s; cbn. rewrite app_assoc. reflexivity.
Qed.

Lemma later_triggers_inert_witness :
  let s := final (_trigger_panic (Worker Usb) Samples.booted) in
  fire [FromButton; FromMonitor Camera; FromAtexit; FromSignal] s
  = Ok tt (set_trace (trace s ++ [EvPanicCall MainThread;
                                  EvPanicCall (Worker Camera);
                                  EvPanicCall MainThread]) s).
Proof.
  apply (later_triggers_inert
           [FromButton; FromMonitor Camera; FromAtexit; FromSignal]
           (final (_trigger_panic (Worker Usb) Samples.booted))).
  reflexivity.
Defined.
End PanicExtras.

(** ** Startup and shutdown *)

Module RunExtras.
Import GhostProtocol PanicFacts UsbFacts PanicExtras.

Lemma start_monitors_spec (s : Sys) :
  exists s',
    _start_monitors s = Ok tt s'
    /\ usb_guard s'
       = Some (mkUsb (mkMonitor true (Some (Worker Usb))) false (bypass_usb s))
    /\ camera_sentinel s'
       = (if enable_camera s
          then Some (mkCamera (mkMonitor true (Some (Worker Camera))) None false)
          else camera_sentinel s)
    /\ vault s' = vault s
    /\ _panic_triggered s' = _panic_triggered s
    /\ quietly s s'.
Proof.
  destruct s as [bu ec v g cs ug fired rn t].
  destruct ec, bu, g as [[[|]]|]; cbv -[app]; rewrite <- ?app_assoc; cbn [app].
  all: eexists; split; [reflexivity|]; cbn.
  all: do 4 (split; [reflexivity|]).
  all: first [ exists []; split; [rewrite app_nil_r; reflexivity | reflexivity]
             | eexists; split; reflexivity ].
Qed.

(** Started with [--bypass-usb], the guard is disarmed from its first
    step: after [_start_monitors] its worker reports BYPASSED and calls
    nothing else, whatever the checks would have seen. *)
Theorem cli_bypass_disarms_guard (ticks : list (tick Host)) (s : Sys) :
  bypass_usb s = true ->
  exists e s' l,
    (_start_monitors ;; usb_worker ticks) s = Ok e s'
    /\ trace s' = trace s ++ l
    /\ monitor_events l = [EvStatus "usb" "BYPASSED"].
Proof.
  intros Hb.
  destruct (start_monitors_spec s) as (s1 & E1 & Hu & _ & _ & _ & l1 & Ht1 & Hq1).
  rewrite (bind_ok _ _ _ _ _ E1).
  destruct (worker_bypassed ticks s1) as (e & s' & l & E & Ht & Hq).
  { unfold bypass_of. rewrite Hu. exact Hb. }
  exists e, s', (l1 ++ l). split; [exact E|]. split.
  - rewrite Ht, Ht1, app_assoc. reflexivity.
  - rewrite monitor_events_app, Hq1, Hq. reflexivity.
Qed.

(** Started without the bypass, the guard is armed: after
    [_start_monitors], a worker that sees the token at its first check
    and then misses it calls the panic trigger at that check. *)
Theorem startup_arms_guard (t0 : tick Host) (pre : list (tick Host))
        (t : tick Host) (post : list (tick Host)) (s : Sys) :
  bypass_usb s = false ->
  calm Usb t0 ->
  token_seen t0 ->
  Forall (fun tk => calm Usb tk /\ token_seen tk) pre ->
  calm Usb t ->
  USBGuard.check_ghost_key_present (sample t) = false ->
  let r := (_start_monitors ;; usb_worker (t0 :: pre ++ t :: post)) s in
  exists l,
    trace (final r) = trace s ++ l
    /\ monitor_events l = [EvStatus "usb" "SECURE";
                           EvStatus "usb" "REMOVED";
                           EvStatus "threat" "CRITICAL";
                           EvPanicCall (Worker Usb)].
Proof.
  intros Hb Hc0 Hs0 Hpre Hc Ha. cbv zeta.
  destruct (start_monitors_spec s) as (s1 & E1 & Hu & _ & _ & _ & l1 & Ht1 & Hq1).
  rewrite (bind_ok _ _ _ _ _ E1).
  pose proof (worker_trips t0 pre t post s1) as Hw. cbv zeta in Hw.
  destruct Hw as (l & Ht & Hq & _); try assumption.
  - unfold running_of. cbn. rewrite Hu. reflexivity.
  - unfold bypass_of. rewrite Hu. exact Hb.
  - exists (l1 ++ l). split.
    + rewrite Ht, Ht1, app_assoc. reflexivity.
    + rewrite monitor_events_app, Hq1, Hq. reflexivity.
Qed.

Lemma cli_bypass_disarms_guard_witness :
  exists e s' l,
    (_start_monitors ;;
     usb_worker (map Samples.quiet [Samples.host_with_token;
                                    Samples.host_without_token]))
      (final ((create_vault ;; Samples.with_window) (init true true Samples.steady)))
    = Ok e s'
    /\ trace s'
       = trace (final ((create_vault ;; Samples.with_window)
                         (init true true Samples.steady))) ++ l
    /\ monitor_events l = [EvStatus "usb" "BYPASSED"].
Proof.
  apply (cli_bypass_disarms_guard
           (map Samples.quiet [Samples.host_with_token;
                               Samples.host_without_token])
           (final ((create_vault ;; Samples.with_window) (init true true Samples.steady)))).
  reflexivity.
Defined.

Lemma startup_arms_guard_witness :
  exists l,
    trace (final ((_start_monitors ;;
                   usb_worker (Samples.quiet Samples.host_with_token
                                 :: [] ++ Samples.quiet Samples.host_without_token
                                 :: []))
                    (final ((create_vault ;; Samples.with_window)
                              (init false true Samples.steady)))))
    = trace (final ((create_vault ;; Samples.with_window)
                      (init false true Samples.steady))) ++ l
    /\ monitor_events l = [EvStatus "usb" "SECURE";
                           EvStatus "usb" "REMOVED";
                           EvStatus "threat" "CRITICAL";
                           EvPanicCall (Worker Usb)].
Proof.
  apply (startup_arms_guard
           (Samples.quiet Samples.host_with_token) []
           (Samples.quiet Samples.host_without_token) []
           (final ((create_vault ;; Samples.with_window)
                     (init false true Samples.steady)))).
  - reflexivity.
  - intros [].
  - reflexivity.
  - constructor.
  - intros [].
  - reflexivity.
Defined.

(** The [if not self._panic_triggered: self._trigger_panic()] of the
    exit handler and of the [finally] clause, in the main thread. *)
Lemma last_resort_halts (s : Sys) :
  _panic_triggered s = false ->
  joins_self Camera s MainThread = false ->
  joins_self Usb s MainThread = false ->
  exists s',
    _cleanup s = Halt 0 s' /\ vault_wiped s' /\ _panic_triggered s' = true.
Proof.
  intros Hf Hc Hu. unfold _cleanup. rewrite bind_gets, Hf. cbn [negb].
  destruct (trigger_panic_off_worker MainThread s Hf Hc Hu)
    as (s' & l & E & Hf' & _ & _ & Hw & _).
  exists s'. auto.
Qed.


(** The constructor of the status panel, on a panel object in any
    state: it reads [_status_labels] in its first row, before it assigns
    it.  On a new object it raises [AttributeError]; had the attribute
    been there, the rows would be registered and then thrown away by the
    assignment that ends the constructor. *)
Theorem status_panel_init_raises (o : StatusPanel.t) :
  StatusPanel.init o
  = match StatusPanel._status_labels o with
    | None => Exc AttributeError o
    | Some _ => Ok tt (StatusPanel.mk (Some []))
    end
  /\ StatusPanel.new = Exc AttributeError (StatusPanel.mk None)
  /\ forall s, create_gui s = Exc AttributeError s.
Proof.
  split; [|split].
  - destruct o as [[d|]]; reflexivity.
  - reflexivity.
  - intros s. reflexivity.
Qed.

End RunExtras.

(** ** The exit status *)

Module ExitExtras.
Import GhostProtocol PanicFacts PanicDown PanicExtras RunExtras.

Lemma orderly_ret {A} (a : A) : orderly (ret a).
Proof. intros s. split; [reflexivity | discriminate]. Qed.

Lemma orderly_raise {A} (e : exn) : orderly (@raise Sys A e).
Proof. intros s. split; [reflexivity | discriminate]. Qed.

Lemma orderly_gets {A} (f : Sys -> A) : orderly (gets f).
Proof. intros s. split; [reflexivity | discriminate]. Qed.

Lemma orderly_modify (f : Sys -> Sys) :
  (forall s, threads_of (f s) = threads_of s) -> orderly (modify f).
Proof. intros H s. split; [apply H | discriminate]. Qed.

Lemma orderly_bind {A B} (m : M Sys A) (k : A -> M Sys B) :
  orderly m -> (forall a, orderly (k a)) -> orderly (bind m k).
Proof.
  intros Hm Hk s. unfold bind. destruct (Hm s) as [Ht Hh].
  destruct (m s) as [a s1 | e s1 | c s1]; cbn [final] in *.
  - destruct (Hk a s1) as [Ht1 Hh1]. split; [congruence | exact Hh1].
  - split; [exact Ht | discriminate].
  - split; [exact Ht|]. intros c' s' [= <- <-]. eapply Hh. reflexivity.
Qed.

Lemma orderly_try {A} (body : M Sys A) (handler : exn -> M Sys A) :
  orderly body -> (forall e, orderly (handler e)) ->
  orderly (try_except body handler).
Proof.
  intros Hb Hh s. unfold try_except. destruct (Hb s) as [Ht Hz].
  destruct (body s) as [a s1 | e s1 | c s1]; cbn [final] in *.
  - split; [exact Ht | discriminate].
  - destruct (is_Exception e).
    + destruct (Hh e s1) as [Ht1 Hz1]. split; [congruence | exact Hz1].
    + split; [exact Ht | discriminate].
  - split; [exact Ht|]. intros c' s' [= <- <-]. eapply Hz. reflexivity.
Qed.

Lemma orderly_os_exit {A} : orderly (@os_exit A 0).
Proof.
  intros s. split; [destruct s; reflexivity|].
  unfold os_exit. intros c s' [= <- _]. reflexivity.
Qed.

Lemma orderly_on_vault {A} (m : M GhostProtocolVault.world A)
  (o : GhostProtocolVault.t) :
  (forall w c w', m w <> Halt c w') -> orderly (on_vault m o).
Proof.
  intros Hm s. split.
  - destruct (on_vault_final m o s) as (v & r & ->). destruct s; reflexivity.
  - unfold on_vault. intros c s'.
    destruct (m _) as [a w | e w | c' w] eqn:E; try discriminate.
    exfalso. eapply Hm, E.
Qed.

Lemma orderly_in_thread {A} (m : M Sys A) : orderly m -> orderly (in_thread m).
Proof.
  intros Hm s. unfold in_thread. destruct (Hm s) as [Ht Hz].
  destruct (m s) as [a s1 | e s1 | c s1]; cbn [final] in *;
    (split; [exact Ht|]); try discriminate.
  intros c' s' [= <- <-]. eapply Hz. reflexivity.
Qed.

Create HintDb orderliness discriminated.

(** Closes a goal [threads_of (f s) = threads_of s] for a field update
    that keeps the thread objects. *)
Ltac same_threads :=
  let s := fresh "s" in
  intros s; destruct s as [? ? ? ? [[[? ?] ? ?]|] [[[? ?] ? ?]|] ? ? ?];
  reflexivity.

Ltac orderly_steps :=
  repeat first
    [ solve [auto with orderliness nocore]
    | apply orderly_ret
    | apply orderly_raise
    | apply orderly_gets
    | apply orderly_os_exit
    | apply orderly_modify; same_threads
    | apply orderly_bind; [|intros ?]
    | apply orderly_try; [|intros ?]
    | match goal with
      | |- orderly (match ?x with _ => _ end) => destruct x
      | |- orderly (if ?x then _ else _) => destruct x
      end ].

Lemma orderly_nuke (o : GhostProtocolVault.t) :
  orderly (on_vault GhostProtocolVault.nuke_memory o).
Proof.
  apply orderly_on_vault. intros w c w' E.
  destruct (nuke_memory_returns w) as (a & w1 & E1). congruence.
Qed.
#[local] Hint Resolve orderly_nuke : orderliness.

Lemma orderly_trigger_panic (me : tid) : orderly (_trigger_panic me).
Proof.
  unfold _trigger_panic, _stop_monitors, CameraSentinel.stop,
    CameraSentinel.release_cap, map_camera, SecurityMonitorM.stop,
    SecurityMonitorM.join, Gui.call, log.
  orderly_steps.
  all: apply orderly_modify; intros s; destruct m; revert s; same_threads.
Qed.
#[local] Hint Resolve orderly_trigger_panic : orderliness.

Lemma orderly_update_status (key value : string) :
  orderly (_update_status key value).
Proof. unfold _update_status, Gui.call, log. orderly_steps. Qed.
#[local] Hint Resolve orderly_update_status : orderliness.

Lemma orderly_set_blur (blur : bool) : orderly (_set_blur blur).
Proof. unfold _set_blur, Gui.call, log. orderly_steps. Qed.
#[local] Hint Resolve orderly_set_blur : orderliness.

Lemma orderly_interfere (acts : list ext_action) : orderly (interfere acts).
Proof.
  induction acts as [|a acts IH]; cbn [interfere]; [apply orderly_ret|].
  apply orderly_bind; [|intros _; exact IH].
  destruct a as [m|b]; cbn [interfere_one]; unfold map_usb.
  - apply orderly_modify. destruct m; same_threads.
  - apply orderly_modify. same_threads.
Qed.
#[local] Hint Resolve orderly_interfere : orderliness.

Lemma orderly_usb_worker (ticks : list (tick Host)) : orderly (usb_worker ticks).
Proof.
  assert (Hidle : forall ticks, orderly (USBGuard.bypass_idle ticks)).
  { induction ticks0 as [|tk rest IH]; cbn [USBGuard.bypass_idle];
      unfold is_running; orderly_steps. }
  assert (Hpoll : forall init ticks,
             orderly (USBGuard.poll _trigger_panic _update_status
                                    (Worker Usb) init ticks)).
  { intros init. induction ticks0 as [|tk rest IH]; cbn [USBGuard.poll];
      unfold is_running, USBGuard.get_usb_present, USBGuard.call_status,
        USBGuard.call_panic, USBGuard.set_usb_present, map_usb, log;
      orderly_steps. }
  unfold usb_worker, USBGuard._monitor_loop, USBGuard.get_bypass_mode,
    USBGuard.get_usb_present, USBGuard.call_status, USBGuard.set_usb_present,
    map_usb, log.
  orderly_steps.
Qed.

Lemma orderly_camera_worker (probe : camera_probe) (ticks : list (tick frame)) :
  orderly (camera_worker probe ticks).
Proof.
  assert (Hidle : forall ticks, orderly (CameraSentinel.standby ticks)).
  { induction ticks0 as [|tk rest IH]; cbn [CameraSentinel.standby];
      unfold is_running; orderly_steps. }
  assert (Hbody : forall last f,
             orderly (CameraSentinel.loop_body _trigger_panic _update_status
                                               _set_blur (Worker Camera) last f)).
  { intros last f.
    unfold CameraSentinel.loop_body, CameraSentinel.call_status,
      CameraSentinel.call_blur, log.
    orderly_steps. }
  assert (Hwatch : forall ticks last,
             orderly (CameraSentinel.watch _trigger_panic _update_status
                                           _set_blur (Worker Camera) last ticks)).
  { induction ticks0 as [|tk rest IH]; intros last; cbn [CameraSentinel.watch];
      unfold is_running; orderly_steps. }
  unfold camera_worker, CameraSentinel._monitor_loop,
    CameraSentinel._initialize_camera, CameraSentinel.call_status,
    CameraSentinel.set_cap, CameraSentinel.set_camera_available,
    CameraSentinel.release_cap, map_camera, log.
  orderly_steps.
Qed.

Lemma joins_self_threads (m : monitor_id) (s : Sys) (t : tid) :
  joins_self m s t
  = match option_map _thread (get_base m s) with
    | Some (Some t') => tid_eqb t' t
    | _ => false
    end.
Proof. unfold joins_self. destruct (get_base m s); reflexivity. Qed.

Lemma main_free_same (s s' : Sys) :
  threads_of s' = threads_of s -> main_free s -> main_free s'.
Proof.
  unfold threads_of, main_free. intros H.
  assert (Hc : option_map _thread (get_base Camera s')
               = option_map _thread (get_base Camera s)) by congruence.
  assert (Hu : option_map _thread (get_base Usb s')
               = option_map _thread (get_base Usb s)) by congruence.
  rewrite !joins_self_threads, Hc, Hu. auto.
Qed.

Lemma happen_cases (h : happening) (s : Sys) :
  main_free s ->
  match happen h s with
  | Ok _ s' => main_free s'
  | Exc _ _ => False
  | Halt c _ => c = 0
  end.
Proof.
  intros Hm.
  assert (Hmain : match _trigger_panic MainThread s with
                  | Ok _ s' => main_free s'
                  | Exc _ _ => False
                  | Halt c _ => c = 0
                  end).
  { destruct (_panic_triggered s) eqn:Hf.
    - rewrite (trigger_panic_fired MainThread s Hf).
      apply (main_free_same s); [destruct s; reflexivity | exact Hm].
    - destruct Hm as [Hc Hu].
      destruct (trigger_panic_off_worker MainThread s Hf Hc Hu)
        as (s' & l & E & _).
      rewrite E. reflexivity. }
  assert (Hthread : forall A (m : M Sys A), orderly m ->
             match in_thread m s with
             | Ok _ s' => main_free s'
             | Exc _ _ => False
             | Halt c _ => c = 0
             end).
  { intros A m Ho. destruct (Ho s) as [Ht Hz]. unfold in_thread.
    destruct (m s) as [a s1 | e s1 | c s1]; cbn [final] in Ht.
    - apply (main_free_same s); assumption.
    - apply (main_free_same s); assumption.
    - eapply Hz. reflexivity. }
  destruct h as [| |probe ticks|ticks]; cbn [happen].
  - exact Hmain.
  - exact Hmain.
  - apply Hthread, orderly_camera_worker.
  - apply Hthread, orderly_usb_worker.
Qed.

Lemma mainloop_cases (script : list happening) (ending : mainloop_end)
  (s : Sys) :
  main_free s ->
  match mainloop script ending s with
  | Ok _ s' => main_free s' /\ ending = WindowClosed
  | Exc e s' => main_free s' /\ ending = MainloopRaises e
  | Halt c _ => c = 0
  end.
Proof.
  revert s. induction script as [|h rest IH]; intros s Hm; cbn [mainloop].
  - destruct ending; cbn; auto.
  - pose proof (happen_cases h s Hm) as Hh. unfold bind.
    destruct (happen h s) as [[] s1 | e s1 | c s1]; [|contradiction|exact Hh].
    apply IH, Hh.
Qed.

(** The [finally] clause, in a state where the main thread is free. *)
Lemma finally_cases (s : Sys) :
  main_free s ->
  (_panic_triggered s = true /\ _cleanup s = Ok tt s)
  \/ exists s', _cleanup s = Halt 0 s'.
Proof.
  intros [Hc Hu]. destruct (_panic_triggered s) eqn:Hf.
  - left. split; [reflexivity|]. unfold _cleanup.
    rewrite bind_gets, Hf. reflexivity.
  - right. destruct (last_resort_halts s Hf Hc Hu) as (s' & E & _). eauto.
Qed.

Lemma guarded_mainloop_cases (script : list happening) (ending : mainloop_end)
  (s : Sys) :
  main_free s ->
  match guarded_mainloop script ending s with
  | Ok _ s' => _panic_triggered s' = true
  | Exc e s' => _panic_triggered s' = true
                /\ ending = MainloopRaises e /\ is_Exception e = true
  | Halt c _ => c = 0
  end.
Proof.
  intros Hm. pose proof (mainloop_cases script ending s Hm) as Hl.
  unfold guarded_mainloop. cbv zeta. fold _cleanup.
  destruct (mainloop script ending s) as [[] s1 | e s1 | c s1];
    [ | | exact Hl ]; destruct Hl as [Hm1 He].
  - destruct (finally_cases s1 Hm1) as [[Hf E] | (s' & E)]; rewrite E;
      [exact Hf | reflexivity].
  - destruct (finally_cases s1 Hm1) as [[Hf E] | (s' & E)];
      destruct e; rewrite ?(bind_ok _ _ _ _ _ E), ?(bind_halt _ _ _ _ _ E), ?E;
      cbn; auto.
Qed.

(** *** Who fires first *)

Lemma grows_refl (s : Sys) : grows s s.
Proof. exists []. rewrite app_nil_r. reflexivity. Qed.

Lemma grows_trans (s1 s2 s3 : Sys) : grows s1 s2 -> grows s2 s3 -> grows s1 s3.
Proof.
  intros (l1 & E1) (l2 & E2). exists (l1 ++ l2).
  rewrite E2, E1, app_assoc. reflexivity.
Qed.

Lemma worker_fired_then (s1 s2 s3 : Sys) :
  worker_fired s1 s2 -> grows s2 s3 -> worker_fired s1 s3.
Proof.
  intros (l1 & E1 & H1) (l2 & E2). exists (l1 ++ l2). split.
  - rewrite E2, E1, app_assoc. reflexivity.
  - rewrite existsb_app, H1. reflexivity.
Qed.

Lemma worker_fired_after (s1 s2 s3 : Sys) :
  grows s1 s2 -> worker_fired s2 s3 -> worker_fired s1 s3.
Proof.
  intros (l1 & E1) (l2 & E2 & H2). exists (l1 ++ l2). split.
  - rewrite E2, E1, app_assoc. reflexivity.
  - rewrite existsb_app, H2. apply orb_true_r.
Qed.

Lemma tame_still (A : Type) (m : M Sys A) :
  (forall s, exists a, m s = Ok a s \/ exists e, m s = Exc e s) -> tame m.
Proof.
  intros H s. destruct (H s) as (a & [E | (e & E)]); rewrite E; cbn [final];
    (split; [apply grows_refl | right; split; [reflexivity | discriminate]]).
Qed.

Lemma tame_ret {A} (a : A) : tame (ret a).
Proof. apply tame_still. intros s. exists a. left. reflexivity. Qed.

Lemma tame_raise {A} (e : exn) : tame (@raise Sys A e).
Proof.
  intros s. cbn. split; [apply grows_refl|].
  right. split; [reflexivity | discriminate].
Qed.

Lemma tame_gets {A} (f : Sys -> A) : tame (gets f).
Proof. apply tame_still. intros s. exists (f s). left. reflexivity. Qed.

Lemma tame_modify (f : Sys -> Sys) :
  (forall s, grows s (f s) /\ _panic_triggered (f s) = _panic_triggered s) ->
  tame (modify f).
Proof.
  intros H s. destruct (H s) as [Hg Hf]. cbn. split; [exact Hg|].
  right. split; [exact Hf | discriminate].
Qed.

Lemma tame_bind {A B} (m : M Sys A) (k : A -> M Sys B) :
  tame m -> (forall a, tame (k a)) -> tame (bind m k).
Proof.
  intros Hm Hk s. unfold bind. destruct (Hm s) as [Hg Hc].
  destruct (m s) as [a s1 | e s1 | c s1] eqn:E; cbn [final] in *.
  - destruct (Hk a s1) as [Hg1 Hc1]. split; [eapply grows_trans; eassumption|].
    destruct Hc as [Hw | [Hf Hh]].
    + left. eapply worker_fired_then; eassumption.
    + destruct Hc1 as [Hw1 | [Hf1 Hh1]].
      * left. eapply worker_fired_after; eassumption.
      * right. split; [congruence | exact Hh1].
  - split; [exact Hg|]. destruct Hc as [Hw | [Hf Hh]]; [left; exact Hw|].
    right. split; [exact Hf | discriminate].
  - split; [exact Hg|]. destruct Hc as [Hw | [Hf Hh]]; [left; exact Hw|].
    exfalso. eapply Hh. reflexivity.
Qed.

Lemma tame_try {A} (body : M Sys A) (handler : exn -> M Sys A) :
  tame body -> (forall e, tame (handler e)) -> tame (try_except body handler).
Proof.
  intros Hb Hh s. unfold try_except. destruct (Hb s) as [Hg Hc].
  destruct (body s) as [a s1 | e s1 | c s1] eqn:E; cbn [final] in *.
  - split; [exact Hg|]. destruct Hc as [Hw | [Hf Hn]]; [left; exact Hw|].
    right. split; [exact Hf | discriminate].
  - destruct (is_Exception e).
    + destruct (Hh e s1) as [Hg1 Hc1]. split; [eapply grows_trans; eassumption|].
      destruct Hc as [Hw | [Hf Hn]].
      * left. eapply worker_fired_then; eassumption.
      * destruct Hc1 as [Hw1 | [Hf1 Hn1]].
        -- left. eapply worker_fired_after; eassumption.
        -- right. split; [congruence | exact Hn1].
    + split; [exact Hg|]. destruct Hc as [Hw | [Hf Hn]]; [left; exact Hw|].
      right. split; [exact Hf | discriminate].
  - split; [exact Hg|]. destruct Hc as [Hw | [Hf Hn]]; [left; exact Hw|].
    exfalso. eapply Hn. reflexivity.
Qed.

Lemma tame_in_thread {A} (m : M Sys A) : tame m -> tame (in_thread m).
Proof.
  intros Hm s. unfold in_thread. destruct (Hm s) as [Hg Hc].
  destruct (m s) as [a s1 | e s1 | c s1] eqn:E; cbn [final] in *;
    (split; [exact Hg|]); (destruct Hc as [Hw | [Hf Hn]]; [left; exact Hw|]).
  - right. split; [exact Hf | discriminate].
  - right. split; [exact Hf | discriminate].
  - exfalso. eapply Hn. reflexivity.
Qed.

Lemma tame_log (e : event) : tame (log e).
Proof.
  apply tame_modify. intros s. split; [|destruct s; reflexivity].
  exists [e]. destruct s; reflexivity.
Qed.

(** A worker's call of the trigger is on the record, whatever comes of
    it. *)
Lemma tame_worker_trigger (m : monitor_id) : tame (_trigger_panic (Worker m)).
Proof.
  intros s. destruct (trigger_panic_trace (Worker m) s) as (l & Ht & _).
  split; [eexists; exact Ht|]. left.
  exists (EvPanicCall (Worker m) :: l). split; [exact Ht | reflexivity].
Qed.

Create HintDb tameness discriminated.
#[local] Hint Resolve tame_worker_trigger tame_log : tameness.

(** Closes the side condition of [tame_modify] for an update that
    leaves the trace and the flag alone. *)
Ltac same_trace_and_flag :=
  let s := fresh "s" in
  intros s; split; [exists []; rewrite app_nil_r; destruct s; reflexivity
                   | destruct s; reflexivity].

Ltac tame_steps :=
  repeat first
    [ solve [auto with tameness nocore]
    | apply tame_ret
    | apply tame_raise
    | apply tame_gets
    | apply tame_modify; same_trace_and_flag
    | apply tame_bind; [|intros ?]
    | apply tame_try; [|intros ?]
    | match goal with
      | |- tame (match ?x with _ => _ end) => destruct x
      | |- tame (if ?x then _ else _) => destruct x
      end ].

Lemma tame_update_status (key value : string) : tame (_update_status key value).
Proof. unfold _update_status, Gui.call. tame_steps. Qed.
#[local] Hint Resolve tame_update_status : tameness.

Lemma tame_set_blur (blur : bool) : tame (_set_blur blur).
Proof. unfold _set_blur, Gui.call. tame_steps. Qed.
#[local] Hint Resolve tame_set_blur : tameness.

Lemma tame_interfere (acts : list ext_action) : tame (interfere acts).
Proof.
  induction acts as [|a acts IH]; cbn [interfere]; [apply tame_ret|].
  apply tame_bind; [|intros _; exact IH].
  destruct a as [m|b]; cbn [interfere_one]; unfold map_usb.
  - apply tame_modify. destruct m; same_trace_and_flag.
  - apply tame_modify. same_trace_and_flag.
Qed.
#[local] Hint Resolve tame_interfere : tameness.

Lemma tame_usb_worker (ticks : list (tick Host)) : tame (usb_worker ticks).
Proof.
  assert (Hidle : forall ticks, tame (USBGuard.bypass_idle ticks)).
  { induction ticks0 as [|tk rest IH]; cbn [USBGuard.bypass_idle];
      unfold is_running; tame_steps. }
  assert (Hpoll : forall init ticks,
             tame (USBGuard.poll _trigger_panic _update_status
                                 (Worker Usb) init ticks)).
  { intros init. induction ticks0 as [|tk rest IH]; cbn [USBGuard.poll];
      unfold is_running, USBGuard.get_usb_present, USBGuard.call_status,
        USBGuard.call_panic, USBGuard.set_usb_present, map_usb;
      tame_steps. }
  unfold usb_worker, USBGuard._monitor_loop, USBGuard.get_bypass_mode,
    USBGuard.get_usb_present, USBGuard.call_status, USBGuard.set_usb_present,
    map_usb.
  tame_steps.
Qed.

Lemma tame_camera_worker (probe : camera_probe) (ticks : list (tick frame)) :
  tame (camera_worker probe ticks).
Proof.
  assert (Hidle : forall ticks, tame (CameraSentinel.standby ticks)).
  { induction ticks0 as [|tk rest IH]; cbn [CameraSentinel.standby];
      unfold is_running; tame_steps. }
  assert (Hbody : forall last f,
             tame (CameraSentinel.loop_body _trigger_panic _update_status
                                            _set_blur (Worker Camera) last f)).
  { intros last f.
    unfold CameraSentinel.loop_body, CameraSentinel.call_status,
      CameraSentinel.call_blur.
    tame_steps. }
  assert (Hwatch : forall ticks last,
             tame (CameraSentinel.watch _trigger_panic _update_status
                                        _set_blur (Worker Camera) last ticks)).
  { induction ticks0 as [|tk rest IH]; intros last; cbn [CameraSentinel.watch];
      unfold is_running; tame_steps. }
  unfold camera_worker, CameraSentinel._monitor_loop,
    CameraSentinel._initialize_camera, CameraSentinel.call_status,
    CameraSentinel.set_cap, CameraSentinel.set_camera_available,
    CameraSentinel.release_cap, map_camera.
  tame_steps.
Qed.

Lemma grows_trigger_panic (me : tid) (s : Sys) :
  grows s (final (_trigger_panic me s)).
Proof.
  destruct (trigger_panic_trace me s) as (l & Ht & _). eexists. exact Ht.
Qed.

Lemma grows_cleanup (s : Sys) : grows s (final (_cleanup s)).
Proof.
  unfold _cleanup. rewrite bind_gets.
  destruct (negb _); [apply grows_trigger_panic | apply grows_refl].
Qed.

Lemma grows_happen (h : happening) (s : Sys) : grows s (final (happen h s)).
Proof.
  destruct h as [| |probe ticks|ticks]; cbn [happen].
  - apply grows_trigger_panic.
  - apply grows_trigger_panic.
  - apply (tame_in_thread _ (tame_camera_worker probe ticks)).
  - apply (tame_in_thread _ (tame_usb_worker ticks)).
Qed.

Lemma grows_mainloop (script : list happening) (ending : mainloop_end) (s : Sys) :
  grows s (final (mainloop script ending s)).
Proof.
  revert s. induction script as [|h rest IH]; intros s; cbn [mainloop].
  - destruct ending; apply grows_refl.
  - pose proof (grows_happen h s) as Hh. unfold bind.
    destruct (happen h s) as [[] s1 | e s1 | c s1]; cbn [final] in *;
      try exact Hh.
    eapply grows_trans; [exact Hh | apply IH].
Qed.

(** The main loop, from a state with the flag unset: the process has
    ended wiped, or a worker has fired, or the flag is still unset. *)
Lemma mainloop_progress (script : list happening) (ending : mainloop_end)
  (s : Sys) :
  _panic_triggered s = false ->
  main_free s ->
  worker_fired s (final (mainloop script ending s))
  \/ match mainloop script ending s with
     | Halt c s' => c = 0 /\ vault_wiped s' /\ _panic_triggered s' = true
     | Ok _ s' | Exc _ s' => _panic_triggered s' = false /\ main_free s'
     end.
Proof.
  revert s. induction script as [|h rest IH]; intros s Hf Hm; cbn [mainloop].
  - right. destruct ending; cbn; auto.
  - assert (Hmain : happen h = _trigger_panic MainThread ->
                    exists s', happen h s = Halt 0 s' /\ vault_wiped s'
                               /\ _panic_triggered s' = true).
    { intros ->. destruct Hm as [Hc Hu].
      destruct (trigger_panic_off_worker MainThread s Hf Hc Hu)
        as (s' & l & E & Hf' & _ & _ & Hw & _).
      eauto. }
    assert (Hworker : forall A (w : M Sys A), orderly w -> tame w ->
               happen h = in_thread w ->
               worker_fired s (final (bind (happen h) (fun _ => mainloop rest ending) s))
               \/ match bind (happen h) (fun _ => mainloop rest ending) s with
                  | Halt c s' => c = 0 /\ vault_wiped s' /\ _panic_triggered s' = true
                  | Ok _ s' | Exc _ s' => _panic_triggered s' = false /\ main_free s'
                  end).
    { intros A w Ho Ht ->.
      destruct (tame_in_thread _ Ht s) as [Hg Hc].
      destruct (orderly_in_thread _ Ho s) as [Hth _].
      unfold bind.
      destruct (in_thread w s) as [[] s1 | e s1 | c s1] eqn:E; cbn [final] in *.
      - destruct Hc as [Hw | [Hf1 _]].
        + left. eapply worker_fired_then; [exact Hw | apply grows_mainloop].
        + assert (Hm1 : main_free s1) by (eapply main_free_same; eassumption).
          destruct (IH s1) as [Hw | Hr]; [congruence | exact Hm1 | |].
          * left. eapply worker_fired_after; eassumption.
          * right. exact Hr.
      - unfold in_thread in E. destruct (w s); discriminate.
      - destruct Hc as [Hw | [_ Hn]]; [left; exact Hw|].
        exfalso. eapply Hn. reflexivity. }
    destruct h as [| |probe ticks|ticks].
    + right. destruct (Hmain eq_refl) as (s' & E & Hw & Hf').
      rewrite (bind_halt _ _ _ _ _ E). auto.
    + right. destruct (Hmain eq_refl) as (s' & E & Hw & Hf').
      rewrite (bind_halt _ _ _ _ _ E). auto.
    + apply (Hworker _ (camera_worker probe ticks));
        [apply orderly_camera_worker | apply tame_camera_worker | reflexivity].
    + apply (Hworker _ (usb_worker ticks));
        [apply orderly_usb_worker | apply tame_usb_worker | reflexivity].
Qed.

Lemma guarded_mainloop_progress (script : list happening)
  (ending : mainloop_end) (s : Sys) :
  _panic_triggered s = false ->
  main_free s ->
  (exists s', guarded_mainloop script ending s = Halt 0 s'
              /\ vault_wiped s' /\ _panic_triggered s' = true)
  \/ worker_fired s (final (guarded_mainloop script ending s)).
Proof.
  intros Hf Hm.
  pose proof (mainloop_progress script ending s Hf Hm) as Hp.
  unfold guarded_mainloop. cbv zeta. fold _cleanup.
  assert (Hfin : forall s1 (k : M Sys unit),
             (forall s2, grows s2 (final (k s2))) ->
             worker_fired s s1 ->
             worker_fired s (final (bind _cleanup (fun _ => k) s1))).
  { intros s1 k Hk Hw. pose proof (grows_cleanup s1) as Hg. unfold bind.
    destruct (_cleanup s1) as [[] s2 | e s2 | c s2]; cbn [final] in *.
    - eapply worker_fired_then; [exact Hw|].
      eapply grows_trans; [exact Hg | apply Hk].
    - eapply worker_fired_then; eassumption.
    - eapply worker_fired_then; eassumption. }
  assert (Hlast : forall s1, _panic_triggered s1 = false -> main_free s1 ->
             exists s', _cleanup s1 = Halt 0 s'
                        /\ vault_wiped s' /\ _panic_triggered s' = true).
  { intros s1 Hf1 [Hc Hu]. apply last_resort_halts; assumption. }
  destruct (mainloop script ending s) as [[] s1 | e s1 | c s1]; cbn [final] in *.
  - destruct Hp as [Hw | [Hf1 Hm1]].
    + right. eapply worker_fired_then; [exact Hw | apply grows_cleanup].
    + left. apply Hlast; assumption.
  - destruct Hp as [Hw | [Hf1 Hm1]].
    + right. destruct e; first
        [ eapply worker_fired_then; [exact Hw | apply grows_cleanup]
        | apply Hfin; [intros s2; apply grows_refl | exact Hw] ].
    + left. destruct (Hlast s1 Hf1 Hm1) as (s' & E & Hw & Hf').
      exists s'. split; [|auto].
      destruct e; first [ exact E | rewrite (bind_halt _ _ _ _ _ E); reflexivity
                        | reflexivity ].
  - destruct Hp as [Hw | (-> & Hw & Hf')]; [right; exact Hw|].
    left. eauto.
Qed.


(** Once the monitors are started, the exit status of the process is 0
    on every path but one: it is 1 when the main loop raises an ordinary
    exception after a monitor's worker has called the panic trigger
    (which set the flag without ending the process).  No path gives
    another value. *)
Theorem exit_status_after_startup (script : list happening)
        (ending : mainloop_end) (s : Sys) :
  _panic_triggered s = false ->
  main_free s ->
  let res := process_end (after_startup script ending s) in
  exit_status res = Some 0
  \/ (exit_status res = Some 1
      /\ worker_fired s (final res)
      /\ exists e, ending = MainloopRaises e /\ is_Exception e = true).
Proof.
  intros Hf Hm. cbv zeta.
  pose proof (guarded_mainloop_cases script ending s Hm) as Hg.
  pose proof (guarded_mainloop_progress script ending s Hf Hm) as Hp.
  unfold after_startup, process_end, bind.
  destruct (guarded_mainloop script ending s) as [[] s1 | e s1 | c s1];
    cbn [final ret] in *.
  - left. unfold sys_exit, _cleanup. rewrite bind_gets, Hg. reflexivity.
  - destruct Hg as (Hf1 & He & Hex). unfold sys_exit, _cleanup.
    rewrite bind_gets, Hf1. cbn [negb ret exit_status final].
    right. split; [destruct e; try discriminate Hex; reflexivity|].
    split; [|eauto].
    destruct Hp as [(s' & E & _) | Hw]; [discriminate | exact Hw].
  - subst c. left. reflexivity.
Qed.


Lemma exit_status_after_startup_witness :
  let res := process_end
               (after_startup
                  [UsbRuns (map Samples.quiet [Samples.host_with_token;
                                               Samples.host_without_token])]
                  (MainloopRaises ValueError) Samples.booted) in
  exit_status res = Some 1 /\ worker_fired Samples.booted (final res).
Proof.
  destruct (exit_status_after_startup
              [UsbRuns (map Samples.quiet [Samples.host_with_token;
                                           Samples.host_without_token])]
              (MainloopRaises ValueError) Samples.booted
              eq_refl (conj eq_refl eq_refl))
    as [H | (H1 & Hw & _)].
  - vm_compute in H. discriminate.
  - split; assumption.
Defined.
End ExitExtras.

(** ** After the flag is set *)

Module SpentExtras.
Import GhostProtocol PanicFacts PanicDown.

Lemma spent_ret {A} (a : A) : spent (ret a).
Proof. intros s Hf. repeat split; auto; try discriminate. Qed.

Lemma spent_raise {A} (e : exn) : spent (@raise Sys A e).
Proof. intros s Hf. repeat split; auto; try discriminate. Qed.

Lemma spent_gets {A} (f : Sys -> A) : spent (gets f).
Proof. intros s Hf. repeat split; auto; try discriminate. Qed.

Lemma spent_modify (f : Sys -> Sys) :
  (forall s, _panic_triggered (f s) = _panic_triggered s
             /\ vault (f s) = vault s) ->
  spent (modify f).
Proof.
  intros H s Hf. destruct (H s) as [H1 H2]. cbn.
  repeat split; try congruence; try discriminate.
Qed.

Lemma spent_bind {A B} (m : M Sys A) (k : A -> M Sys B) :
  spent m -> (forall a, spent (k a)) -> spent (bind m k).
Proof.
  intros Hm Hk s Hf. unfold bind. destruct (Hm s Hf) as (H1 & H2 & H3).
  destruct (m s) as [a s1 | e s1 | c s1]; cbn [final] in *.
  - destruct (Hk a s1 H1) as (K1 & K2 & K3).
    split; [exact K1|]. split; [congruence | exact K3].
  - repeat split; auto; try discriminate.
  - exfalso. eapply H3. reflexivity.
Qed.

Lemma spent_try {A} (body : M Sys A) (handler : exn -> M Sys A) :
  spent body -> (forall e, spent (handler e)) -> spent (try_except body handler).
Proof.
  intros Hb Hh s Hf. unfold try_except. destruct (Hb s Hf) as (H1 & H2 & H3).
  destruct (body s) as [a s1 | e s1 | c s1]; cbn [final] in *.
  - repeat split; auto; try discriminate.
  - destruct (is_Exception e).
    + destruct (Hh e s1 H1) as (K1 & K2 & K3).
      split; [exact K1|]. split; [congruence | exact K3].
    + repeat split; auto; try discriminate.
  - exfalso. eapply H3. reflexivity.
Qed.

Lemma spent_in_thread {A} (m : M Sys A) : spent m -> spent (in_thread m).
Proof.
  intros Hm s Hf. unfold in_thread. destruct (Hm s Hf) as (H1 & H2 & H3).
  destruct (m s) as [a s1 | e s1 | c s1]; cbn [final] in *;
    try (repeat split; auto; discriminate).
  exfalso. eapply H3. reflexivity.
Qed.

Lemma spent_trigger_panic (me : tid) : spent (_trigger_panic me).
Proof.
  intros s Hf. rewrite (trigger_panic_fired me s Hf). cbn [final].
  destruct s; repeat split; auto; try discriminate.
Qed.

Create HintDb spending discriminated.
#[local] Hint Resolve spent_trigger_panic : spending.

(** Closes the side condition of [spent_modify] for an update of
    another field. *)
Ltac same_flag_and_vault :=
  let s := fresh "s" in
  intros s; destruct s; split; reflexivity.

Ltac spent_steps :=
  repeat first
    [ solve [auto with spending nocore]
    | apply spent_ret
    | apply spent_raise
    | apply spent_gets
    | apply spent_modify; same_flag_and_vault
    | apply spent_bind; [|intros ?]
    | apply spent_try; [|intros ?]
    | match goal with
      | |- spent (match ?x with _ => _ end) => destruct x
      | |- spent (if ?x then _ else _) => destruct x
      end ].

Lemma spent_update_status (key value : string) : spent (_update_status key value).
Proof. unfold _update_status, Gui.call, log. spent_steps. Qed.
#[local] Hint Resolve spent_update_status : spending.

Lemma spent_set_blur (blur : bool) : spent (_set_blur blur).
Proof. unfold _set_blur, Gui.call, log. spent_steps. Qed.
#[local] Hint Resolve spent_set_blur : spending.

Lemma spent_interfere (acts : list ext_action) : spent (interfere acts).
Proof.
  induction acts as [|a acts IH]; cbn [interfere]; [apply spent_ret|].
  apply spent_bind; [|intros _; exact IH].
  destruct a as [m|b]; cbn [interfere_one]; unfold map_usb.
  - apply spent_modify. destruct m; same_flag_and_vault.
  - apply spent_modify. same_flag_and_vault.
Qed.
#[local] Hint Resolve spent_interfere : spending.

Lemma spent_usb_worker (ticks : list (tick Host)) : spent (usb_worker ticks).
Proof.
  assert (Hidle : forall ticks, spent (USBGuard.bypass_idle ticks)).
  { induction ticks0 as [|tk rest IH]; cbn [USBGuard.bypass_idle];
      unfold is_running; spent_steps. }
  assert (Hpoll : forall init ticks,
             spent (USBGuard.poll _trigger_panic _update_status
                                  (Worker Usb) init ticks)).
  { intros init. induction ticks0 as [|tk rest IH]; cbn [USBGuard.poll];
      unfold is_running, USBGuard.get_usb_present, USBGuard.call_status,
        USBGuard.call_panic, USBGuard.set_usb_present, map_usb, log;
      spent_steps. }
  unfold usb_worker, USBGuard._monitor_loop, USBGuard.get_bypass_mode,
    USBGuard.get_usb_present, USBGuard.call_status, USBGuard.set_usb_present,
    map_usb, log.
  spent_steps.
Qed.

Lemma spent_camera_worker (probe : camera_probe) (ticks : list (tick frame)) :
  spent (camera_worker probe ticks).
Proof.
  assert (Hidle : forall ticks, spent (CameraSentinel.standby ticks)).
  { induction ticks0 as [|tk rest IH]; cbn [CameraSentinel.standby];
      unfold is_running; spent_steps. }
  assert (Hbody : forall last f,
             spent (CameraSentinel.loop_body _trigger_panic _update_status
                                             _set_blur (Worker Camera) last f)).
  { intros last f.
    unfold CameraSentinel.loop_body, CameraSentinel.call_status,
      CameraSentinel.call_blur, log.
    spent_steps. }
  assert (Hwatch : forall ticks last,
             spent (CameraSentinel.watch _trigger_panic _update_status
                                         _set_blur (Worker Camera) last ticks)).
  { induction ticks0 as [|tk rest IH]; intros last; cbn [CameraSentinel.watch];
      unfold is_running; spent_steps. }
  unfold camera_worker, CameraSentinel._monitor_loop,
    CameraSentinel._initialize_camera, CameraSentinel.call_status,
    CameraSentinel.set_cap, CameraSentinel.set_camera_available,
    CameraSentinel.release_cap, map_camera, log.
  spent_steps.
Qed.

Lemma spent_happen (h : happening) : spent (happen h).
Proof.
  destruct h as [| |probe ticks|ticks]; cbn [happen].
  - apply spent_trigger_panic.
  - apply spent_trigger_panic.
  - apply spent_in_thread, spent_camera_worker.
  - apply spent_in_thread, spent_usb_worker.
Qed.

Lemma spent_mainloop (script : list happening) (ending : mainloop_end) :
  spent (mainloop script ending).
Proof.
  induction script as [|h rest IH]; cbn [mainloop].
  - destruct ending; [apply spent_ret | apply spent_raise].
  - apply spent_bind; [apply spent_happen | intros _; exact IH].
Qed.

Lemma spent_cleanup : spent _cleanup.
Proof. unfold _cleanup. spent_steps. Qed.

(** The flag says the panic has run, whether it has or not.  Once it is
    set, nothing that can happen while the main loop runs (the button, a
    signal, either monitor tripping, for any samples), nor the [finally]
    clause after it, wipes the vault or ends the process: the flag stays
    set and the vault object is left exactly as it was. *)
Theorem set_flag_blocks_wipe (script : list happening) (ending : mainloop_end)
        (s : Sys) :
  _panic_triggered s = true ->
  let r := guarded_mainloop script ending s in
  _panic_triggered (final r) = true
  /\ vault (final r) = vault s
  /\ forall c s', r <> Halt c s'.
Proof.
  intros Hf. cbv zeta. unfold guarded_mainloop. fold _cleanup.
  destruct (spent_mainloop script ending s Hf) as (H1 & H2 & H3).
  destruct (mainloop script ending s) as [[] s1 | e s1 | c s1];
    cbn [final] in *.
  - destruct (spent_cleanup s1 H1) as (K1 & K2 & K3).
    split; [exact K1|]. split; [congruence | exact K3].
  - assert (Hfin : forall m : M Sys unit, spent m ->
               _panic_triggered (final (m s1)) = true
               /\ vault (final (m s1)) = vault s
               /\ forall c s', m s1 <> Halt c s').
    { intros m Hm. destruct (Hm s1 H1) as (K1 & K2 & K3).
      split; [exact K1|]. split; [congruence | exact K3]. }
    destruct e; apply Hfin;
      first [ exact spent_cleanup
            | apply spent_bind; [exact spent_cleanup | intros _; apply spent_raise] ].
  - exfalso. eapply H3. reflexivity.
Qed.

Lemma set_flag_blocks_wipe_witness :
  let s := final (_trigger_panic (Worker Usb) Samples.booted) in
  let r := guarded_mainloop
             [PanicButton;
              CameraRuns CameraOpened [Samples.quiet (Faces 2)];
              Signal]
             WindowClosed s in
  _panic_triggered (final r) = true
  /\ vault (final r) = vault s
  /\ forall c s', r <> Halt c s'.
Proof.
  apply (set_flag_blocks_wipe
           [PanicButton;
            CameraRuns CameraOpened [Samples.quiet (Faces 2)];
            Signal]
           WindowClosed
           (final (_trigger_panic (Worker Usb) Samples.booted))).
  reflexivity.
Defined.
End SpentExtras.
